(** * HOMINA5: draw calendar and winner determination

    A shallow embedding of the lottery page's calendar engine
    (the draw-schedule and concurso functions of the page script) and of
    the admin validator (class [LotteryValidator] of admin/validator.js),
    with the properties of the specification stated over it. *)

From Stdlib Require Import ZArith Lia List Ascii String Sorted Permutation.
From stdpp Require Import base decidable option numbers list gmap.

(** ** JavaScript values used by the program *)

Module JS.

(** A JavaScript string is a sequence of UTF-16 code units. *)
Abbreviation jsstring := (list N).

(** An ASCII literal as a JavaScript string. *)
Definition js (s : string) : jsstring :=
  map N_of_ascii (list_ascii_of_string s).

(** [ToBoolean] of a property that is either absent ([undefined]) or a
    string: only a non-empty string is truthy. *)
Definition truthy (v : option jsstring) : bool :=
  match v with
  | Some (_ :: _) => true
  | _ => false
  end.

(** [a || b] on such properties. *)
Definition or_else (a b : option jsstring) : option jsstring :=
  if truthy a then a else b.

(** WhiteSpace and LineTerminator code points, the ones
    [String.prototype.trim] removes. *)
Definition isWhiteSpace (c : N) : bool :=
  ((9 <=? c) && (c <=? 13) || (c =? 32) || (c =? 160) || (c =? 5760)
   || (8192 <=? c) && (c <=? 8202) || (c =? 8232) || (c =? 8233)
   || (c =? 8239) || (c =? 8287) || (c =? 12288) || (c =? 65279))%N.

Fixpoint trimStart (s : jsstring) : jsstring :=
  match s with
  | c :: s' => if isWhiteSpace c then trimStart s' else s
  | [] => []
  end.

Definition trimEnd (s : jsstring) : jsstring := rev (trimStart (rev s)).

Definition trim (s : jsstring) : jsstring := trimEnd (trimStart s).

(** [String.prototype.toUpperCase] on the Basic Latin and Latin-1
    Supplement blocks (U+0000 to U+00FF), where the status vocabulary
    lives; code units above U+00FF are left as they are. *)
Definition upperUnit (c : N) : jsstring :=
  (if (97 <=? c) && (c <=? 122) then [c - 32]
   else if c =? 181 then [924]
   else if c =? 223 then [83; 83]
   else if (224 <=? c) && (c <=? 254) && negb (c =? 247) then [c - 32]
   else if c =? 255 then [376]
   else [c])%N.

Definition toUpperCase (s : jsstring) : jsstring := concat (map upperUnit s).

(** [===] on strings. *)
Definition streq (a b : jsstring) : bool := bool_decide (a = b).

(** [Array.prototype.includes] on an array of strings. *)
Definition includes (l : list jsstring) (s : jsstring) : bool :=
  existsb (streq s) l.

(** [a < b] on strings: lexicographic on code units. *)
Fixpoint strlt (a b : jsstring) : bool :=
  match a, b with
  | _, [] => false
  | [], _ :: _ => true
  | x :: a', y :: b' => (x <? y)%N || (x =? y)%N && strlt a' b'
  end.

(** [Array.prototype.sort] with a comparison function.  The standard
    requires the sort to be stable; for a consistent comparison function
    every conforming implementation returns the list computed here, the
    stable insertion sort. *)
Section Sort.
Context {A : Type} (comparefn : A -> A -> Z).

Fixpoint insert_sorted (x : A) (l : list A) : list A :=
  match l with
  | [] => [x]
  | y :: l' =>
      if (comparefn x y <=? 0)%Z then x :: l else y :: insert_sorted x l'
  end.

Fixpoint sort (l : list A) : list A :=
  match l with
  | [] => []
  | x :: l' => insert_sorted x (sort l')
  end.
End Sort.

End JS.

(** ** The admin validator (admin/validator.js, class LotteryValidator) *)

Module Validator.
Import JS.
Local Open Scope Z_scope.

(** An entry as the validator reads it.  Properties the sheets always
    fill are strings; the optional ones are absent ([None]) or strings. *)
Record Entry := {
  platform : jsstring;
  gameId : jsstring;
  contest : jsstring;
  drawDate : jsstring;
  chosenNumbers : list Z;
  status : option jsstring;
  csvStatus : option jsstring;
  validity : option jsstring;
  invalidReasonCode : option jsstring
}.

(** One published result, as [setResults] stores it. *)
Record ContestResult := {
  r_contest : jsstring;
  r_drawDate : jsstring;
  r_winningNumbers : list Z;
  r_savedAt : Z
}.

(** What [setResults] is given for one contest. *)
Record ResultInput := {
  in_contest : jsstring;
  in_drawDate : jsstring;
  in_winningNumbers : list Z
}.

(** [this.contestResults]: an object used as a map from the key
    [contest_drawDate] to the stored result. *)
Abbreviation ContestResults := (gmap jsstring ContestResult).

(** The two status lists the constructor installs; nothing reassigns
    them. *)
Definition allowedValidStatuses : list jsstring :=
  [js "VALID"; js "VALIDATED"; js "VALIDADO"].

Definition blockedPendingStatuses : list jsstring :=
  [js "GENERATED"; js "PENDING"; js "ALL PENDING"].

(** The template literal [`${a}_${b}`]. *)
Definition underscore (a b : jsstring) : jsstring := a ++ js "_" ++ b.

(** [setResults]; [now] is the clock reading that [savedAt] records. *)
Definition setResults (now : Z) (results : list ResultInput) : ContestResults :=
  fold_left
    (fun m r =>
       <[underscore (in_contest r) (in_drawDate r) :=
           {| r_contest := in_contest r;
              r_drawDate := in_drawDate r;
              r_winningNumbers := in_winningNumbers r;
              r_savedAt := now |}]> m)
    results ∅.

Definition getContestResult (this : ContestResults) (contest drawDate : jsstring)
  : option ContestResult :=
  this !! underscore contest drawDate.

Record MatchResult := { count : Z; matchedNumbers : list Z }.

(** [winningNumbers.includes(num)]. *)
Definition includesNum (winningNumbers : list Z) (num : Z) : bool :=
  existsb (Z.eqb num) winningNumbers.

(** [matchNumbers]: the [forEach] over the chosen numbers, threading the
    counter and the array it pushes to. *)
Definition matchNumbers (chosenNumbers winningNumbers : list Z) : MatchResult :=
  fold_left
    (fun acc num =>
       if includesNum winningNumbers num
       then {| count := count acc + 1;
               matchedNumbers := matchedNumbers acc ++ [num] |}
       else acc)
    chosenNumbers {| count := 0; matchedNumbers := [] |}.

Record PrizeTier := {
  tier : jsstring;
  color : jsstring;
  priority : Z;
  badge : jsstring
}.

Definition getPrizeTier (matchCount : Z) : PrizeTier :=
  if matchCount =? 5 then
    {| tier := js "GRAND PRIZE"; color := js "gold"; priority := 1; badge := js "badge-gold" |}
  else if matchCount =? 4 then
    {| tier := js "2nd PRIZE"; color := js "silver"; priority := 2; badge := js "badge-silver" |}
  else if matchCount =? 3 then
    {| tier := js "3rd PRIZE"; color := js "#CD7F32"; priority := 3; badge := js "badge-bronze" |}
  else if matchCount =? 2 then
    {| tier := js "CONSOLATION"; color := js "green"; priority := 4; badge := js "badge-green" |}
  else
    {| tier := js "NO PRIZE"; color := js "gray"; priority := 5; badge := js "" |}.

Inductive Gate :=
| RECHARGE_INVALID
| VALIDITY_UNKNOWN
| STATUS_INVALID
| STATUS_NOT_VALIDATED.

(** The object [validateEntry] returns: a rejection (with the gate when
    there is one, and the normalised validity or status it echoes) or a
    validated outcome. *)
Inductive ValidationOutcome :=
| Rejected (message : jsstring) (gate : option Gate)
           (o_validity o_status : option jsstring)
| Validated (matches : Z) (matchedNums : list Z) (prizeTier : PrizeTier)
            (winningNumbers : list Z).

Definition validated (v : ValidationOutcome) : bool :=
  match v with Validated _ _ _ _ => true | Rejected _ _ _ _ => false end.

Definition gate (v : ValidationOutcome) : option Gate :=
  match v with Rejected _ g _ _ => g | Validated _ _ _ _ => None end.

(** [v.matches]; [None] is [undefined]. *)
Definition matches (v : ValidationOutcome) : option Z :=
  match v with Validated m _ _ _ => Some m | Rejected _ _ _ _ => None end.

(** [x.toString().trim().toUpperCase()]. *)
Definition normalise (s : jsstring) : jsstring := toUpperCase (trim s).

(** A-acute, U+00C1. *)
Definition INVALIDO : jsstring := js "INV" ++ [193%N] ++ js "LIDO".

Definition validateEntry (this : ContestResults) (entry : Entry) : ValidationOutcome :=
  let gate1 :=
    if truthy (validity entry) then
      let validity := normalise (default [] (validity entry)) in
      if streq validity (js "INVALID") then
        Some (Rejected
                (if truthy (invalidReasonCode entry)
                 then js "Recharge validation failed: "
                      ++ default [] (invalidReasonCode entry)
                 else js "Ticket failed recharge validation. Winner check not allowed.")
                (Some RECHARGE_INVALID) (Some validity) None)
      else if negb (streq validity (js "VALID")) then
        Some (Rejected (js "Ticket validity unknown. Winner check not allowed.")
                (Some VALIDITY_UNKNOWN) (Some validity) None)
      else None
    else None in
  match gate1 with
  | Some rejection => rejection
  | None =>
      let statusRaw :=
        default [] (or_else (or_else (status entry) (csvStatus entry)) (Some [])) in
      let status := normalise statusRaw in
      if streq status (js "INVALID") || streq status INVALIDO then
        Rejected
          (if truthy (invalidReasonCode entry)
           then js "Ticket rejected: " ++ default [] (invalidReasonCode entry)
           else js "Ticket status is INVALID. Winner check is not allowed.")
          (Some STATUS_INVALID) None (Some status)
      else if includes blockedPendingStatuses status
              || (truthy (Some status) && negb (includes allowedValidStatuses status)) then
        Rejected (js "Ticket is not validated. Winner check is not allowed.")
          (Some STATUS_NOT_VALIDATED) None (Some status)
      else
        match getContestResult this (contest entry) (drawDate entry) with
        | None => Rejected (js "No winning numbers set for this contest") None None None
        | Some result =>
            let matchResult := matchNumbers (chosenNumbers entry) (r_winningNumbers result) in
            let prizeTier := getPrizeTier (count matchResult) in
            Validated (count matchResult) (matchedNumbers matchResult) prizeTier
              (r_winningNumbers result)
        end
  end.

(** An entry of a group: the entry's own properties and [validation]. *)
Record Checked := { c_entry : Entry; validation : ValidationOutcome }.

(** An element of the array [getWinners] returns. *)
Record Winner := {
  w_entry : Entry;
  w_validation : ValidationOutcome;
  winningLevel : Z
}.

Definition getWinningLevel (entries : list Checked) : Z :=
  fold_left
    (fun highest e =>
       match validation e with
       | Validated m _ _ _ => Z.max highest m
       | Rejected _ _ _ _ => highest
       end)
    entries 0.

(** [grouped]: an object whose keys are never integer-like (each holds
    two underscores), so [Object.values] lists the groups in the order
    their keys were first assigned: an association list.  The keys are
    taken for properties of the object's own: a key that names a property
    every object inherits ([__proto__] and the like, which all start with
    a low line or hold none, and at which the code throws) is outside
    the model.  The key of an entry whose platform is not empty and holds
    no low line is none of them. *)
Abbreviation Groups := (list (jsstring * list Checked)).

Definition groupKey (entry : Entry) : jsstring :=
  underscore (platform entry) (underscore (contest entry) (drawDate entry)).

(** [if (!grouped[key]) grouped[key] = []; grouped[key].push(x)]. *)
Fixpoint pushGroup (key : jsstring) (x : Checked) (grouped : Groups) : Groups :=
  match grouped with
  | [] => [(key, [x])]
  | (k, group) :: rest =>
      if streq k key then (k, group ++ [x]) :: rest
      else (k, group) :: pushGroup key x rest
  end.

Definition isEligible (e : Entry) : bool :=
  includes allowedValidStatuses
    (normalise (default [] (or_else (status e) (Some [])))).

(** The comparison function of the final sort.  A difference with an
    [undefined] operand is NaN, which [sort] takes as +0. *)
Definition compareWinners (a b : Winner) : Z :=
  if streq (contest (w_entry a)) (contest (w_entry b)) then
    match matches (w_validation b), matches (w_validation a) with
    | Some mb, Some ma => mb - ma
    | _, _ => 0
    end
  else if strlt (contest (w_entry b)) (contest (w_entry a)) then 1 else -1.

Definition groupEntries (this : ContestResults) (eligible : list Entry) : Groups :=
  fold_left
    (fun grouped entry =>
       pushGroup (groupKey entry)
         {| c_entry := entry; validation := validateEntry this entry |} grouped)
    eligible [].

Definition groupWinners (group : list Checked) : list Winner :=
  let winningLevel := getWinningLevel group in
  if winningLevel =? 0 then []
  else
    map (fun w => {| w_entry := c_entry w; w_validation := validation w;
                     winningLevel := winningLevel |})
      (List.filter (fun e => validated (validation e)
                        && bool_decide (matches (validation e) = Some winningLevel))
         group).

Definition getWinners (this : ContestResults) (entries : list Entry) : list Winner :=
  let eligible := List.filter isEligible entries in
  let grouped := groupEntries this eligible in
  let winners := flat_map groupWinners (map snd grouped) in
  sort compareWinners winners.

End Validator.

(** ** The calendar engine (page script) *)

Module Calendar.
Local Open Scope Z_scope.

(** *** Time values of the language

    A [Date] holds a time value, the milliseconds since the epoch; the
    functions below are the ones the language standard defines on time
    values. *)

Definition msPerSecond : Z := 1000.
Definition msPerMinute : Z := 60000.
Definition msPerHour : Z := 3600000.
Definition msPerDay : Z := 86400000.

Definition Day (t : Z) : Z := t / msPerDay.
Definition TimeWithinDay (t : Z) : Z := t mod msPerDay.

Definition DaysInYear (y : Z) : Z :=
  if negb (y mod 4 =? 0) then 365
  else if negb (y mod 100 =? 0) then 366
  else if negb (y mod 400 =? 0) then 365
  else 366.

Definition DayFromYear (y : Z) : Z :=
  365 * (y - 1970) + (y - 1969) / 4 - (y - 1901) / 100 + (y - 1601) / 400.

(** The largest year whose first day is not after day [d]: an estimate
    from the mean year length, corrected by at most one year. *)
Definition YearFromDay (d : Z) : Z :=
  let y := 1970 + (d * 400) / 146097 in
  if DayFromYear (y + 1) <=? d then y + 1
  else if d <? DayFromYear y then y - 1
  else y.

Definition YearFromTime (t : Z) : Z := YearFromDay (Day t).

Definition InLeapYear (t : Z) : Z :=
  if DaysInYear (YearFromTime t) =? 366 then 1 else 0.

Definition DayWithinYear (t : Z) : Z := Day t - DayFromYear (YearFromTime t).

(** Day within the year on which month [m] (0 to 11) starts. *)
Definition monthStart (leap m : Z) : Z :=
  if m <=? 0 then 0
  else if m =? 1 then 31
  else if m =? 2 then 59 + leap
  else if m =? 3 then 90 + leap
  else if m =? 4 then 120 + leap
  else if m =? 5 then 151 + leap
  else if m =? 6 then 181 + leap
  else if m =? 7 then 212 + leap
  else if m =? 8 then 243 + leap
  else if m =? 9 then 273 + leap
  else if m =? 10 then 304 + leap
  else 334 + leap.

Definition MonthFromTime (t : Z) : Z :=
  let d := DayWithinYear t in
  let leap := InLeapYear t in
  if d <? 31 then 0
  else if d <? 59 + leap then 1
  else if d <? 90 + leap then 2
  else if d <? 120 + leap then 3
  else if d <? 151 + leap then 4
  else if d <? 181 + leap then 5
  else if d <? 212 + leap then 6
  else if d <? 243 + leap then 7
  else if d <? 273 + leap then 8
  else if d <? 304 + leap then 9
  else if d <? 334 + leap then 10
  else 11.

Definition DateFromTime (t : Z) : Z :=
  DayWithinYear t - monthStart (InLeapYear t) (MonthFromTime t) + 1.

Definition WeekDay (t : Z) : Z := (Day t + 4) mod 7.

Definition HourFromTime (t : Z) : Z := (t / msPerHour) mod 24.
Definition MinFromTime (t : Z) : Z := (t / msPerMinute) mod 60.
Definition SecFromTime (t : Z) : Z := (t / msPerSecond) mod 60.
Definition msFromTime (t : Z) : Z := t mod msPerSecond.

Definition MakeTime (hour min sec ms : Z) : Z :=
  hour * msPerHour + min * msPerMinute + sec * msPerSecond + ms.

Definition MakeDay (year month date : Z) : Z :=
  let ym := year + month / 12 in
  let mn := month mod 12 in
  DayFromYear ym + monthStart (if DaysInYear ym =? 366 then 1 else 0) mn + date - 1.

Definition MakeDate (day time : Z) : Z := day * msPerDay + time.

(** *** The host

    Two things come from the environment the script runs in: the offset
    of the zone America/Sao_Paulo that [Intl.DateTimeFormat] applies to
    an instant, and the local time zone adjustment behind the local
    getters and setters of [Date] ([LocalTZA(t, isUTC)] of the
    standard).  Both are in milliseconds. *)
Record Host := {
  saoPauloOffset : Z -> Z;
  LocalTZA : Z -> bool -> Z
}.

Definition LocalTime (host : Host) (t : Z) : Z := t + LocalTZA host t true.
Definition UTC (host : Host) (t : Z) : Z := t - LocalTZA host t false.

Definition getDate (host : Host) (t : Z) : Z := DateFromTime (LocalTime host t).
Definition getSeconds (host : Host) (t : Z) : Z := SecFromTime (LocalTime host t).

Definition setDate (host : Host) (t date : Z) : Z :=
  let lt := LocalTime host t in
  UTC host (MakeDate (MakeDay (YearFromTime lt) (MonthFromTime lt) date)
              (TimeWithinDay lt)).

Definition setSeconds (host : Host) (t sec : Z) : Z :=
  let lt := LocalTime host t in
  UTC host (MakeDate (Day lt)
              (MakeTime (HourFromTime lt) (MinFromTime lt) sec (msFromTime lt))).

Definition getUTCDate (t : Z) : Z := DateFromTime t.

Definition setUTCDate (t date : Z) : Z :=
  MakeDate (MakeDay (YearFromTime t) (MonthFromTime t) date) (TimeWithinDay t).

(** [Date.UTC(year, month, day)]: a year from 0 to 99 stands for the
    year 1900 + year. *)
Definition DateUTC (year month day : Z) : Z :=
  let yr := if (0 <=? year) && (year <=? 99) then 1900 + year else year in
  MakeDate (MakeDay yr month day) 0.

(** *** Date texts

    The date part of a date text, as the script writes it:
    [`${year}-${MM}-${DD}`], the year as the number prints and the month
    and the day padded to two digits. *)
Record DateString := { ds_year : Z; ds_month : Z; ds_day : Z }.

(** Whether [new Date] reads the text made of such a date part, a [T]
    and a time of day.  The date part has to be of the form YYYY-MM-DD
    of the standard: a year of four digits, a month from 01 to 12 and a
    day from 01 to 31.  A text of another form is left to the
    implementation by the standard, and the engines read none of the
    texts of this shape: the date is Invalid Date. *)
Definition parses (s : DateString) : bool :=
  (1000 <=? ds_year s) && (ds_year s <=? 9999)
  && (1 <=? ds_month s) && (ds_month s <=? 12)
  && (1 <=? ds_day s) && (ds_day s <=? 31).

(** The time value of the text [`${s}THH:mm:ss-03:00`] when it parses.
    (For a day from 29 to 31 that the month does not have the engines
    differ: V8 counts on into the next month, as here.  The properties
    below are stated for days the month has.) *)
Definition timeValueBRT (s : DateString) (hour min sec : Z) : Z :=
  MakeDate (MakeDay (ds_year s) (ds_month s - 1) (ds_day s))
    (MakeTime hour min sec 0) + 3 * msPerHour.

(** The time value of the text [`${s}THH:mm:ssZ`] when it parses. *)
Definition timeValueUTC (s : DateString) (hour min sec : Z) : Z :=
  MakeDate (MakeDay (ds_year s) (ds_month s - 1) (ds_day s))
    (MakeTime hour min sec 0).

(** [new Date(`${s}THH:mm:ss-03:00`)]; [None] is Invalid Date. *)
Definition parseBRT (s : DateString) (hour min sec : Z) : option Z :=
  if parses s then Some (timeValueBRT s hour min sec) else None.

(** [new Date(`${s}THH:mm:ssZ`)]; [None] is Invalid Date. *)
Definition parseUTC (s : DateString) (hour min sec : Z) : option Z :=
  if parses s then Some (timeValueUTC s hour min sec) else None.

(** [t.toISOString().split('T')[0]].  [toISOString] pads the year to
    four digits and writes a year outside 0 to 9999 with a sign and six
    digits, so a text with this date part parses whatever the year; for
    the years 1000 to 9999 it is the text of [DateString]. *)
Definition isoDate (t : Z) : DateString :=
  {| ds_year := YearFromTime t;
     ds_month := MonthFromTime t + 1;
     ds_day := DateFromTime t |}.

(** *** The script *)

Definition CONCURSO_REFERENCE_number : Z := 6903.

(** [new Date('2025-12-15T00:00:00-03:00')]. *)
Definition CONCURSO_REFERENCE_date : Z :=
  timeValueBRT {| ds_year := 2025; ds_month := 12; ds_day := 15 |} 0 0 0.

Record Components := {
  year : Z; month : Z; day : Z; hour : Z; minute : Z; second : Z
}.

Definition getBrazilDateComponents (date : Z) : Components :=
  let utcTime := date in
  let brazilTime := utcTime - 3 * 60 * 60 * 1000 in
  let brDate := brazilTime in
  {| year := YearFromTime brDate;
     month := MonthFromTime brDate + 1;
     day := DateFromTime brDate;
     hour := HourFromTime brDate;
     minute := MinFromTime brDate;
     second := SecFromTime brDate |}.

Definition getBrazilDateString (date : Z) : DateString :=
  let c := getBrazilDateComponents date in
  {| ds_year := year c; ds_month := month c; ds_day := day c |}.

(** The script declares [getBrazilDayOfWeek] twice; the later
    declaration, through [Intl.DateTimeFormat] in the zone
    America/Sao_Paulo, is the one every call reaches. *)
Definition getBrazilDayOfWeek (host : Host) (date : Z) : Z :=
  WeekDay (date + saoPauloOffset host date).

(** The earlier declaration, which the later one replaces. *)
Definition getBrazilDayOfWeek_replaced (date : Z) : Z :=
  let c := getBrazilDateComponents date in
  WeekDay (DateUTC (year c) (month c - 1) (day c)).

Definition getBrazilMonth (host : Host) (date : Z) : Z :=
  (MonthFromTime (date + saoPauloOffset host date) + 1) - 1.

Definition getBrazilDayOfMonth (host : Host) (date : Z) : Z :=
  DateFromTime (date + saoPauloOffset host date).

Definition isNoDrawDay (host : Host) (date : Z) : bool :=
  let month := getBrazilMonth host date in
  let day := getBrazilDayOfMonth host date in
  let isChristmas := (month =? 11) && (day =? 25) in
  let isNewYear := (month =? 0) && (day =? 1) in
  isChristmas || isNewYear.

Definition isEarlyDrawDay (host : Host) (date : Z) : bool :=
  let month := getBrazilMonth host date in
  let day := getBrazilDayOfMonth host date in
  (month =? 11) && ((day =? 24) || (day =? 31)).

Definition getDrawTimeHour (host : Host) (date : Z) : Z :=
  if isEarlyDrawDay host date then 17 else 20.

Definition isValidDrawDay (host : Host) (date : Z) : bool :=
  let isSunday := getBrazilDayOfWeek host date =? 0 in
  negb isSunday && negb (isNoDrawDay host date).

(** An argument that is either a string or a [Date]. *)
Inductive DateInput :=
| StringInput (s : DateString)
| DateObject (t : Z).

(** The schedule of a draw; [regStart] is [None] when it is Invalid
    Date. *)
Record DrawSchedule := {
  drawDate : Z;
  drawHour : Z;
  cutoff : Z;
  regStart : option Z
}.

(** [buildScheduleForDate]; [None] is the RangeError that
    [getDrawTimeHour] throws when [drawDate] is Invalid Date
    ([Intl.DateTimeFormat] formats no Invalid Date).  The text of [cutoff]
    holds the date part of [drawDate], so it parses when that one does. *)
Definition buildScheduleForDate (host : Host) (dateInput : DateInput)
  : option DrawSchedule :=
  let dateStr :=
    match dateInput with
    | StringInput s => s
    | DateObject t => getBrazilDateString t
    end in
  match parseBRT dateStr 0 0 0 with
  | None => None
  | Some drawDate =>
      let drawHour := getDrawTimeHour host drawDate in
      match parseBRT dateStr drawHour 0 0 with
      | None => None
      | Some cutoff =>
          let cutoff := setSeconds host cutoff (getSeconds host cutoff - 1) in
          let regStartDate := drawDate in
          let regStartDate :=
            setDate host regStartDate (getDate host regStartDate - 1) in
          let regStartStr := getBrazilDateString regStartDate in
          let regStart := parseBRT regStartStr 20 0 1 in
          Some {| drawDate := drawDate; drawHour := drawHour;
                  cutoff := cutoff; regStart := regStart |}
      end
  end.

(** What [getCurrentDrawSchedule] returns: the schedule and [now]. *)
Record CurrentSchedule := { schedule : DrawSchedule; now : Z }.

(** The [for] loop of [getCurrentDrawSchedule]; [n] is the number of
    iterations left.  [None] is an exception: the RangeError of
    [isValidDrawDay] on an Invalid Date, or the [throw] after the loop. *)
Fixpoint scanNext (host : Host) (n : nat) (probe spNow : Z) : option CurrentSchedule :=
  match n with
  | O => None
  | S n' =>
      let probe := setDate host probe (getDate host probe + 1) in
      let probeStr := getBrazilDateString probe in
      match parseBRT probeStr 0 0 0 with
      | None => None
      | Some probeDate =>
          if isValidDrawDay host probeDate then
            match buildScheduleForDate host (StringInput probeStr) with
            | None => None
            | Some nextSchedule =>
                Some {| schedule := nextSchedule; now := spNow |}
            end
          else scanNext host n' probe spNow
      end
  end.

(** [getCurrentDrawSchedule]; [spNow] is what [getBrazilTime()] reads
    from the clock, and [None] is an exception. *)
Definition getCurrentDrawSchedule (host : Host) (spNow : Z) : option CurrentSchedule :=
  let todayStr := getBrazilDateString spNow in
  match parseBRT todayStr 0 0 0 with
  | None => None
  | Some today =>
      let todayValid := isValidDrawDay host today in
      let next := scanNext host 14 today spNow in
      if todayValid then
        match buildScheduleForDate host (StringInput todayStr) with
        | None => None
        | Some schedule =>
            if spNow <=? cutoff schedule
            then Some {| schedule := schedule; now := spNow |}
            else next
        end
      else next
  end.

(** The [while] loop of [calculateConcurso].  [fuel] bounds the number
    of iterations; [None] is running out of it.  The text of the cursor
    is the one [toISOString] writes, which always parses. *)
Fixpoint walk (host : Host) (fuel : nat) (step targetDate cursor daysDiff : Z)
  : option Z :=
  if (step =? 1) && (cursor <? targetDate)
     || (step =? -1) && (targetDate <? cursor)
  then
    match fuel with
    | O => None
    | S fuel' =>
        let cursor := setUTCDate cursor (getUTCDate cursor + step) in
        let cursorStr := isoDate cursor in
        let cursorBrazil := timeValueBRT cursorStr 12 0 0 in
        let daysDiff := if isValidDrawDay host cursorBrazil then daysDiff + 1 else daysDiff in
        walk host fuel' step targetDate cursor daysDiff
    end
  else Some daysDiff.

(** [calculateConcurso].  The loop moves the cursor one day at a time
    from the reference towards the target, so the number of days between
    them is fuel enough.  With an Invalid Date every comparison is false:
    [step] is -1, the loop is not entered, and the reference number comes
    back. *)
Definition calculateConcurso (host : Host) (drawDate : DateInput) : option Z :=
  let refDateStr := getBrazilDateString CONCURSO_REFERENCE_date in
  let targetDateStr :=
    match drawDate with
    | StringInput s => s
    | DateObject t => getBrazilDateString t
    end in
  match parseUTC refDateStr 12 0 0, parseUTC targetDateStr 12 0 0 with
  | Some refDate, Some targetDate =>
      let step := if refDate <=? targetDate then 1 else -1 in
      match walk host (Z.abs_nat (Day targetDate - Day refDate)) step
              targetDate refDate 0 with
      | Some daysDiff => Some (CONCURSO_REFERENCE_number + daysDiff * step)
      | None => None
      end
  | _, _ => Some (CONCURSO_REFERENCE_number + 0 * -1)
  end.

End Calendar.

(** ** More of the page script: the callers of the calendar engine *)

Module CalendarMore.
Import Calendar.
Local Open Scope Z_scope.

Definition getMonth (host : Host) (t : Z) : Z := MonthFromTime (LocalTime host t).
Definition getFullYear (host : Host) (t : Z) : Z := YearFromTime (LocalTime host t).

Definition setHours (host : Host) (t hour min sec ms : Z) : Z :=
  let lt := LocalTime host t in
  UTC host (MakeDate (Day lt) (MakeTime hour min sec ms)).

(** The [for] loop of [getNextValidDrawDate]: [n] iterations are left,
    [i] is the loop counter, and [None] is reaching the [throw]. *)
Fixpoint probeLoop (host : Host) (n : nat) (i probe : Z) : option Z :=
  match n with
  | O => None
  | S n' =>
      let probe :=
        if 0 <? i then setDate host probe (getDate host probe + 1) else probe in
      if isValidDrawDay host probe then Some probe
      else probeLoop host n' (i + 1) probe
  end.

Definition getNextValidDrawDate (host : Host) (fromDate : Z) : option Z :=
  let probe := fromDate in
  let probe := setHours host probe 0 0 0 0 in
  probeLoop host 14 0 probe.

(** [getDrawDate], [getDrawHour] and [getCutoffPeriod]; [spNow] is the
    clock reading of the call, [None] the exception of
    [getCurrentDrawSchedule]. *)
Definition getDrawDate (host : Host) (spNow : Z) : option Z :=
  match getCurrentDrawSchedule host spNow with
  | Some current => Some (drawDate (schedule current))
  | None => None
  end.

Definition getDrawHour (host : Host) (spNow : Z) : option Z :=
  match getCurrentDrawSchedule host spNow with
  | Some current => Some (drawHour (schedule current))
  | None => None
  end.

Definition getCutoffPeriod (host : Host) (spNow : Z) : option DateString :=
  match getDrawDate host spNow with
  | Some drawDate => Some (isoDate drawDate)
  | None => None
  end.

(** What [confirmEntry] stamps on the ticket it sends: the draw date
    text and the concurso. *)
Record Stamp := { st_drawDate : DateString; st_concurso : Z }.

Definition entryStamp (host : Host) (spNow : Z) : option Stamp :=
  match getDrawDate host spNow with
  | None => None
  | Some drawDate =>
      let drawDateStr := getBrazilDateString drawDate in
      match calculateConcurso host (DateObject drawDate) with
      | Some concurso =>
          Some {| st_drawDate := drawDateStr; st_concurso := concurso |}
      | None => None
      end
  end.

(** [updateCountdown] up to its test [diff < 0]: [spTime] is the clock
    reading of its first line, [spNow] the later one inside
    [getCurrentDrawSchedule].  The outer [None] is the exception of
    [getCurrentDrawSchedule]; the difference is [None] when it is NaN, its
    target time being Invalid Date. *)
Definition countdownDiff (host : Host) (spTime spNow : Z) : option (option Z) :=
  match getCurrentDrawSchedule host spNow with
  | None => None
  | Some current =>
      let schedule := schedule current in
      let drawDateStr := getBrazilDateString (drawDate schedule) in
      let targetTime := parseBRT drawDateStr (drawHour schedule) 0 0 in
      Some (match targetTime with
            | Some targetTime => Some (targetTime - spTime)
            | None => None
            end)
  end.

(** The three numbers [updateCountdown] prints; [%] is the remainder
    that takes the sign of the dividend. *)
Definition countdownHours (diff : Z) : Z := diff / (1000 * 60 * 60).
Definition countdownMinutes (diff : Z) : Z :=
  Z.rem diff (1000 * 60 * 60) / (1000 * 60).
Definition countdownSeconds (diff : Z) : Z := Z.rem diff (1000 * 60) / 1000.

(** The day, month and year [updateDrawDateDisplay] prints, read from
    the draw date in the local zone. *)
Definition displayedDate (host : Host) (spNow : Z) : option (Z * Z * Z) :=
  match getDrawDate host spNow with
  | Some drawDate =>
      Some (getDate host drawDate, getMonth host drawDate + 1,
            getFullYear host drawDate)
  | None => None
  end.

End CalendarMore.

(** ** More of the admin validator: the views of the winners *)

Module ValidatorMore.
Import JS Validator.
Local Open Scope Z_scope.

Definition getWinnersByContest (this : ContestResults) (entries : list Entry)
    (contestId : jsstring) : list Winner :=
  let contestEntries := List.filter (fun e => streq (contest e) contestId) entries in
  getWinners this contestEntries.

(** [w.validation.matches === n]. *)
Definition matchesIs (n : Z) (w : Winner) : bool :=
  bool_decide (matches (w_validation w) = Some n).

Record WinnersReport := {
  grandPrize : list Winner;
  secondPrize : list Winner;
  thirdPrize : list Winner;
  consolation : list Winner;
  totalWinners : Z
}.

Definition getWinnersReport (this : ContestResults) (entries : list Entry)
  : WinnersReport :=
  let winners := getWinners this entries in
  {| grandPrize := List.filter (matchesIs 5) winners;
     secondPrize := List.filter (matchesIs 4) winners;
     thirdPrize := List.filter (matchesIs 3) winners;
     consolation := List.filter (matchesIs 2) winners;
     totalWinners := Z.of_nat (length winners) |}.

End ValidatorMore.

(** ** The number grid of the page (page script) *)

Module Page.
Import JS.
Local Open Scope Z_scope.

(** What the click handlers of the grid read and write: the array
    [selectedNumbers], the balls of the grid that carry the class
    [selected], and [submitBtn.disabled].  The toasts and the display of
    the selected numbers are written only, and left out. *)
Record Selection := {
  selectedNumbers : list Z;
  selectedBalls : gset Z;
  submitDisabled : bool
}.

(** The page as its initialisation leaves it: no number, the grid just
    generated, and [updateSubmitButton] called once. *)
Definition initial : Selection :=
  {| selectedNumbers := []; selectedBalls := ∅; submitDisabled := true |}.

(** [Array.prototype.indexOf]. *)
Fixpoint indexOfFrom (i : Z) (l : list Z) (num : Z) : Z :=
  match l with
  | [] => -1
  | x :: l' => if x =? num then i else indexOfFrom (i + 1) l' num
  end.

Definition indexOf (l : list Z) (num : Z) : Z := indexOfFrom 0 l num.

Definition updateSubmitButton (s : Selection) : Selection :=
  let n := Z.of_nat (length (selectedNumbers s)) in
  {| selectedNumbers := selectedNumbers s;
     selectedBalls := selectedBalls s;
     submitDisabled := if (5 <=? n) && (n <=? 20) then false else true |}.

(** The comparison function [(a, b) => a - b]. *)
Definition ascending (a b : Z) : Z := a - b.

Definition sortSelected (s : Selection) : Selection :=
  {| selectedNumbers := sort ascending (selectedNumbers s);
     selectedBalls := selectedBalls s;
     submitDisabled := submitDisabled s |}.

(** [selectedNumbers.push(num)] and [ball.classList.add('selected')] for
    the ball of [num]. *)
Definition select (s : Selection) (num : Z) : Selection :=
  {| selectedNumbers := selectedNumbers s ++ [num];
     selectedBalls := selectedBalls s ∪ {[num]};
     submitDisabled := submitDisabled s |}.

(** [toggleNumber], the click handler of the ball [num] of the grid, 1
    to 80. *)
Definition toggleNumber (num : Z) (s : Selection) : Selection :=
  let maxNumbers := 5 in
  let index := indexOf (selectedNumbers s) num in
  let s :=
    if -1 <? index then
      {| selectedNumbers := delete (Z.to_nat index) (selectedNumbers s);
         selectedBalls := selectedBalls s ∖ {[num]};
         submitDisabled := submitDisabled s |}
    else if Z.of_nat (length (selectedNumbers s)) <? maxNumbers then
      select s num
    else s in
  updateSubmitButton (sortSelected s).

Definition clearNumbers (s : Selection) : Selection :=
  updateSubmitButton
    {| selectedNumbers := []; selectedBalls := ∅;
       submitDisabled := submitDisabled s |}.

(** [[numbers[i], numbers[j]] = [numbers[j], numbers[i]]] for indices
    inside the array; [None] outside it, where the assignment would
    store [undefined]. *)
Definition swap (i j : Z) (numbers : list Z) : option (list Z) :=
  if (0 <=? i) && (0 <=? j) then
    match numbers !! Z.to_nat i, numbers !! Z.to_nat j with
    | Some xi, Some xj =>
        Some (<[Z.to_nat j := xi]> (<[Z.to_nat i := xj]> numbers))
    | _, _ => None
    end
  else None.

(** The Fisher-Yates loop, [n] turns from [i = n] down to [i = 1];
    [rand i] is [Math.floor(Math.random() * (i + 1))] of the turn [i]. *)
Fixpoint shuffle (rand : Z -> Z) (n : nat) (numbers : list Z) : option (list Z) :=
  match n with
  | O => Some numbers
  | S n' =>
      let i := Z.of_nat n in
      let j := rand i in
      match swap i j numbers with
      | Some numbers => shuffle rand n' numbers
      | None => None
      end
  end.

Definition surpresinha (rand : Z -> Z) (s : Selection) : option Selection :=
  let s := clearNumbers s in
  let quantity := 5 in
  let numbers := seqZ 1 80 in
  match shuffle rand (length numbers - 1) numbers with
  | None => None
  | Some numbers =>
      let selectedRandom := sort ascending (take (Z.to_nat quantity) numbers) in
      let s := fold_left select selectedRandom s in
      Some (updateSubmitButton (sortSelected s))
  end.

(** The test of [showUserInfoPopup] and of [confirmEntry] that lets the
    entry through: not [length < 5 || length > 20]. *)
Definition numbersAccepted (s : Selection) : bool :=
  let n := Z.of_nat (length (selectedNumbers s)) in
  negb ((n <? 5) || (20 <? n)).

(** *** Reading the sheets *)

(** The state of the loop of [parseCSVLine]. *)
Record Parsing := {
  values : list jsstring;
  current : jsstring;
  inQuotes : bool
}.

Definition quotationMark : N := 34.

Definition parseChar (delimiter : jsstring) (st : Parsing) (ch : N) : Parsing :=
  if (ch =? quotationMark)%N then
    {| values := values st; current := current st; inQuotes := negb (inQuotes st) |}
  else if streq [ch] delimiter && negb (inQuotes st) then
    {| values := values st ++ [trim (current st)]; current := [];
       inQuotes := inQuotes st |}
  else
    {| values := values st; current := current st ++ [ch];
       inQuotes := inQuotes st |}.

Definition parseCSVLine (line delimiter : jsstring) : list jsstring :=
  let st :=
    fold_left (parseChar delimiter) line
      {| values := []; current := []; inQuotes := false |} in
  values st ++ [trim (current st)].

(** [(headerLine.match(/c/g) || []).length]. *)
Definition occurrences (c : N) (headerLine : jsstring) : Z :=
  Z.of_nat (length (List.filter (N.eqb c) headerLine)).

Definition comma : N := 44.
Definition semicolon : N := 59.
Definition tab : N := 9.
Definition verticalLine : N := 124.

(** [detectDelimiter].  The keys of [counts] are not integer-like, so
    [Object.entries] lists them in the order of the literal. *)
Definition detectDelimiter (headerLine : jsstring) : jsstring :=
  let counts :=
    [([comma], occurrences comma headerLine);
     ([semicolon], occurrences semicolon headerLine);
     ([tab], occurrences tab headerLine);
     ([verticalLine], occurrences verticalLine headerLine)] in
  match sort (fun a b : jsstring * Z => snd b - snd a) counts with
  | (key, _) :: _ => if truthy (Some key) then key else [comma]
  | [] => [comma]
  end.

(** *** The status shown for a ticket *)

Definition normalizeTicketStatus (status : option jsstring) : jsstring :=
  let up := toUpperCase (default [] (or_else status (Some []))) in
  if streq up (js "VALID") || streq up (js "VALIDADO") then js "valid"
  else if streq up (js "INVALID") || streq up (Validator.INVALIDO) then js "invalid"
  else js "pending".

(** *** The retry helper *)

(** How a call of [fn] settles: it returns a value, or it throws,
    with the [message] of what it throws when that has one. *)
Inductive Settled (A : Type) :=
| Fulfilled (value : A)
| Failed (message : option jsstring).
Arguments Fulfilled {A}.
Arguments Failed {A}.

Fixpoint startsWith (s search : jsstring) : bool :=
  match search, s with
  | [], _ => true
  | _ :: _, [] => false
  | p :: search', c :: s' => (c =? p)%N && startsWith s' search'
  end.

(** [String.prototype.includes]. *)
Fixpoint stringIncludes (s search : jsstring) : bool :=
  startsWith s search
  || match s with
     | [] => false
     | _ :: s' => stringIncludes s' search
     end.

Definition shouldRetry (message : option jsstring) : bool :=
  match message with
  | None => false
  | Some message =>
      stringIncludes message (js "Too Many Requests")
      || stringIncludes message (js "429")
      || stringIncludes message (js "503")
      || stringIncludes message (js "timeout")
      || stringIncludes message (js "Network")
      || stringIncludes message (js "Failed to fetch")
  end.

(** The loop of [retryWithBackoff] from turn [i], with [turns] turns
    left; [fn i] is how the call of turn [i] settles.  The result comes
    with the number of calls made.  The waits between the turns are left
    out. *)
Fixpoint retryFrom {A : Type} (fn : Z -> Settled A) (maxRetries : Z)
    (turns : nat) (i : Z) : Settled (option A) * Z :=
  match turns with
  | O => (Fulfilled None, i)
  | S turns' =>
      match fn i with
      | Fulfilled value => (Fulfilled (Some value), i + 1)
      | Failed message =>
          if i =? maxRetries - 1 then (Failed message, i + 1)
          else if negb (shouldRetry message) then (Failed message, i + 1)
          else retryFrom fn maxRetries turns' (i + 1)
      end
  end.

(** [retryWithBackoff]; a result [Fulfilled None] is the [undefined]
    the function returns when the loop ends. *)
Definition retryWithBackoff {A : Type} (fn : Z -> Settled A) (maxRetries : Z)
  : Settled (option A) * Z :=
  retryFrom fn maxRetries (Z.to_nat maxRetries) 0.

End Page.

(** ** The processed-data cache and the retry helper *)

Module DataFetcher.
Import JS.
Local Open Scope Z_scope.

(** An element of the arrays the functions below are given, entries
    or results, with the properties they read; a property that is absent
    is [None]. *)
Record Row := {
  ticketNumber : option jsstring;
  contest : option jsstring;
  gameId : option jsstring;
  whatsapp : option jsstring
}.

(** The decimal digits of a number, most significant first; [fuel]
    bounds the number of digits. *)
Fixpoint digits (fuel : nat) (n : N) (acc : jsstring) : jsstring :=
  match fuel with
  | O => acc
  | S fuel' =>
      let acc := (48 + n mod 10)%N :: acc in
      if (n <? 10)%N then acc else digits fuel' (n / 10)%N acc
  end.

(** [`${n}`] for a length. *)
Definition numberToString (n : nat) : jsstring :=
  digits (S n) (N.of_nat n) [].

(** [data[i]?.ticketNumber || data[i]?.contest || '']. *)
Definition rowKey (row : option Row) : jsstring :=
  default []
    (or_else (or_else (row ≫= ticketNumber) (row ≫= contest)) (Some [])).

Definition simpleHash (data : option (list Row)) : jsstring :=
  match data with
  | None => []
  | Some data =>
      numberToString (length data) ++ js "-" ++ rowKey (data !! 0%nat)
      ++ js "-" ++ rowKey (data !! (length data - 1)%nat)
  end.

(** The part of [cache] behind the cached validation: [entries.data]
    and [validation]; [None] is [null]. *)
Record Cache (V : Type) := {
  entriesData : option (list Row);
  validationData : option V;
  validationHash : option jsstring
}.
Arguments entriesData {V}.
Arguments validationData {V}.
Arguments validationHash {V}.

(** [cache.entries = { data: entries, timestamp: now }], the end of
    [fetchEntries]. *)
Definition storeEntries {V : Type} (entries : list Row) (cache : Cache V) : Cache V :=
  {| entriesData := Some entries;
     validationData := validationData cache;
     validationHash := validationHash cache |}.

Definition setCachedValidation {V : Type} (data : V) (cache : Cache V) : Cache V :=
  {| entriesData := entriesData cache;
     validationData := Some data;
     validationHash := Some (simpleHash (entriesData cache)) |}.

(** [getCachedValidation]; [isTruthy] is [ToBoolean] on the values
    that are stored as validation results.  The array of entries, when
    there is one, is an object and is truthy. *)
Definition getCachedValidation {V : Type} (isTruthy : V -> bool) (cache : Cache V)
  : option V :=
  match entriesData cache, validationData cache with
  | Some _, Some data =>
      if negb (isTruthy data) then None
      else
        let currentHash := simpleHash (entriesData cache) in
        if bool_decide (validationHash cache = Some currentHash) then Some data
        else None
  | _, _ => None
  end.

(** *** getTopEntrants *)

(** An element of the array [getTopEntrants] returns. *)
Record Entrant := {
  t_gameId : jsstring;
  t_whatsapp : option jsstring;
  t_count : Z;
  t_entries : list Row
}.

(** The names every object inherits from [Object.prototype]: read
    through [counts[name]] they give a value that is truthy and is not an
    object of [counts]. *)
Definition inheritedNames : list jsstring :=
  [js "constructor"; js "__defineGetter__"; js "__defineSetter__";
   js "hasOwnProperty"; js "__lookupGetter__"; js "__lookupSetter__";
   js "isPrototypeOf"; js "propertyIsEnumerable"; js "toString";
   js "valueOf"; js "__proto__"; js "toLocaleString"].

(** [counts]: the own properties of the object in the order they were
    created. *)
Abbreviation Counts := (list (jsstring * Entrant)).

(** The body of the loop for an entry with a game id of its own:
    [if (!counts[id]) counts[id] = {...}; counts[id].count++;
    counts[id].entries.push(entry)]. *)
Fixpoint bump (id : jsstring) (entry : Row) (counts : Counts) : Counts :=
  match counts with
  | [] =>
      [(id, {| t_gameId := id; t_whatsapp := whatsapp entry;
               t_count := 0 + 1; t_entries := [] ++ [entry] |})]
  | (key, t) :: rest =>
      if streq key id then
        (key, {| t_gameId := t_gameId t; t_whatsapp := t_whatsapp t;
                 t_count := t_count t + 1;
                 t_entries := t_entries t ++ [entry] |}) :: rest
      else (key, t) :: bump id entry rest
  end.

(** One turn of the [forEach]; [None] is the TypeError of
    [counts[id].entries.push] when [id] is an inherited name. *)
Definition countEntry (counts : option Counts) (entry : Row) : option Counts :=
  match counts with
  | None => None
  | Some counts =>
      if negb (truthy (gameId entry)) then Some counts
      else
        let id := default [] (gameId entry) in
        if includes inheritedNames id then None
        else Some (bump id entry counts)
  end.

Definition isDigitUnit (c : N) : bool := ((48 <=? c) && (c <=? 57))%N.

Definition numericValue (s : jsstring) : N :=
  fold_left (fun v c => (10 * v + (c - 48))%N) s 0%N.

(** An array index: the canonical decimal text of an integer from 0 to
    2^32 - 2. *)
Definition isArrayIndex (s : jsstring) : bool :=
  match s with
  | [] => false
  | c :: rest =>
      forallb isDigitUnit s
      && (negb (c =? 48)%N || match rest with [] => true | _ :: _ => false end)
      && (numericValue s <=? 4294967294)%N
  end.

(** [Object.values]: the properties whose keys are array indices come
    first, in ascending order of the index, and the others follow in the
    order they were created. *)
Definition objectValues {A : Type} (object : list (jsstring * A)) : list A :=
  map snd
    (sort (fun a b => Z.of_N (numericValue (fst a)) - Z.of_N (numericValue (fst b)))
       (List.filter (fun p => isArrayIndex (fst p)) object)
     ++ List.filter (fun p => negb (isArrayIndex (fst p))) object).

(** [array.slice(0, limit)]. *)
Definition sliceFromStart {A : Type} (limit : Z) (array : list A) : list A :=
  if 0 <=? limit then take (Z.to_nat limit) array
  else take (Z.to_nat (Z.of_nat (length array) + limit)) array.

Definition getTopEntrants (entries : list Row) (limit : Z) : option (list Entrant) :=
  match fold_left countEntry entries (Some []) with
  | None => None
  | Some counts =>
      Some (sliceFromStart limit
              (sort (fun a b => t_count b - t_count a) (objectValues counts)))
  end.

End DataFetcher.

(** ** Properties of the validator *)

Module ValidatorSpec.
Import JS Validator.
Local Open Scope Z_scope.

(** *** matchNumbers *)

(** The matched subset in the specification's words: the elements of
    [chosen] that are present in [winning], in the order of [chosen]. *)
Definition matchedSubset (chosen winning : list Z) : list Z :=
  filter (fun n => n ∈ winning) chosen.

Lemma includesNum_elem_of (winning : list Z) (n : Z) :
  includesNum winning n = true <-> n ∈ winning.
Proof.
  unfold includesNum. rewrite existsb_exists. split.
  - intros (x & Hx & Heq). apply Z.eqb_eq in Heq. subst.
    by apply list_elem_of_In.
  - intros H. exists n. split; [by apply list_elem_of_In | apply Z.eqb_refl].
Qed.

Lemma matchedSubset_cons (n : Z) (chosen winning : list Z) :
  matchedSubset (n :: chosen) winning =
  if includesNum winning n then n :: matchedSubset chosen winning
  else matchedSubset chosen winning.
Proof.
  unfold matchedSubset. rewrite filter_cons.
  destruct (includesNum winning n) eqn:E.
  - apply includesNum_elem_of in E. by rewrite decide_True.
  - rewrite decide_False; [done |].
    intros H. apply includesNum_elem_of in H. congruence.
Qed.

(** The loop of [matchNumbers] from any state of its two variables. *)
Lemma matchNumbers_loop (winning chosen : list Z) (acc : MatchResult) :
  fold_left
    (fun acc num =>
       if includesNum winning num
       then {| count := count acc + 1;
               matchedNumbers := matchedNumbers acc ++ [num] |}
       else acc)
    chosen acc =
  {| count := count acc + Z.of_nat (length (matchedSubset chosen winning));
     matchedNumbers := matchedNumbers acc ++ matchedSubset chosen winning |}.
Proof.
  revert acc. induction chosen as [| n chosen IH]; intros acc.
  - cbn. destruct acc as [c m]. cbn. f_equal; [lia | by rewrite app_nil_r].
  - cbn [fold_left]. rewrite IH, matchedSubset_cons.
    destruct (includesNum winning n); cbn [count matchedNumbers length].
    + f_equal; [lia | by rewrite <- app_assoc].
    + done.
Qed.

Lemma matchNumbers_eq (chosen winning : list Z) :
  matchNumbers chosen winning =
  {| count := Z.of_nat (length (matchedSubset chosen winning));
     matchedNumbers := matchedSubset chosen winning |}.
Proof. unfold matchNumbers. by rewrite matchNumbers_loop. Qed.

(** C9.  For every pair of lists, [matchNumbers] returns the number of
    elements of [chosen] that are present in [winning] together with
    those elements in the order of [chosen]; on [10,20,30,40,50] against
    [10,20,99,98,97] it returns count 2 and matched numbers [10,20]. *)
Theorem matchNumbers_counts_present :
  (forall chosen winning : list Z,
      matchNumbers chosen winning =
      {| count := Z.of_nat (length (matchedSubset chosen winning));
         matchedNumbers := matchedSubset chosen winning |}
      /\ matchedNumbers (matchNumbers chosen winning) `sublist_of` chosen
      /\ (forall n, n ∈ matchedNumbers (matchNumbers chosen winning)
                    <-> n ∈ chosen /\ n ∈ winning))
  /\ matchNumbers [10; 20; 30; 40; 50] [10; 20; 99; 98; 97] =
     {| count := 2; matchedNumbers := [10; 20] |}.
Proof.
  split; [| reflexivity].
  intros chosen winning. rewrite matchNumbers_eq. cbn [matchedNumbers].
  split; [done |]. split.
  - apply sublist_filter.
  - intros n. unfold matchedSubset. rewrite list_elem_of_filter. tauto.
Qed.

(** *** validateEntry *)

(** The normalised validity and status that [validateEntry] computes. *)
Definition validityNorm (e : Entry) : jsstring :=
  normalise (default [] (validity e)).

Definition statusNorm (e : Entry) : jsstring :=
  normalise (default [] (or_else (or_else (status e) (csvStatus e)) (Some []))).

(** The last part of [validateEntry]: the lookup of the winning numbers
    and the match. *)
Definition winnerCheck (this : ContestResults) (e : Entry) : ValidationOutcome :=
  match getContestResult this (contest e) (drawDate e) with
  | None => Rejected (js "No winning numbers set for this contest") None None None
  | Some result =>
      Validated (count (matchNumbers (chosenNumbers e) (r_winningNumbers result)))
        (matchedNumbers (matchNumbers (chosenNumbers e) (r_winningNumbers result)))
        (getPrizeTier (count (matchNumbers (chosenNumbers e) (r_winningNumbers result))))
        (r_winningNumbers result)
  end.

(** The part of [validateEntry] from the status check on. *)
Definition statusPath (this : ContestResults) (e : Entry) : ValidationOutcome :=
  if streq (statusNorm e) (js "INVALID") || streq (statusNorm e) INVALIDO then
    Rejected
      (if truthy (invalidReasonCode e)
       then js "Ticket rejected: " ++ default [] (invalidReasonCode e)
       else js "Ticket status is INVALID. Winner check is not allowed.")
      (Some STATUS_INVALID) None (Some (statusNorm e))
  else if includes blockedPendingStatuses (statusNorm e)
          || (truthy (Some (statusNorm e))
              && negb (includes allowedValidStatuses (statusNorm e))) then
    Rejected (js "Ticket is not validated. Winner check is not allowed.")
      (Some STATUS_NOT_VALIDATED) None (Some (statusNorm e))
  else winnerCheck this e.

Lemma streq_true (a b : jsstring) : streq a b = true <-> a = b.
Proof. unfold streq. apply bool_decide_eq_true. Qed.

Lemma streq_false (a b : jsstring) : streq a b = false <-> a <> b.
Proof. unfold streq. apply bool_decide_eq_false. Qed.

Lemma includes_elem_of (l : list jsstring) (s : jsstring) :
  includes l s = true <-> s ∈ l.
Proof.
  unfold includes. rewrite existsb_exists. split.
  - intros (x & Hx & Heq). apply streq_true in Heq. subst.
    by apply list_elem_of_In.
  - intros H. exists s. split; [by apply list_elem_of_In | by apply streq_true].
Qed.

Lemma includes_false (l : list jsstring) (s : jsstring) :
  includes l s = false <-> s ∉ l.
Proof.
  rewrite <- includes_elem_of. destruct (includes l s); split; congruence.
Qed.

(** Without a truthy [validity] the function is its status path. *)
Lemma validateEntry_no_validity (this : ContestResults) (e : Entry) :
  truthy (validity e) = false -> validateEntry this e = statusPath this e.
Proof. intros H. unfold validateEntry, statusPath, winnerCheck, statusNorm. by rewrite H. Qed.

(** A validity that reads VALID does not end the function: the status
    path runs next. *)
Lemma validateEntry_validity_valid (this : ContestResults) (e : Entry) :
  truthy (validity e) = true -> validityNorm e = js "VALID" ->
  validateEntry this e = statusPath this e.
Proof.
  intros H Hv. unfold validateEntry, statusPath, winnerCheck, statusNorm.
  unfold validityNorm in Hv. rewrite H, Hv. reflexivity.
Qed.

Lemma validateEntry_recharge_invalid (this : ContestResults) (e : Entry) :
  truthy (validity e) = true -> validityNorm e = js "INVALID" ->
  validateEntry this e =
  Rejected
    (if truthy (invalidReasonCode e)
     then js "Recharge validation failed: " ++ default [] (invalidReasonCode e)
     else js "Ticket failed recharge validation. Winner check not allowed.")
    (Some RECHARGE_INVALID) (Some (js "INVALID")) None.
Proof.
  intros H Hv. unfold validateEntry. unfold validityNorm in Hv.
  rewrite H, Hv. reflexivity.
Qed.

Lemma validateEntry_validity_unknown (this : ContestResults) (e : Entry) :
  truthy (validity e) = true ->
  validityNorm e <> js "INVALID" -> validityNorm e <> js "VALID" ->
  validateEntry this e =
  Rejected (js "Ticket validity unknown. Winner check not allowed.")
    (Some VALIDITY_UNKNOWN) (Some (validityNorm e)) None.
Proof.
  intros H Hi Hv. unfold validateEntry. fold (validityNorm e).
  apply streq_false in Hi, Hv. rewrite H, Hi, Hv. reflexivity.
Qed.

(** Whenever the outcome is validated it is the one of the winner check
    on the stored result. *)
Lemma validateEntry_validated (this : ContestResults) (e : Entry) :
  validated (validateEntry this e) = true ->
  validateEntry this e = winnerCheck this e.
Proof.
  intros Hval.
  assert (Hsp : validateEntry this e = statusPath this e).
  { destruct (truthy (validity e)) eqn:Ht.
    - destruct (decide (validityNorm e = js "INVALID")) as [Hi | Hi].
      { rewrite validateEntry_recharge_invalid in Hval by done. discriminate. }
      destruct (decide (validityNorm e = js "VALID")) as [Hv | Hv].
      { by apply validateEntry_validity_valid. }
      rewrite validateEntry_validity_unknown in Hval by done. discriminate.
    - by apply validateEntry_no_validity. }
  rewrite Hsp in Hval |- *. unfold statusPath in *.
  destruct (streq (statusNorm e) (js "INVALID") || streq (statusNorm e) INVALIDO);
    [discriminate |].
  destruct (includes blockedPendingStatuses (statusNorm e)
            || truthy (Some (statusNorm e))
               && negb (includes allowedValidStatuses (statusNorm e)));
    [discriminate | reflexivity].
Qed.

(** The entry of the example of C10 and a validator that holds the
    result of its contest. *)
Definition sevens : Entry :=
  {| platform := js "POPN1"; gameId := js "1234567890"; contest := js "6903";
     drawDate := js "15/12/2025"; chosenNumbers := [7; 7; 7; 7; 7];
     status := Some (js "VALID"); csvStatus := None;
     validity := None; invalidReasonCode := None |}.

Definition result6903 : ResultInput :=
  {| in_contest := js "6903"; in_drawDate := js "15/12/2025";
     in_winningNumbers := [7; 12; 33; 48; 80] |}.

Lemma matchedSubset_occurrences (chosen winning : list Z) (v : Z) :
  v ∈ winning ->
  count_occ Z.eq_dec (matchedSubset chosen winning) v = count_occ Z.eq_dec chosen v.
Proof.
  intros Hv. induction chosen as [| n chosen IH]; [done |].
  rewrite matchedSubset_cons. cbn [count_occ].
  destruct (includesNum winning n) eqn:E.
  - cbn [count_occ]. destruct (Z.eq_dec n v); by rewrite IH.
  - destruct (Z.eq_dec n v) as [-> | Hne]; [| done].
    apply includesNum_elem_of in Hv. congruence.
Qed.

(** C10.  Neither function asks for distinct chosen numbers: every
    occurrence of a value of the winning set is counted and listed on its
    own, so an entry that chose [7,7,7,7,7] against a winning set holding
    7 is validated with 5 matches and the tier of priority 1. *)
Theorem repeated_numbers_count_separately :
  (forall (chosen winning : list Z) (v : Z),
      v ∈ winning ->
      count_occ Z.eq_dec (matchedNumbers (matchNumbers chosen winning)) v
      = count_occ Z.eq_dec chosen v
      /\ count (matchNumbers chosen winning)
         = Z.of_nat (length (matchedNumbers (matchNumbers chosen winning))))
  /\ (forall (this : ContestResults) (entry : Entry) (result : ContestResult),
         chosenNumbers entry = [7; 7; 7; 7; 7] ->
         validated (validateEntry this entry) = true ->
         getContestResult this (contest entry) (drawDate entry) = Some result ->
         7 ∈ r_winningNumbers result ->
         validateEntry this entry =
         Validated 5 [7; 7; 7; 7; 7] (getPrizeTier 5) (r_winningNumbers result)
         /\ priority (getPrizeTier 5) = 1
         /\ tier (getPrizeTier 5) = js "GRAND PRIZE").
Proof.
  split.
  - intros chosen winning v Hv. rewrite matchNumbers_eq. cbn [matchedNumbers count].
    split; [by apply matchedSubset_occurrences | done].
  - intros this entry result Hchosen Hval Hres H7.
    rewrite (validateEntry_validated _ _ Hval). unfold winnerCheck.
    rewrite Hres, Hchosen, matchNumbers_eq. cbn [count matchedNumbers].
    apply includesNum_elem_of in H7.
    rewrite !matchedSubset_cons, H7. cbn. done.
Qed.

Lemma repeated_numbers_count_separately_witness :
  validateEntry (setResults 0 [result6903]) sevens =
  Validated 5 [7; 7; 7; 7; 7] (getPrizeTier 5) [7; 12; 33; 48; 80]
  /\ count_occ Z.eq_dec (matchedNumbers (matchNumbers [7; 3; 7] [7; 12])) 7 = 2%nat.
Proof.
  split.
  - refine (proj1 (proj2 repeated_numbers_count_separately
                     (setResults 0 [result6903]) sevens
                     {| r_contest := js "6903"; r_drawDate := js "15/12/2025";
                        r_winningNumbers := [7; 12; 33; 48; 80]; r_savedAt := 0 |}
                     eq_refl _ _ _)).
    + vm_compute. reflexivity.
    + vm_compute. reflexivity.
    + cbn. apply list_elem_of_here.
  - rewrite (proj1 (proj1 repeated_numbers_count_separately [7; 3; 7] [7; 12] 7
                      (list_elem_of_here _ _))).
    reflexivity.
Defined.

(** An entry that recharge validation marked VALID while its status is
    still pending. *)
Definition validButPending : Entry :=
  {| platform := js "POPN1"; gameId := js "1234567890"; contest := js "6903";
     drawDate := js "15/12/2025"; chosenNumbers := [7; 12; 33; 48; 80];
     status := Some (js "PENDING"); csvStatus := None;
     validity := Some (js "VALID"); invalidReasonCode := None |}.

(** C5.  The entry has validity VALID, status PENDING and all five
    winning numbers of its contest.  [validateEntry] does not go from the
    validity check to the lookup of the winning numbers: it runs the
    status check and rejects the entry with gate STATUS_NOT_VALIDATED. *)
Theorem validity_valid_runs_status_check :
  truthy (validity validButPending) = true
  /\ validityNorm validButPending = js "VALID"
  /\ validateEntry (setResults 0 [result6903]) validButPending =
     Rejected (js "Ticket is not validated. Winner check is not allowed.")
       (Some STATUS_NOT_VALIDATED) None (Some (js "PENDING"))
  /\ winnerCheck (setResults 0 [result6903]) validButPending =
     Validated 5 [7; 12; 33; 48; 80] (getPrizeTier 5) [7; 12; 33; 48; 80].
Proof. repeat split; vm_compute; reflexivity. Qed.

(** The two rejections of the validity check do hold as C5 words them:
    INVALID is rejected whatever the status says, and so is every value
    that is neither INVALID nor VALID. *)
Lemma validity_check_rejections (this : ContestResults) (e : Entry) :
  truthy (validity e) = true ->
  (validityNorm e = js "INVALID" ->
   validated (validateEntry this e) = false
   /\ gate (validateEntry this e) = Some RECHARGE_INVALID)
  /\ (validityNorm e <> js "INVALID" -> validityNorm e <> js "VALID" ->
      validated (validateEntry this e) = false
      /\ gate (validateEntry this e) = Some VALIDITY_UNKNOWN).
Proof.
  intros Ht. split.
  - intros Hi. by rewrite validateEntry_recharge_invalid.
  - intros Hi Hv. by rewrite validateEntry_validity_unknown.
Qed.

(** An entry with no validity and no status at all. *)
Definition noStatus : Entry :=
  {| platform := js "POPN1"; gameId := js "1234567890"; contest := js "6903";
     drawDate := js "15/12/2025"; chosenNumbers := [7; 12; 33; 48; 80];
     status := None; csvStatus := None;
     validity := None; invalidReasonCode := None |}.

(** An entry whose status is a pending marker, as typed in a sheet. *)
Definition pendingEntry : Entry :=
  {| platform := js "POPN1"; gameId := js "1234567890"; contest := js "6903";
     drawDate := js "15/12/2025"; chosenNumbers := [7; 12; 33; 48; 80];
     status := Some (js " pending "); csvStatus := None;
     validity := None; invalidReasonCode := None |}.

(** C6, as the claim states it, fails: an entry with no validity and no
    status is outside the accepted set, yet it reaches the winner check
    and is validated. *)
Lemma missing_status_reaches_winner_check :
  truthy (validity noStatus) = false
  /\ statusNorm noStatus = []
  /\ includes allowedValidStatuses (statusNorm noStatus) = false
  /\ validateEntry (setResults 0 [result6903]) noStatus =
     Validated 5 [7; 12; 33; 48; 80] (getPrizeTier 5) [7; 12; 33; 48; 80]
  /\ gate (validateEntry (setResults 0 [result6903]) noStatus)
     <> Some STATUS_NOT_VALIDATED.
Proof. repeat split; vm_compute; congruence. Qed.

Lemma allowed_cases (s : jsstring) :
  s ∈ allowedValidStatuses ->
  s = js "VALID" \/ s = js "VALIDATED" \/ s = js "VALIDADO".
Proof.
  unfold allowedValidStatuses. rewrite !elem_of_cons, elem_of_nil. tauto.
Qed.

Lemma blocked_cases (s : jsstring) :
  s ∈ blockedPendingStatuses ->
  s = js "GENERATED" \/ s = js "PENDING" \/ s = js "ALL PENDING".
Proof.
  unfold blockedPendingStatuses. rewrite !elem_of_cons, elem_of_nil. tauto.
Qed.

(** C6, amended.  For an entry with no validity: a status that
    normalises to INVALID or INVÁLIDO is rejected with gate
    STATUS_INVALID; any other non-empty status outside the accepted set,
    the pending markers among them, is rejected with gate
    STATUS_NOT_VALIDATED; an empty or missing status is not rejected by
    the status check and goes on to the winner check, like an accepted
    one. *)
Theorem status_check_without_validity (this : ContestResults) (e : Entry) :
  truthy (validity e) = false ->
  (statusNorm e = js "INVALID" \/ statusNorm e = INVALIDO ->
   validated (validateEntry this e) = false
   /\ gate (validateEntry this e) = Some STATUS_INVALID)
  /\ (statusNorm e <> [] -> statusNorm e ∉ allowedValidStatuses ->
      statusNorm e <> js "INVALID" -> statusNorm e <> INVALIDO ->
      validated (validateEntry this e) = false
      /\ gate (validateEntry this e) = Some STATUS_NOT_VALIDATED)
  /\ (statusNorm e ∈ blockedPendingStatuses ->
      validated (validateEntry this e) = false
      /\ gate (validateEntry this e) = Some STATUS_NOT_VALIDATED)
  /\ (statusNorm e = [] \/ statusNorm e ∈ allowedValidStatuses ->
      validateEntry this e = winnerCheck this e).
Proof.
  intros Hnv. rewrite (validateEntry_no_validity _ _ Hnv). unfold statusPath.
  split; [| split; [| split]].
  - intros [H | H]; rewrite H; vm_compute; done.
  - intros Hne Hna Hi Ho.
    apply streq_false in Hi, Ho. rewrite Hi, Ho. cbn [orb].
    apply includes_false in Hna. rewrite Hna.
    destruct (statusNorm e) as [| c s]; [done |]. cbn.
    rewrite orb_true_r. done.
  - intros Hb. apply blocked_cases in Hb.
    destruct Hb as [-> | [-> | ->]]; vm_compute; done.
  - intros [Hok | Hok].
    + rewrite Hok. reflexivity.
    + apply allowed_cases in Hok.
      destruct Hok as [-> | [-> | ->]]; reflexivity.
Qed.

Lemma status_check_without_validity_witness :
  gate (validateEntry (setResults 0 [result6903]) pendingEntry)
  = Some STATUS_NOT_VALIDATED
  /\ validateEntry (setResults 0 [result6903]) noStatus
     = winnerCheck (setResults 0 [result6903]) noStatus.
Proof.
  split.
  - refine (proj2 (proj1 (proj2 (status_check_without_validity
                                   (setResults 0 [result6903]) pendingEntry eq_refl))
                     _ _ _ _)).
    + vm_compute. discriminate.
    + intros H. apply allowed_cases in H. vm_compute in H.
      destruct H as [H | [H | H]]; discriminate.
    + vm_compute. discriminate.
    + vm_compute. discriminate.
  - refine (proj2 (proj2 (proj2 (status_check_without_validity
                                   (setResults 0 [result6903]) noStatus eq_refl))) _).
    left. reflexivity.
Defined.

(** *** The sort *)

Section SortFacts.
Context {A : Type} (comparefn : A -> A -> Z) (P : A -> Prop).

(** [comparefn] does not put [b] before [a]. *)
Definition notAfter (a b : A) : Prop := comparefn a b <= 0.

Hypothesis comparefn_total :
  forall a b, P a -> P b -> notAfter a b \/ notAfter b a.
Hypothesis comparefn_trans :
  forall a b c, P a -> P b -> P c -> notAfter a b -> notAfter b c -> notAfter a c.

Lemma insert_sorted_Permutation (x : A) (l : list A) :
  insert_sorted comparefn x l ≡ₚ x :: l.
Proof.
  induction l as [| y l IH]; cbn; [done |].
  destruct (comparefn x y <=? 0); [done |].
  rewrite IH. apply perm_swap.
Qed.

Lemma sort_Permutation (l : list A) : sort comparefn l ≡ₚ l.
Proof.
  induction l as [| x l IH]; cbn; [done |].
  by rewrite insert_sorted_Permutation, IH.
Qed.

Lemma insert_sorted_StronglySorted (x : A) (l : list A) :
  P x -> Forall P l -> StronglySorted notAfter l ->
  StronglySorted notAfter (insert_sorted comparefn x l).
Proof.
  intros Px Pl Hs. induction Hs as [| y l Hs IH Hy]; cbn.
  - repeat constructor.
  - apply Forall_cons in Pl as [Py Pl].
    destruct (comparefn x y <=? 0) eqn:E.
    + apply Z.leb_le in E. constructor; [by constructor |].
      constructor; [done |].
      rewrite Forall_forall in Hy, Pl |- *. intros z Hz.
      apply (comparefn_trans x y z); auto.
    + apply Z.leb_gt in E. constructor; [by apply IH |].
      rewrite (insert_sorted_Permutation x l).
      constructor; [| done].
      destruct (comparefn_total x y Px Py) as [H | H]; [| done].
      unfold notAfter in H. lia.
Qed.

Lemma sort_StronglySorted (l : list A) :
  Forall P l -> StronglySorted notAfter (sort comparefn l).
Proof.
  induction l as [| x l IH]; intros Pl; cbn; [constructor |].
  apply Forall_cons in Pl as [Px Pl].
  apply insert_sorted_StronglySorted; [done | | by apply IH].
  by rewrite sort_Permutation.
Qed.
End SortFacts.

Lemma StronglySorted_weaken {A : Type} (R R' : A -> A -> Prop) (P : A -> Prop)
    (l : list A) :
  (forall a b, P a -> P b -> R a b -> R' a b) ->
  Forall P l -> StronglySorted R l -> StronglySorted R' l.
Proof.
  intros HR Pl Hs. induction Hs as [| x l Hs IH Hx]; [constructor |].
  apply Forall_cons in Pl as [Px Pl].
  constructor; [by apply IH |].
  rewrite Forall_forall in Hx, Pl |- *. intros y Hy. apply HR; auto.
Qed.

(** The order of strings by code units is a strict total order. *)
Lemma strlt_irrefl (a : jsstring) : strlt a a = false.
Proof.
  induction a as [| x a IH]; cbn; [done |].
  rewrite N.ltb_irrefl, N.eqb_refl, IH. done.
Qed.

Lemma strlt_trichotomy (a b : jsstring) :
  a = b \/ strlt a b = true \/ strlt b a = true.
Proof.
  revert b. induction a as [| x a IH]; intros [| y b]; cbn; auto.
  destruct (N.lt_trichotomy x y) as [Hlt | [-> | Hgt]].
  - right. left. apply N.ltb_lt in Hlt. by rewrite Hlt.
  - rewrite N.ltb_irrefl, N.eqb_refl. cbn.
    destruct (IH b) as [-> | [H | H]]; auto.
  - right. right. apply N.ltb_lt in Hgt. by rewrite Hgt.
Qed.

Lemma strlt_asym (a b : jsstring) : strlt a b = true -> strlt b a = false.
Proof.
  revert b. induction a as [| x a IH]; intros [| y b]; cbn; try done.
  intros H. apply orb_true_iff in H as [H | H].
  - apply N.ltb_lt in H.
    assert ((y <? x)%N = false) as -> by (apply N.ltb_ge; lia).
    assert ((y =? x)%N = false) as -> by (apply N.eqb_neq; lia). done.
  - apply andb_true_iff in H as [Hxy H]. apply N.eqb_eq in Hxy. subst.
    rewrite N.ltb_irrefl, N.eqb_refl. cbn. by apply IH.
Qed.

Lemma strlt_trans (a b c : jsstring) :
  strlt a b = true -> strlt b c = true -> strlt a c = true.
Proof.
  revert b c. induction a as [| x a IH]; intros [| y b] [| z c]; cbn; try done.
  intros H1 H2.
  apply orb_true_iff in H1 as [H1 | H1]; apply orb_true_iff in H2 as [H2 | H2].
  - apply N.ltb_lt in H1, H2.
    assert ((x <? z)%N = true) as -> by (apply N.ltb_lt; lia). done.
  - apply andb_true_iff in H2 as [Hyz H2]. apply N.eqb_eq in Hyz. subst.
    by rewrite H1.
  - apply andb_true_iff in H1 as [Hxy H1]. apply N.eqb_eq in Hxy. subst.
    by rewrite H2.
  - apply andb_true_iff in H1 as [Hxy H1]. apply N.eqb_eq in Hxy.
    apply andb_true_iff in H2 as [Hyz H2]. apply N.eqb_eq in Hyz. subst.
    rewrite N.eqb_refl, (IH b c H1 H2). cbn. apply orb_true_r.
Qed.

(** The order the specification of the sort is stated in: ascending
    contest first, and descending matches within a contest. *)
Definition winnerOrder (a b : Winner) : Prop :=
  strlt (contest (w_entry a)) (contest (w_entry b)) = true
  \/ (contest (w_entry a) = contest (w_entry b)
      /\ exists ma mb, matches (w_validation a) = Some ma
                       /\ matches (w_validation b) = Some mb
                       /\ mb <= ma).

Definition isValidated (w : Winner) : Prop := validated (w_validation w) = true.

Lemma isValidated_matches (w : Winner) :
  isValidated w -> exists m, matches (w_validation w) = Some m.
Proof. unfold isValidated. destruct (w_validation w); [discriminate | eauto]. Qed.

Lemma compareWinners_order (a b : Winner) :
  isValidated a -> isValidated b ->
  notAfter compareWinners a b <-> winnerOrder a b.
Proof.
  intros Ha Hb. apply isValidated_matches in Ha as [ma Hma], Hb as [mb Hmb].
  unfold notAfter, compareWinners, winnerOrder. rewrite Hma, Hmb.
  destruct (streq (contest (w_entry a)) (contest (w_entry b))) eqn:E.
  - apply streq_true in E. rewrite E, strlt_irrefl. split.
    + intros H. right. split; [done |]. exists ma, mb. repeat split. lia.
    + intros [H | (_ & ma' & mb' & H1 & H2 & H3)]; [discriminate |].
      simplify_eq. lia.
  - apply streq_false in E.
    destruct (strlt (contest (w_entry b)) (contest (w_entry a))) eqn:L.
    + split; [lia |]. intros [H | [H _]]; [| done].
      apply strlt_asym in H. congruence.
    + split; [| lia]. intros _. left.
      destruct (strlt_trichotomy (contest (w_entry a)) (contest (w_entry b)))
        as [H | [H | H]]; [done | done | congruence].
Qed.

Lemma winnerOrder_trans (a b c : Winner) :
  winnerOrder a b -> winnerOrder b c -> winnerOrder a c.
Proof.
  intros [H1 | (E1 & ma & mb & Ha & Hb & H1)] [H2 | (E2 & mb' & mc & Hb' & Hc & H2)].
  - left. eapply strlt_trans; eauto.
  - left. by rewrite <- E2.
  - left. by rewrite E1.
  - right. split; [congruence |]. exists ma, mc. simplify_eq. repeat split; [done..| lia].
Qed.

Lemma winnerOrder_total (a b : Winner) :
  isValidated a -> isValidated b -> winnerOrder a b \/ winnerOrder b a.
Proof.
  intros Ha Hb. apply isValidated_matches in Ha as [ma Hma], Hb as [mb Hmb].
  destruct (strlt_trichotomy (contest (w_entry a)) (contest (w_entry b)))
    as [H | [H | H]].
  - destruct (Z.le_ge_cases ma mb).
    + right. right. split; [done |]. exists mb, ma. done.
    + left. right. split; [done |]. exists ma, mb. done.
  - left. by left.
  - right. by left.
Qed.

(** *** The groups *)

(** An entry with its validation, as [getWinners] stores it in a group. *)
Definition check (this : ContestResults) (e : Entry) : Checked :=
  {| c_entry := e; validation := validateEntry this e |}.

(** The entries of [E] under key [k], checked, in the order of [E]. *)
Definition groupOf (this : ContestResults) (E : list Entry) (k : jsstring)
  : list Checked :=
  map (check this) (List.filter (fun e => streq (groupKey e) k) E).

(** What a group contributes to [winners] when its level is [L]. *)
Definition pick (L : Z) (g : list Checked) : list Winner :=
  if L =? 0 then []
  else
    map (fun w => {| w_entry := c_entry w; w_validation := validation w;
                     winningLevel := L |})
      (List.filter (fun e => validated (validation e)
                             && bool_decide (matches (validation e) = Some L)) g).

Lemma groupWinners_pick (g : list Checked) :
  groupWinners g = pick (getWinningLevel g) g.
Proof. reflexivity. Qed.

Lemma pick_app (L : Z) (g1 g2 : list Checked) :
  pick L (g1 ++ g2) = pick L g1 ++ pick L g2.
Proof.
  unfold pick. destruct (L =? 0); [done |].
  by rewrite List.filter_app, map_app.
Qed.

Lemma flat_map_pushGroup (lvl : jsstring -> Z) (k : jsstring) (x : Checked)
    (G : Groups) :
  flat_map (fun kg => pick (lvl kg.1) kg.2) (pushGroup k x G)
  ≡ₚ flat_map (fun kg => pick (lvl kg.1) kg.2) G ++ pick (lvl k) [x].
Proof.
  induction G as [| [k0 g0] G IH]; cbn [pushGroup flat_map].
  - cbn. by rewrite !app_nil_r.
  - destruct (streq k0 k) eqn:E; cbn [flat_map fst snd].
    + apply streq_true in E. subst k0. rewrite pick_app, <- !app_assoc.
      apply Permutation_app_head, Permutation_app_comm.
    + rewrite IH, <- app_assoc. done.
Qed.

Lemma groupEntries_snoc (this : ContestResults) (E : list Entry) (e : Entry) :
  groupEntries this (E ++ [e])
  = pushGroup (groupKey e) (check this e) (groupEntries this E).
Proof. unfold groupEntries. by rewrite fold_left_app. Qed.

Lemma flat_map_groupEntries (this : ContestResults) (lvl : jsstring -> Z)
    (E : list Entry) :
  flat_map (fun kg => pick (lvl kg.1) kg.2) (groupEntries this E)
  ≡ₚ flat_map (fun e => pick (lvl (groupKey e)) [check this e]) E.
Proof.
  induction E as [| e E IH] using rev_ind; [done |].
  rewrite groupEntries_snoc, flat_map_pushGroup, IH, flat_map_app. cbn.
  by rewrite app_nil_r.
Qed.

Lemma groupOf_snoc (this : ContestResults) (E : list Entry) (e : Entry)
    (k : jsstring) :
  groupOf this (E ++ [e]) k
  = groupOf this E k ++ (if streq (groupKey e) k then [check this e] else []).
Proof.
  unfold groupOf. rewrite List.filter_app, map_app. cbn.
  by destruct (streq (groupKey e) k).
Qed.

Lemma pushGroup_keys (k : jsstring) (x : Checked) (G : Groups) :
  map fst (pushGroup k x G)
  = if decide (k ∈ map fst G) then map fst G else map fst G ++ [k].
Proof.
  induction G as [| [k0 g0] G IH]; cbn [pushGroup map fst].
  - rewrite decide_False; [done | apply not_elem_of_nil].
  - destruct (streq k0 k) eqn:E; cbn [map fst].
    + apply streq_true in E. subst. rewrite decide_True; [done | left].
    + apply streq_false in E. rewrite IH.
      destruct (decide (k ∈ map fst G)) as [H | H].
      * rewrite decide_True; [done | by right].
      * rewrite decide_False; [done |].
        rewrite elem_of_cons. intros [-> | H']; done.
Qed.

Lemma pushGroup_elem (k : jsstring) (x : Checked) (G : Groups)
    (k' : jsstring) (g' : list Checked) :
  NoDup (map fst G) ->
  (k', g') ∈ pushGroup k x G ->
  (k' <> k /\ (k', g') ∈ G)
  \/ (k' = k /\ exists g, (k, g) ∈ G /\ g' = g ++ [x])
  \/ (k' = k /\ (k ∉ map fst G) /\ g' = [x]).
Proof.
  induction G as [| [k0 g0] G IH]; cbn [pushGroup map fst]; intros Hnd Hin.
  - apply list_elem_of_singleton in Hin. simplify_eq.
    right. right. repeat split. apply not_elem_of_nil.
  - apply NoDup_cons in Hnd as [Hk0 Hnd].
    destruct (streq k0 k) eqn:E.
    + apply streq_true in E. subst k0.
      apply elem_of_cons in Hin as [Hin | Hin].
      * simplify_eq. right. left. split; [done |]. exists g0. split; [left | done].
      * left. split; [| by right]. intros ->.
        apply Hk0. apply list_elem_of_fmap. by exists (k, g').
    + apply streq_false in E.
      apply elem_of_cons in Hin as [Hin | Hin].
      * simplify_eq. left. split; [done | left].
      * destruct (IH Hnd Hin) as [[H1 H2] | [(H1 & g & H2 & H3) | (H1 & H2 & H3)]].
        -- left. split; [done | by right].
        -- right. left. split; [done |]. exists g. split; [by right | done].
        -- right. right. repeat split; [done | | done].
           rewrite elem_of_cons. intros [-> | H']; done.
Qed.

(** What the grouping loop has built once it has gone through [E]. *)
Lemma groupEntries_groups (this : ContestResults) (E : list Entry) :
  NoDup (map fst (groupEntries this E))
  /\ (forall k g, (k, g) ∈ groupEntries this E -> g = groupOf this E k)
  /\ (forall e, e ∈ E -> groupKey e ∈ map fst (groupEntries this E)).
Proof.
  induction E as [| e E (Hnd & Hg & Hk)] using rev_ind.
  - cbn. repeat split.
    + constructor.
    + intros k g H. by apply not_elem_of_nil in H.
    + intros e H. by apply not_elem_of_nil in H.
  - rewrite groupEntries_snoc. split; [| split].
    + rewrite pushGroup_keys. case_decide; [done |].
      apply NoDup_app. repeat split; [done | | apply NoDup_singleton].
      intros y Hy Hy'. apply list_elem_of_singleton in Hy'. by subst.
    + intros k g Hin. rewrite groupOf_snoc.
      destruct (pushGroup_elem _ _ _ _ _ Hnd Hin)
        as [[H1 H2] | [(H1 & g0 & H2 & H3) | (H1 & H2 & H3)]].
      * assert (streq (groupKey e) k = false) as -> by (by apply streq_false).
        rewrite app_nil_r. by apply Hg.
      * subst. assert (streq (groupKey e) (groupKey e) = true) as ->
          by (by apply streq_true).
        by rewrite (Hg _ _ H2).
      * subst. assert (streq (groupKey e) (groupKey e) = true) as ->
          by (by apply streq_true).
        assert (groupOf this E (groupKey e) = []) as ->; [| done].
        unfold groupOf.
        destruct (List.filter (fun e0 => streq (groupKey e0) (groupKey e)) E)
          as [| e0 l] eqn:F; [done |].
        assert (He0 : In e0 (List.filter
                               (fun e0 => streq (groupKey e0) (groupKey e)) E))
          by (rewrite F; left; done).
        apply filter_In in He0 as [He0 Hkey]. apply streq_true in Hkey.
        exfalso. apply H2. rewrite <- Hkey. apply Hk. by apply list_elem_of_In.
    + intros e0 He0. rewrite pushGroup_keys.
      apply elem_of_app in He0 as [He0 | He0].
      * case_decide; [by apply Hk |]. apply elem_of_app. left. by apply Hk.
      * apply list_elem_of_singleton in He0. subst e0.
        case_decide; [done |]. apply elem_of_app. right. left.
Qed.

(** *** getWinners *)

(** The maximum match count of the group of [e] in the specification's
    words: the largest [matches] among the validated entries of [es] that
    pass the status filter and have the key of [e], and 0 when there is
    none. *)
Definition groupMaximum (this : ContestResults) (es : list Entry) (e : Entry) : Z :=
  foldr Z.max 0
    (omap (fun e' => matches (validateEntry this e'))
       (List.filter (fun e' => isEligible e' && streq (groupKey e') (groupKey e)) es)).

(** [e] is returned: it passes the status filter, it is validated, and
    its match count is the maximum of its group, which is not 0. *)
Definition isTop (this : ContestResults) (es : list Entry) (e : Entry) : bool :=
  isEligible e
  && validated (validateEntry this e)
  && bool_decide (matches (validateEntry this e) = Some (groupMaximum this es e))
  && negb (groupMaximum this es e =? 0).

(** The element of the result that stands for [e]. *)
Definition winnerOf (this : ContestResults) (es : list Entry) (e : Entry) : Winner :=
  {| w_entry := e; w_validation := validateEntry this e;
     winningLevel := groupMaximum this es e |}.

Lemma foldr_max_init (h m : Z) (l : list Z) :
  foldr Z.max (Z.max h m) l = Z.max m (foldr Z.max h l).
Proof. induction l as [| x l IH]; cbn; [lia | rewrite IH; lia]. Qed.

Lemma getWinningLevel_loop (g : list Checked) (h : Z) :
  fold_left
    (fun highest e =>
       match validation e with
       | Validated m _ _ _ => Z.max highest m
       | Rejected _ _ _ _ => highest
       end) g h
  = foldr Z.max h (omap (fun c => matches (validation c)) g).
Proof.
  revert h. induction g as [| c g IH]; intros h; [done |].
  cbn. rewrite IH.
  destruct (validation c); cbn; [done | apply foldr_max_init].
Qed.

Lemma omap_map_check (this : ContestResults) (l : list Entry) :
  omap (fun c => matches (validation c)) (map (check this) l)
  = omap (fun e => matches (validateEntry this e)) l.
Proof.
  induction l as [| e l IH]; [done |]. cbn. rewrite IH. done.
Qed.

Lemma filter_filter_andb {A : Type} (p q : A -> bool) (l : list A) :
  List.filter q (List.filter p l) = List.filter (fun x => p x && q x) l.
Proof.
  induction l as [| x l IH]; [done |]. cbn.
  destruct (p x); cbn; [destruct (q x) |]; by rewrite IH.
Qed.

Lemma filter_ext_key {A : Type} (p q : A -> bool) (l : list A) :
  (forall x, p x = q x) -> List.filter p l = List.filter q l.
Proof. intros H. apply filter_ext. exact H. Qed.

(** The level the code computes for the group of [e] is that maximum. *)
Lemma getWinningLevel_groupMaximum (this : ContestResults) (es : list Entry)
    (e : Entry) :
  getWinningLevel (groupOf this (List.filter isEligible es) (groupKey e))
  = groupMaximum this es e.
Proof.
  unfold getWinningLevel, groupMaximum, groupOf.
  by rewrite getWinningLevel_loop, omap_map_check, filter_filter_andb.
Qed.

Lemma foldr_max_bound (l : list Z) :
  0 <= foldr Z.max 0 l
  /\ (forall m, m ∈ l -> m <= foldr Z.max 0 l)
  /\ (foldr Z.max 0 l = 0 \/ foldr Z.max 0 l ∈ l).
Proof.
  induction l as [| x l (H0 & Hub & Hat)]; cbn.
  - repeat split; [lia | | by left]. intros m H. by apply not_elem_of_nil in H.
  - repeat split; [lia | |].
    + intros m Hm. apply elem_of_cons in Hm as [-> | Hm]; [lia |].
      specialize (Hub m Hm). lia.
    + destruct (Z.max_spec x (foldr Z.max 0 l)) as [[_ ->] | [_ ->]].
      * destruct Hat as [-> | Hat]; [by left | right; by right].
      * right. left.
Qed.

(** [groupMaximum] is what its name says. *)
Lemma groupMaximum_spec (this : ContestResults) (es : list Entry) (e : Entry) :
  0 <= groupMaximum this es e
  /\ (forall e' m', e' ∈ es -> isEligible e' = true ->
                    groupKey e' = groupKey e ->
                    matches (validateEntry this e') = Some m' ->
                    m' <= groupMaximum this es e)
  /\ (groupMaximum this es e = 0
      \/ exists e', e' ∈ es /\ isEligible e' = true
                    /\ groupKey e' = groupKey e
                    /\ matches (validateEntry this e')
                       = Some (groupMaximum this es e)).
Proof.
  unfold groupMaximum.
  set (members := List.filter _ es).
  destruct (foldr_max_bound
              (omap (fun e' => matches (validateEntry this e')) members))
    as (H0 & Hub & Hat).
  split; [done |]. split.
  - intros e' m' Hin Hel Hkey Hm. apply Hub.
    apply list_elem_of_omap. exists e'. split; [| done].
    apply list_elem_of_In, filter_In. split; [by apply list_elem_of_In |].
    rewrite Hel. by apply streq_true.
  - destruct Hat as [Hat | Hat]; [by left | right].
    apply list_elem_of_omap in Hat as (e' & Hin & Hm).
    apply list_elem_of_In, filter_In in Hin as [Hin Hp].
    apply andb_true_iff in Hp as [Hel Hkey]. apply streq_true in Hkey.
    exists e'. repeat split; [by apply list_elem_of_In | done..].
Qed.

Lemma flat_map_singletons {A B : Type} (p : A -> bool) (f : A -> B) (l : list A) :
  flat_map (fun x => if p x then [f x] else []) l = map f (List.filter p l).
Proof.
  induction l as [| x l IH]; [done |]. cbn. rewrite IH. by destruct (p x).
Qed.

Lemma flat_map_ext_elem {A B : Type} (f g : A -> list B) (l : list A) :
  (forall x, x ∈ l -> f x = g x) -> flat_map f l = flat_map g l.
Proof.
  induction l as [| x l IH]; intros H; [done |]. cbn.
  rewrite (H x) by left. rewrite IH; [done |].
  intros y Hy. apply H. by right.
Qed.

(** The result of [getWinners], up to the order the sort gives it. *)
Lemma getWinners_Permutation (this : ContestResults) (es : list Entry) :
  getWinners this es ≡ₚ map (winnerOf this es) (List.filter (isTop this es) es).
Proof.
  unfold getWinners. rewrite sort_Permutation.
  set (E := List.filter isEligible es).
  destruct (groupEntries_groups this E) as (_ & Hg & _).
  set (lvl := fun k => getWinningLevel (groupOf this E k)).
  assert (H1 : flat_map groupWinners (map snd (groupEntries this E))
               = flat_map (fun kg => pick (lvl kg.1) kg.2) (groupEntries this E)).
  { rewrite flat_map_concat_map, map_map, <- flat_map_concat_map.
    apply flat_map_ext_elem. intros [k g] Hin. cbn.
    unfold lvl. by rewrite <- (Hg _ _ Hin). }
  rewrite H1, flat_map_groupEntries.
  assert (H2 : forall e, pick (lvl (groupKey e)) [check this e]
                         = if validated (validateEntry this e)
                              && bool_decide (matches (validateEntry this e)
                                              = Some (groupMaximum this es e))
                              && negb (groupMaximum this es e =? 0)
                           then [winnerOf this es e] else []).
  { intros e. unfold lvl, E. rewrite getWinningLevel_groupMaximum.
    unfold pick, winnerOf. cbn.
    destruct (groupMaximum this es e =? 0); cbn; [by rewrite andb_false_r |].
    rewrite andb_true_r.
    by destruct (validated (validateEntry this e)
                 && bool_decide (matches (validateEntry this e)
                                 = Some (groupMaximum this es e))). }
  rewrite (flat_map_ext _ _ H2), flat_map_singletons.
  unfold E. rewrite filter_filter_andb.
  apply Permutation_map. erewrite filter_ext_key; [reflexivity |].
  intros e. unfold isTop. by rewrite !andb_assoc.
Qed.

Lemma elem_of_getWinners (this : ContestResults) (es : list Entry) (w : Winner) :
  w ∈ getWinners this es
  <-> exists e, e ∈ es /\ isTop this es e = true /\ w = winnerOf this es e.
Proof.
  rewrite (getWinners_Permutation this es), list_elem_of_fmap. split.
  - intros (e & -> & He). apply list_elem_of_In, filter_In in He as [He Ht].
    exists e. split; [by apply list_elem_of_In | done].
  - intros (e & He & Ht & ->). exists e. split; [done |].
    apply list_elem_of_In, filter_In. split; [by apply list_elem_of_In | done].
Qed.

Lemma isTop_matches (this : ContestResults) (es : list Entry) (e : Entry) :
  isTop this es e = true ->
  isEligible e = true
  /\ matches (validateEntry this e) = Some (groupMaximum this es e)
  /\ 1 <= groupMaximum this es e.
Proof.
  unfold isTop. rewrite !andb_true_iff, bool_decide_eq_true, negb_true_iff.
  intros [[[He _] Hm] Hz]. apply Z.eqb_neq in Hz.
  pose proof (groupMaximum_spec this es e) as [H0 _].
  repeat split; [done | done | lia].
Qed.

(** The example entries of the specification. *)
Definition fourMatches : Entry :=
  {| platform := js "POPN1"; gameId := js "3333333333"; contest := js "6903";
     drawDate := js "15/12/2025"; chosenNumbers := [7; 12; 33; 48; 1];
     status := Some (js "VALID"); csvStatus := None;
     validity := None; invalidReasonCode := None |}.

Definition threeMatches : Entry :=
  {| platform := js "POPN1"; gameId := js "4444444444"; contest := js "6903";
     drawDate := js "15/12/2025"; chosenNumbers := [7; 12; 33; 2; 1];
     status := Some (js "VALIDADO"); csvStatus := None;
     validity := None; invalidReasonCode := None |}.

Definition threeOnOtherPlatform : Entry :=
  {| platform := js "POPLUZ"; gameId := js "5555555555"; contest := js "6903";
     drawDate := js "15/12/2025"; chosenNumbers := [12; 33; 48; 2; 1];
     status := Some (js "VALID"); csvStatus := None;
     validity := None; invalidReasonCode := None |}.

(** *** Keys

    The keys of [contestResults] and of the groups are texts joined by
    the low line.  A name that is not empty and holds no low line is
    recovered from the key, and a key that starts with such a name is
    not a property every object inherits. *)

Definition lowLine : N := 95.

Definition plainName (s : jsstring) : bool :=
  match s with
  | [] => false
  | _ :: _ => forallb (fun c => negb (c =? lowLine)%N) s
  end.

Lemma plainName_lowLine (s : jsstring) : plainName s = true -> lowLine ∉ s.
Proof.
  intros H Hin.
  assert (Hall : forallb (fun c => negb (c =? lowLine)%N) s = true)
    by (destruct s; [discriminate | exact H]).
  rewrite forallb_forall in Hall.
  specialize (Hall lowLine (proj1 (list_elem_of_In _ _) Hin)).
  by rewrite N.eqb_refl in Hall.
Qed.

Lemma underscore_inj (a b a' b' : jsstring) :
  lowLine ∉ a -> lowLine ∉ a' ->
  underscore a b = underscore a' b' -> a = a' /\ b = b'.
Proof.
  unfold underscore. change (js "_") with [lowLine]. revert a'.
  induction a as [| x a IH]; intros [| y a'] Ha Ha' H; cbn in H.
  - by injection H.
  - injection H as Hy _. exfalso. apply Ha'. rewrite Hy. left.
  - injection H as Hx _. exfalso. apply Ha. rewrite Hx. left.
  - injection H as -> H. apply not_elem_of_cons in Ha as [_ Ha], Ha' as [_ Ha'].
    by destruct (IH a' Ha Ha' H) as [-> ->].
Qed.

(** The platform and the contest of the entry are not empty and hold no
    low line, as the platform names and contest numbers of the sheets:
    the keys made of them are keys of their own, which is where the
    objects [contestResults] and [grouped] behave as maps. *)
Definition wellKeyed (e : Entry) : bool :=
  plainName (platform e) && plainName (contest e).

Lemma filter_ext_elem {A : Type} (p q : A -> bool) (l : list A) :
  (forall x, x ∈ l -> p x = q x) -> List.filter p l = List.filter q l.
Proof.
  induction l as [| x l IH]; intros H; [done |]. cbn.
  rewrite (H x) by left. rewrite IH; [done |].
  intros y Hy. apply H. by right.
Qed.


Lemma filter_Permutation_bool {A : Type} (p : A -> bool) (l l' : list A) :
  l ≡ₚ l' -> List.filter p l ≡ₚ List.filter p l'.
Proof.
  induction 1 as [| x l l' _ IH | x y l | l l' l'' _ IH1 _ IH2]; cbn.
  - done.
  - destruct (p x); [by constructor | done].
  - destruct (p x), (p y); try done. apply perm_swap.
  - by etrans.
Qed.

(** The maximum of a group depends on the entries present only. *)
Lemma groupMaximum_members (this : ContestResults) (es es' : list Entry) (e : Entry) :
  (forall e', e' ∈ es -> isEligible e' = true -> groupKey e' = groupKey e ->
              e' ∈ es') ->
  groupMaximum this es e <= groupMaximum this es' e.
Proof.
  intros Hsub.
  destruct (groupMaximum_spec this es e) as (_ & _ & Hat).
  destruct (groupMaximum_spec this es' e) as (H0 & Hub & _).
  destruct Hat as [-> | (e' & Hin & Hel & Hk & Hm)]; [done |].
  apply (Hub e'); auto.
Qed.

Lemma isTop_ext (this : ContestResults) (es es' : list Entry) (e : Entry) :
  groupMaximum this es e = groupMaximum this es' e ->
  isTop this es e = isTop this es' e /\ winnerOf this es e = winnerOf this es' e.
Proof. intros H. unfold isTop, winnerOf. by rewrite H. Qed.

Lemma filter_map_bool {A B : Type} (p : B -> bool) (f : A -> B) (l : list A) :
  List.filter p (map f l) = map f (List.filter (fun x => p (f x)) l).
Proof.
  induction l as [| x l IH]; [done |]. cbn. rewrite IH. by destruct (p (f x)).
Qed.

Lemma filter_comm_bool {A : Type} (p q : A -> bool) (l : list A) :
  List.filter p (List.filter q l) = List.filter q (List.filter p l).
Proof.
  induction l as [| x l IH]; [done |]. cbn.
  destruct (p x) eqn:Ep, (q x) eqn:Eq; cbn; rewrite ?Ep, ?Eq, IH; done.
Qed.

Lemma map_ext_elem {A B : Type} (f g : A -> B) (l : list A) :
  (forall x, x ∈ l -> f x = g x) -> map f l = map g l.
Proof.
  intros H. apply map_ext_in. intros x Hx. apply H. by apply list_elem_of_In.
Qed.

(** *** The groups as triples

    The group of an entry in the specification's words: the entries of
    the same platform, contest and draw date. *)
Definition sameGroup (e e' : Entry) : bool :=
  streq (platform e) (platform e') && streq (contest e) (contest e')
  && streq (drawDate e) (drawDate e').

(** The largest match count among the validated entries of [es] that
    pass the status filter and are of the group of [e]; 0 when there is
    none. *)
Definition maximumOfGroup (this : ContestResults) (es : list Entry) (e : Entry) : Z :=
  foldr Z.max 0
    (omap (fun e' => matches (validateEntry this e'))
       (List.filter (fun e' => isEligible e' && sameGroup e' e) es)).

(** [e] passes the status filter, is validated, and its match count is
    the maximum of its group, which is not 0. *)
Definition isTopOfGroup (this : ContestResults) (es : list Entry) (e : Entry) : bool :=
  isEligible e
  && validated (validateEntry this e)
  && bool_decide (matches (validateEntry this e) = Some (maximumOfGroup this es e))
  && negb (maximumOfGroup this es e =? 0).

(** The element of the result that stands for [e]. *)
Definition topWinner (this : ContestResults) (es : list Entry) (e : Entry) : Winner :=
  {| w_entry := e; w_validation := validateEntry this e;
     winningLevel := maximumOfGroup this es e |}.

(** For names with no low line the key of the code tells the triples
    apart. *)
Lemma groupKey_sameGroup (e e' : Entry) :
  wellKeyed e = true -> wellKeyed e' = true ->
  groupKey e = groupKey e' <-> sameGroup e e' = true.
Proof.
  unfold wellKeyed, groupKey, sameGroup. rewrite !andb_true_iff, !streq_true.
  intros [Hp Hc] [Hp' Hc']. split.
  - intros H.
    apply underscore_inj in H as [H1 H]; [| by apply plainName_lowLine..].
    by apply underscore_inj in H as [H2 H3]; [| by apply plainName_lowLine..].
  - by intros [[-> ->] ->].
Qed.

Lemma streq_groupKey (e e' : Entry) :
  wellKeyed e = true -> wellKeyed e' = true ->
  streq (groupKey e) (groupKey e') = sameGroup e e'.
Proof.
  intros He He'. pose proof (groupKey_sameGroup e e' He He') as H.
  destruct (sameGroup e e').
  - apply streq_true. by apply H.
  - apply streq_false. intros Hk. by apply H in Hk.
Qed.

Lemma groupMaximum_triples (this : ContestResults) (es : list Entry) (e : Entry) :
  Forall (fun e => wellKeyed e = true) es -> wellKeyed e = true ->
  groupMaximum this es e = maximumOfGroup this es e.
Proof.
  intros Hkeys He. rewrite Forall_forall in Hkeys.
  unfold groupMaximum, maximumOfGroup. do 2 f_equal.
  apply filter_ext_elem. intros e' He'. by rewrite streq_groupKey by auto.
Qed.

Lemma groupKey_platform (e e' : Entry) :
  wellKeyed e = true -> wellKeyed e' = true ->
  groupKey e = groupKey e' -> platform e = platform e'.
Proof.
  intros He He' H. apply groupKey_sameGroup in H; [| done..].
  unfold sameGroup in H. rewrite !andb_true_iff, !streq_true in H. tauto.
Qed.

(** The winners of one platform are the winners found among the
    entries of that platform alone. *)
Lemma getWinners_of_platform (this : ContestResults) (es : list Entry)
    (p : jsstring) :
  Forall (fun e => wellKeyed e = true) es ->
  List.filter (fun w => streq (platform (w_entry w)) p) (getWinners this es)
  ≡ₚ getWinners this (List.filter (fun e => streq (platform e) p) es).
Proof.
  intros Hkeys. rewrite Forall_forall in Hkeys.
  set (onPlatform := fun e : Entry => streq (platform e) p).
  set (F := List.filter onPlatform es).
  assert (HF : forall e, e ∈ F <-> e ∈ es /\ platform e = p).
  { intros e. unfold F. rewrite !list_elem_of_In, filter_In.
    unfold onPlatform. by rewrite streq_true. }
  assert (Hmax : forall e, e ∈ F -> groupMaximum this F e = groupMaximum this es e).
  { intros e He. apply HF in He as [He Hp].
    apply Z.le_antisymm; apply groupMaximum_members; intros e' Hin _ Hk.
    - by apply HF in Hin as [Hin _].
    - apply HF. split; [done |]. rewrite <- Hp.
      apply groupKey_platform; auto. }
  rewrite (getWinners_Permutation this F).
  rewrite (filter_Permutation_bool _ _ _ (getWinners_Permutation this es)).
  rewrite filter_map_bool.
  cbn [w_entry winnerOf]. fold onPlatform.
  rewrite filter_comm_bool. fold F.
  rewrite (filter_ext_elem (isTop this F) (isTop this es) F)
    by (intros e He; apply isTop_ext; auto).
  rewrite (map_ext_elem (winnerOf this F) (winnerOf this es)); [done |].
  intros e He. apply list_elem_of_In, filter_In in He as [He _].
  apply isTop_ext, Hmax. by apply list_elem_of_In.
Qed.

(** An entry that matched none of the winning numbers of its contest,
    alone in its group. *)
Definition noMatch : Entry :=
  {| platform := js "POPN1"; gameId := js "1234567890"; contest := js "6903";
     drawDate := js "15/12/2025"; chosenNumbers := [1; 2; 3; 4; 5];
     status := Some (js "VALID"); csvStatus := None;
     validity := None; invalidReasonCode := None |}.

(** C1, as the claim states it, fails: the entry is validated and its 0
    matches are the maximum of its group, yet [getWinners] does not
    return it. *)
Lemma zero_level_group_has_no_winner :
  isEligible noMatch = true
  /\ validateEntry (setResults 0 [result6903]) noMatch
     = Validated 0 [] (getPrizeTier 0) [7; 12; 33; 48; 80]
  /\ groupMaximum (setResults 0 [result6903]) [noMatch] noMatch = 0
  /\ getWinners (setResults 0 [result6903]) [noMatch] = [].
Proof. repeat split; vm_compute; reflexivity. Qed.

(** C1, amended.  For entries whose platform and contest are not empty
    and hold no low line, [getWinners] returns, within each group of
    entries of the same platform, contest and draw date, exactly the
    entries that pass the status filter, are validated, and whose match
    count is at least 1 and is the maximum among the validated,
    status-eligible entries of the group; a group whose maximum is 0
    returns nothing.  So an entry with fewer matches than another entry
    of its group is never returned, and the winners of a platform are
    the winners found among the entries of that platform alone: each
    platform's top entries are returned whatever the other platforms
    hold. *)
Theorem getWinners_top_of_each_group (this : ContestResults) (es : list Entry) :
  Forall (fun e => wellKeyed e = true) es ->
  getWinners this es
  ≡ₚ map (topWinner this es) (List.filter (isTopOfGroup this es) es)
  /\ (forall e m,
         e ∈ es -> isEligible e = true ->
         matches (validateEntry this e) = Some m ->
         (exists w, w ∈ getWinners this es /\ w_entry w = e)
         <-> 1 <= m
             /\ forall e' m', e' ∈ es -> isEligible e' = true ->
                              sameGroup e' e = true ->
                              matches (validateEntry this e') = Some m' ->
                              m' <= m)
  /\ (forall w, w ∈ getWinners this es ->
                w_entry w ∈ es /\ isEligible (w_entry w) = true
                /\ w_validation w = validateEntry this (w_entry w)
                /\ matches (w_validation w) = Some (winningLevel w)
                /\ 1 <= winningLevel w)
  /\ (forall e1 e2 m1 m2,
         e2 ∈ es -> isEligible e2 = true -> sameGroup e2 e1 = true ->
         matches (validateEntry this e1) = Some m1 ->
         matches (validateEntry this e2) = Some m2 ->
         m1 < m2 ->
         forall w, w ∈ getWinners this es -> w_entry w <> e1)
  /\ (forall p : jsstring,
         List.filter (fun w => streq (platform (w_entry w)) p) (getWinners this es)
         ≡ₚ getWinners this (List.filter (fun e => streq (platform e) p) es)).
Proof.
  intros Hkeys. pose proof Hkeys as Hall. rewrite Forall_forall in Hall.
  assert (Hmax : forall e, e ∈ es -> groupMaximum this es e = maximumOfGroup this es e)
    by (intros e He; apply groupMaximum_triples; auto).
  assert (Hkey : forall e e', e ∈ es -> e' ∈ es ->
                              sameGroup e' e = true -> groupKey e' = groupKey e)
    by (intros e e' He He' H; apply groupKey_sameGroup; auto).
  split; [| split; [| split; [| split]]].
  - rewrite (getWinners_Permutation this es).
    rewrite (filter_ext_elem (isTop this es) (isTopOfGroup this es) es)
      by (intros e He; unfold isTop, isTopOfGroup; by rewrite Hmax).
    rewrite (map_ext_elem (winnerOf this es) (topWinner this es)); [done |].
    intros e He. apply list_elem_of_In, filter_In in He as [He _].
    unfold winnerOf, topWinner. rewrite Hmax; [done | by apply list_elem_of_In].
  - intros e m He Hel Hm. split.
    + intros (w & Hw & Hwe). apply elem_of_getWinners in Hw as (e0 & _ & Ht & ->).
      cbn in Hwe. subst e0. apply isTop_matches in Ht as (_ & Hmx & H1).
      rewrite Hm in Hmx. injection Hmx as ->. split; [done |].
      intros e' m' He' Hel' Hg. apply (groupMaximum_spec this es e); auto.
    + intros [H1 Hub]. exists (winnerOf this es e). split; [| done].
      apply elem_of_getWinners. exists e. split; [done |]. split; [| done].
      destruct (groupMaximum_spec this es e) as (_ & Hge & Hat).
      assert (Hmx : groupMaximum this es e = m).
      { specialize (Hge e m He Hel eq_refl Hm).
        destruct Hat as [Hat | (e' & He' & Hel' & Hk & Hm')]; [lia |].
        assert (Hg : sameGroup e' e = true) by (apply groupKey_sameGroup; auto).
        specialize (Hub e' _ He' Hel' Hg Hm'). lia. }
      unfold isTop. rewrite Hel, Hm, Hmx.
      rewrite bool_decide_eq_true_2 by done.
      assert (validated (validateEntry this e) = true) as ->
        by (destruct (validateEntry this e); [discriminate | done]).
      cbn. apply negb_true_iff, Z.eqb_neq. lia.
  - intros w Hw. apply elem_of_getWinners in Hw as (e & He & Ht & ->).
    apply isTop_matches in Ht as (Hel & Hm & H1). cbn. done.
  - intros e1 e2 m1 m2 He2 Hel2 Hg Hm1 Hm2 Hlt w Hw Hwe.
    apply elem_of_getWinners in Hw as (e & He & Ht & ->). cbn in Hwe. subst e.
    apply isTop_matches in Ht as (_ & Hmx & _).
    rewrite Hm1 in Hmx. injection Hmx as Hmx.
    destruct (groupMaximum_spec this es e1) as (_ & Hge & _).
    specialize (Hge e2 m2 He2 Hel2 (Hkey e1 e2 He He2 Hg) Hm2). lia.
  - intros p. by apply getWinners_of_platform.
Qed.

Lemma getWinners_top_of_each_group_witness :
  List.filter (fun w => streq (platform (w_entry w)) (js "POPLUZ"))
    (getWinners (setResults 0 [result6903])
       [threeMatches; fourMatches; threeOnOtherPlatform])
  ≡ₚ getWinners (setResults 0 [result6903])
       (List.filter (fun e => streq (platform e) (js "POPLUZ"))
          [threeMatches; fourMatches; threeOnOtherPlatform]).
Proof.
  refine (proj2 (proj2 (proj2 (proj2
            (getWinners_top_of_each_group (setResults 0 [result6903])
               [threeMatches; fourMatches; threeOnOtherPlatform] _))))
            (js "POPLUZ")).
  repeat constructor.
Defined.

(** Two entries of two groups, on the platforms POP_N1 and POP, whose
    keys are one text: the code takes them for one group, and the three
    matches that are the maximum of the first group are not returned. *)
Definition lowLineInPlatform : Entry :=
  {| platform := js "POP_N1"; gameId := js "1111111111"; contest := js "6903";
     drawDate := js "15/12/2025"; chosenNumbers := [7; 12; 33; 2; 1];
     status := Some (js "VALID"); csvStatus := None;
     validity := None; invalidReasonCode := None |}.

Definition lowLineInContest : Entry :=
  {| platform := js "POP"; gameId := js "2222222222"; contest := js "N1_6903";
     drawDate := js "15/12/2025"; chosenNumbers := [7; 12; 33; 48; 1];
     status := Some (js "VALID"); csvStatus := None;
     validity := None; invalidReasonCode := None |}.

Definition resultN1 : ResultInput :=
  {| in_contest := js "N1_6903"; in_drawDate := js "15/12/2025";
     in_winningNumbers := [7; 12; 33; 48; 80] |}.

Example low_line_joins_two_groups :
  sameGroup lowLineInPlatform lowLineInContest = false
  /\ groupKey lowLineInPlatform = groupKey lowLineInContest
  /\ matches (validateEntry (setResults 0 [result6903; resultN1]) lowLineInPlatform)
     = Some 3
  /\ matches (validateEntry (setResults 0 [result6903; resultN1]) lowLineInContest)
     = Some 4
  /\ map w_entry
       (getWinners (setResults 0 [result6903; resultN1])
          [lowLineInPlatform; lowLineInContest])
     = [lowLineInContest].
Proof. repeat split; vm_compute; reflexivity. Qed.

(** *** The order of the winners *)

(** The array [winners] as the loop over the groups leaves it, before
    it is sorted. *)
Definition collected (this : ContestResults) (es : list Entry) : list Winner :=
  flat_map groupWinners (map snd (groupEntries this (List.filter isEligible es))).

(** The winner is of contest [c] with [m] matches. *)
Definition tiedAt (c : jsstring) (m : Z) (w : Winner) : bool :=
  streq (contest (w_entry w)) c && bool_decide (matches (w_validation w) = Some m).

(** The sort is stable: elements that the comparison function takes for
    equal keep their order. *)
Lemma filter_insert_sorted {A : Type} (comparefn : A -> A -> Z) (p : A -> bool)
    (x : A) (l : list A) :
  (forall y, y ∈ l -> p x = true -> p y = true -> comparefn x y <= 0) ->
  List.filter p (insert_sorted comparefn x l)
  = if p x then x :: List.filter p l else List.filter p l.
Proof.
  induction l as [| y l IH]; intros H; cbn [insert_sorted List.filter].
  - by destruct (p x).
  - destruct (comparefn x y <=? 0) eqn:E; cbn [List.filter]; [done |].
    rewrite IH by (intros z Hz; apply H; by right).
    destruct (p x) eqn:Ex, (p y) eqn:Ey; try done.
    apply Z.leb_gt in E. specialize (H y ltac:(left) eq_refl Ey). lia.
Qed.

Lemma filter_sort {A : Type} (comparefn : A -> A -> Z) (p : A -> bool) (l : list A) :
  (forall x y, p x = true -> p y = true -> comparefn x y <= 0) ->
  List.filter p (sort comparefn l) = List.filter p l.
Proof.
  intros H. induction l as [| x l IH]; [done |]. cbn [sort List.filter].
  rewrite filter_insert_sorted by (intros y _; apply H). by rewrite IH.
Qed.

Lemma compareWinners_tied (c : jsstring) (m : Z) (a b : Winner) :
  tiedAt c m a = true -> tiedAt c m b = true -> compareWinners a b <= 0.
Proof.
  unfold tiedAt. rewrite !andb_true_iff, !streq_true, !bool_decide_eq_true.
  intros [Ha Hma] [Hb Hmb]. unfold compareWinners. rewrite Ha, Hb, Hma, Hmb.
  assert (streq c c = true) as -> by (by apply streq_true). lia.
Qed.

(** Two contests: two matches in the earlier one, five in the later. *)
Definition twoInFirst : Entry :=
  {| platform := js "POPN1"; gameId := js "1111111111"; contest := js "6903";
     drawDate := js "15/12/2025"; chosenNumbers := [7; 12; 1; 2; 3];
     status := Some (js "VALID"); csvStatus := None;
     validity := None; invalidReasonCode := None |}.

Definition fiveInSecond : Entry :=
  {| platform := js "POPN1"; gameId := js "2222222222"; contest := js "6904";
     drawDate := js "16/12/2025"; chosenNumbers := [5; 6; 7; 8; 9];
     status := Some (js "VALID"); csvStatus := None;
     validity := None; invalidReasonCode := None |}.

Definition result6904 : ResultInput :=
  {| in_contest := js "6904"; in_drawDate := js "16/12/2025";
     in_winningNumbers := [5; 6; 7; 8; 9] |}.

(** Two winners of one contest with three matches each: the one of the
    platform and of the game id that sort last, and the one of those
    that sort first. *)
Definition tiedLast : Entry :=
  {| platform := js "POPN1"; gameId := js "9999999999"; contest := js "6903";
     drawDate := js "15/12/2025"; chosenNumbers := [7; 12; 33; 2; 1];
     status := Some (js "VALID"); csvStatus := None;
     validity := None; invalidReasonCode := None |}.

Definition tiedFirst : Entry :=
  {| platform := js "POPLUZ"; gameId := js "1111111111"; contest := js "6903";
     drawDate := js "15/12/2025"; chosenNumbers := [12; 33; 48; 2; 1];
     status := Some (js "VALID"); csvStatus := None;
     validity := None; invalidReasonCode := None |}.

(** What the claim orders the winners by. *)
Definition sortKeys (w : Winner) : jsstring * option Z * jsstring * jsstring :=
  (contest (w_entry w), matches (w_validation w), platform (w_entry w),
   gameId (w_entry w)).

(** C2, as the claim states it, fails.  The winner with 2 matches comes
    before the adjacent winner with 5, because its contest sorts first.
    And two winners tied on contest and matches are not put in the order
    of platform or game id: they come out in either order, the one their
    entries come in. *)
Lemma fewer_matches_first_across_contests :
  map (fun w => (contest (w_entry w), matches (w_validation w)))
    (getWinners (setResults 0 [result6903; result6904]) [fiveInSecond; twoInFirst])
  = [(js "6903", Some 2); (js "6904", Some 5)]
  /\ map sortKeys (getWinners (setResults 0 [result6903]) [tiedLast; tiedFirst])
     = [(js "6903", Some 3, js "POPN1", js "9999999999");
        (js "6903", Some 3, js "POPLUZ", js "1111111111")]
  /\ map sortKeys (getWinners (setResults 0 [result6903]) [tiedFirst; tiedLast])
     = [(js "6903", Some 3, js "POPLUZ", js "1111111111");
        (js "6903", Some 3, js "POPN1", js "9999999999")].
Proof. repeat split; vm_compute; reflexivity. Qed.

(** C2, amended.  For entries whose platform and contest are not empty
    and hold no low line, the sequence [getWinners] returns is sorted by
    ascending contest identifier (code unit order) first, and by
    descending matches among the winners of one contest.  The sort
    compares nothing else: the winners tied on contest and matches stay
    in the order they have in the array [winners] before the sort,
    whatever their platform and game id. *)
Theorem getWinners_sorted_by_contest_then_matches
    (this : ContestResults) (es : list Entry) :
  Forall (fun e => wellKeyed e = true) es ->
  StronglySorted winnerOrder (getWinners this es)
  /\ Forall isValidated (getWinners this es)
  /\ (forall (c : jsstring) (m : Z),
         List.filter (tiedAt c m) (getWinners this es)
         = List.filter (tiedAt c m) (collected this es)).
Proof.
  intros _.
  assert (Hv : Forall isValidated (getWinners this es)).
  { apply Forall_forall. intros w Hw.
    apply elem_of_getWinners in Hw as (e & _ & Ht & ->).
    unfold isTop in Ht. rewrite !andb_true_iff in Ht.
    destruct Ht as [[[_ Hval] _] _]. exact Hval. }
  split; [| split; [done |]].
  - unfold getWinners in *.
    set (W := flat_map groupWinners _) in *.
    assert (HW : Forall isValidated W)
      by (by rewrite <- (sort_Permutation compareWinners W)).
    apply (StronglySorted_weaken (notAfter compareWinners) winnerOrder isValidated);
      [| done |].
    + intros a b Pa Pb. by apply compareWinners_order.
    + apply (sort_StronglySorted compareWinners isValidated); [| | done].
      * intros a b Pa Pb. rewrite !compareWinners_order by done.
        by apply winnerOrder_total.
      * intros a b c Pa Pb Pc. rewrite !compareWinners_order by done.
        apply winnerOrder_trans.
  - intros c m. unfold getWinners, collected.
    apply filter_sort. apply compareWinners_tied.
Qed.

Lemma getWinners_sorted_by_contest_then_matches_witness :
  StronglySorted winnerOrder
    (getWinners (setResults 0 [result6903; result6904]) [fiveInSecond; twoInFirst])
  /\ List.filter (tiedAt (js "6903") 3)
       (getWinners (setResults 0 [result6903]) [tiedLast; tiedFirst])
     = List.filter (tiedAt (js "6903") 3)
         (collected (setResults 0 [result6903]) [tiedLast; tiedFirst]).
Proof.
  split.
  - refine (proj1 (getWinners_sorted_by_contest_then_matches
                     (setResults 0 [result6903; result6904])
                     [fiveInSecond; twoInFirst] _)).
    repeat constructor.
  - refine (proj2 (proj2 (getWinners_sorted_by_contest_then_matches
                            (setResults 0 [result6903])
                            [tiedLast; tiedFirst] _)) (js "6903") 3).
    repeat constructor.
Defined.

Example four_beats_three_in_one_group :
  map w_entry (getWinners (setResults 0 [result6903]) [threeMatches; fourMatches])
  = [fourMatches].
Proof. vm_compute. reflexivity. Qed.

Example platforms_win_independently :
  map (fun w => (platform (w_entry w), winningLevel w))
    (getWinners (setResults 0 [result6903])
       [threeMatches; fourMatches; threeOnOtherPlatform])
  = [(js "POPN1", 4); (js "POPLUZ", 3)].
Proof. vm_compute. reflexivity. Qed.

Example pending_never_wins :
  getWinners (setResults 0 [result6903]) [pendingEntry] = [].
Proof. vm_compute. reflexivity. Qed.

End ValidatorSpec.

(** ** Properties of the calendar engine *)

Module CalendarSpec.
Import Calendar.
Local Open Scope Z_scope.

(** *** Time values *)

Lemma MonthFromTime_range (t : Z) : 0 <= MonthFromTime t <= 11.
Proof.
  unfold MonthFromTime.
  repeat match goal with |- context [if ?b then _ else _] => destruct b end; lia.
Qed.

(** A date of the month of [t], given by its number, is that many days
    from the day of [t]. *)
Lemma MakeDay_same_month (t k : Z) :
  MakeDay (YearFromTime t) (MonthFromTime t) (DateFromTime t + k) = Day t + k.
Proof.
  pose proof (MonthFromTime_range t) as Hm.
  unfold MakeDay.
  rewrite (Z.div_small (MonthFromTime t) 12), (Z.mod_small (MonthFromTime t) 12) by lia.
  rewrite Z.add_0_r. unfold DateFromTime, DayWithinYear, InLeapYear. lia.
Qed.

Lemma MakeDay_isoDate (t : Z) :
  MakeDay (ds_year (isoDate t)) (ds_month (isoDate t) - 1) (ds_day (isoDate t))
  = Day t.
Proof.
  cbn [isoDate ds_year ds_month ds_day].
  replace (MonthFromTime t + 1 - 1) with (MonthFromTime t) by lia.
  replace (DateFromTime t) with (DateFromTime t + 0) by lia.
  rewrite MakeDay_same_month. lia.
Qed.

Lemma Day_TimeWithinDay (t : Z) : Day t * msPerDay + TimeWithinDay t = t.
Proof. unfold Day, TimeWithinDay, msPerDay. Z.div_mod_to_equations. lia. Qed.

Lemma setUTCDate_days (t k : Z) :
  setUTCDate t (getUTCDate t + k) = t + k * msPerDay.
Proof.
  unfold setUTCDate, getUTCDate, MakeDate. rewrite MakeDay_same_month.
  pose proof (Day_TimeWithinDay t). lia.
Qed.

Lemma MakeTime_parts (t : Z) :
  MakeTime (HourFromTime t) (MinFromTime t) (SecFromTime t) (msFromTime t)
  = TimeWithinDay t.
Proof.
  unfold MakeTime, HourFromTime, MinFromTime, SecFromTime, msFromTime,
    TimeWithinDay, msPerHour, msPerMinute, msPerSecond, msPerDay.
  Z.div_mod_to_equations. lia.
Qed.

Lemma Day_of_day (d r : Z) : 0 <= r < msPerDay -> Day (d * msPerDay + r) = d.
Proof.
  unfold Day, msPerDay. intros H. Z.div_mod_to_equations. lia.
Qed.

(** The ISO date of a time value reads back as its day. *)
Lemma timeValueUTC_isoDate (t h m s : Z) :
  timeValueUTC (isoDate t) h m s = Day t * msPerDay + MakeTime h m s 0.
Proof. unfold timeValueUTC, MakeDate. by rewrite MakeDay_isoDate. Qed.

Lemma timeValueBRT_isoDate (t h m s : Z) :
  timeValueBRT (isoDate t) h m s
  = Day t * msPerDay + MakeTime h m s 0 + 3 * msPerHour.
Proof. unfold timeValueBRT, MakeDate. by rewrite MakeDay_isoDate. Qed.

Lemma getBrazilDateString_isoDate (t : Z) :
  getBrazilDateString t = isoDate (t - 3 * msPerHour).
Proof. reflexivity. Qed.

(** *** Hosts *)

(** The zone America/Sao_Paulo stands at UTC-3 (as it has since it gave
    up daylight saving time). *)
Definition SaoPauloAtUTCminus3 (host : Host) : Prop :=
  forall t, saoPauloOffset host t = - (3 * msPerHour).

(** The local zone of the host keeps one offset. *)
Definition LocalZoneFixed (host : Host) : Prop :=
  exists c, forall t isUTC, LocalTZA host t isUTC = c.

(** A host in Brasília. *)
Definition brasilia : Host :=
  {| saoPauloOffset := fun _ => - (3 * msPerHour);
     LocalTZA := fun _ _ => - (3 * msPerHour) |}.

Lemma brasilia_SaoPaulo : SaoPauloAtUTCminus3 brasilia.
Proof. intros t. reflexivity. Qed.

Lemma brasilia_LocalZoneFixed : LocalZoneFixed brasilia.
Proof. exists (- (3 * msPerHour)). reflexivity. Qed.

Lemma setDate_days (host : Host) (t k : Z) :
  LocalZoneFixed host ->
  setDate host t (getDate host t + k) = t + k * msPerDay.
Proof.
  intros [c Hc]. unfold setDate, getDate, UTC, LocalTime, MakeDate.
  rewrite MakeDay_same_month, !Hc.
  pose proof (Day_TimeWithinDay (t + c)). lia.
Qed.

Lemma setSeconds_seconds (host : Host) (t k : Z) :
  LocalZoneFixed host ->
  setSeconds host t (getSeconds host t + k) = t + k * msPerSecond.
Proof.
  intros [c Hc]. unfold setSeconds, getSeconds, UTC, LocalTime, MakeDate.
  rewrite !Hc.
  pose proof (MakeTime_parts (t + c)) as Hp.
  pose proof (Day_TimeWithinDay (t + c)) as Hd.
  unfold MakeTime in *. lia.
Qed.

(** *** The civil calendar

    The calendar of the specification, on day numbers (days since the
    epoch): weekday, month (1 to 12) and day of the month of day [d]. *)
Definition civilWeekDay (d : Z) : Z := (d + 4) mod 7.
Definition civilMonth (d : Z) : Z := MonthFromTime (d * msPerDay) + 1.
Definition civilDate (d : Z) : Z := DateFromTime (d * msPerDay).

Definition civilNoDraw (d : Z) : bool :=
  (civilMonth d =? 12) && (civilDate d =? 25)
  || (civilMonth d =? 1) && (civilDate d =? 1).

(** Not a Sunday and not a no-draw day. *)
Definition civilValid (d : Z) : bool :=
  negb (civilWeekDay d =? 0) && negb (civilNoDraw d).

Lemma Day_day_start (t : Z) : Day (Day t * msPerDay) = Day t.
Proof. rewrite <- (Z.add_0_r (Day t * msPerDay)). apply Day_of_day. done. Qed.

Lemma MonthFromTime_day (t : Z) : MonthFromTime t = MonthFromTime (Day t * msPerDay).
Proof.
  unfold MonthFromTime, DayWithinYear, InLeapYear, YearFromTime.
  by rewrite Day_day_start.
Qed.

Lemma DateFromTime_day (t : Z) : DateFromTime t = DateFromTime (Day t * msPerDay).
Proof.
  unfold DateFromTime. rewrite <- MonthFromTime_day.
  unfold DayWithinYear, InLeapYear, YearFromTime.
  by rewrite Day_day_start.
Qed.

(** Where Sao Paulo stands at UTC-3, the functions of the script read
    the civil calendar of the day of [date] in UTC-3. *)
Lemma isNoDrawDay_civil (host : Host) (date : Z) :
  saoPauloOffset host date = - (3 * msPerHour) ->
  isNoDrawDay host date = civilNoDraw (Day (date - 3 * msPerHour)).
Proof.
  intros H. unfold isNoDrawDay, getBrazilMonth, getBrazilDayOfMonth, civilNoDraw,
    civilMonth, civilDate.
  rewrite H. replace (date + - (3 * msPerHour)) with (date - 3 * msPerHour) by lia.
  rewrite <- MonthFromTime_day, <- DateFromTime_day.
  repeat match goal with
         | |- context [?a =? ?b] => destruct (Z.eqb_spec a b)
         end; try reflexivity; lia.
Qed.

Lemma isValidDrawDay_civil (host : Host) (date : Z) :
  saoPauloOffset host date = - (3 * msPerHour) ->
  isValidDrawDay host date = civilValid (Day (date - 3 * msPerHour)).
Proof.
  intros H. unfold isValidDrawDay, civilValid.
  rewrite (isNoDrawDay_civil host date H).
  unfold getBrazilDayOfWeek, WeekDay, civilWeekDay. rewrite H.
  by replace (date + - (3 * msPerHour)) with (date - 3 * msPerHour) by lia.
Qed.

(** *** Years

    [YearFromDay] is the year of the standard: the one whose days
    include [d]. *)

Lemma DayFromYear_succ (y : Z) : DayFromYear (y + 1) = DayFromYear y + DaysInYear y.
Proof.
  unfold DayFromYear, DaysInYear.
  repeat match goal with
         | |- context [?a =? ?b] => destruct (Z.eqb_spec a b)
         end; cbn [negb]; Z.div_mod_to_equations; lia.
Qed.

Lemma YearFromDay_spec (d : Z) :
  DayFromYear (YearFromDay d) <= d < DayFromYear (YearFromDay d + 1).
Proof.
  unfold YearFromDay.
  set (y := 1970 + d * 400 / 146097).
  assert (Hlo : DayFromYear (y - 1) <= d).
  { unfold DayFromYear, y. Z.div_mod_to_equations. lia. }
  assert (Hhi : d < DayFromYear (y + 2)).
  { unfold DayFromYear, y. Z.div_mod_to_equations. lia. }
  replace (y + 2) with (y + 1 + 1) in Hhi by lia.
  destruct (Z.leb_spec (DayFromYear (y + 1)) d); [lia |].
  destruct (Z.ltb_spec d (DayFromYear y)); [| lia].
  replace (y - 1 + 1) with y by lia. lia.
Qed.

Lemma DayFromYear_lt (y1 y2 : Z) : y1 < y2 -> DayFromYear y1 < DayFromYear y2.
Proof. unfold DayFromYear. intros H. Z.div_mod_to_equations. lia. Qed.

Lemma YearFromDay_unique (d y : Z) :
  DayFromYear y <= d < DayFromYear (y + 1) -> YearFromDay d = y.
Proof.
  intros H. pose proof (YearFromDay_spec d) as Hs.
  destruct (Z.lt_trichotomy (YearFromDay d) y) as [Hlt | [Heq | Hgt]]; [| done |].
  - assert (DayFromYear (YearFromDay d + 1) <= DayFromYear y).
    { destruct (decide (YearFromDay d + 1 = y)) as [-> | Hne]; [lia |].
      apply Z.lt_le_incl, DayFromYear_lt. lia. }
    lia.
  - assert (DayFromYear (y + 1) <= DayFromYear (YearFromDay d)).
    { destruct (decide (y + 1 = YearFromDay d)) as [-> | Hne]; [lia |].
      apply Z.lt_le_incl, DayFromYear_lt. lia. }
    lia.
Qed.

Lemma DaysInYear_cases (y : Z) : DaysInYear y = 365 \/ DaysInYear y = 366.
Proof.
  unfold DaysInYear.
  repeat match goal with |- context [if ?b then _ else _] => destruct b end; auto.
Qed.

(** The day within its year of day number [d], and whether that year
    is a leap year (1) or not (0). *)
Definition dayInYear (d : Z) : Z := d - DayFromYear (YearFromDay d).
Definition leapOf (d : Z) : Z := if DaysInYear (YearFromDay d) =? 366 then 1 else 0.

Lemma dayInYear_range (d : Z) : 0 <= dayInYear d < 365 + leapOf d.
Proof.
  pose proof (YearFromDay_spec d) as Hs. rewrite DayFromYear_succ in Hs.
  unfold dayInYear, leapOf.
  destruct (DaysInYear_cases (YearFromDay d)) as [H | H]; rewrite H in *; cbn; lia.
Qed.

Lemma YearFromDay_next (d k : Z) :
  0 <= k -> dayInYear d + k < 365 + leapOf d ->
  YearFromDay (d + k) = YearFromDay d.
Proof.
  intros Hk H. apply YearFromDay_unique.
  pose proof (YearFromDay_spec d) as Hs. rewrite DayFromYear_succ in *.
  unfold dayInYear, leapOf in H.
  destruct (DaysInYear_cases (YearFromDay d)) as [E | E]; rewrite E in *; cbn in H; lia.
Qed.

Lemma civilNoDraw_dayInYear (d : Z) :
  civilNoDraw d = true <-> dayInYear d = 0 \/ dayInYear d = 358 + leapOf d.
Proof.
  pose proof (dayInYear_range d) as Hr.
  unfold civilNoDraw, civilMonth, civilDate, DateFromTime, MonthFromTime,
    DayWithinYear, InLeapYear, YearFromTime.
  rewrite <- (Z.add_0_r (d * msPerDay)), Day_of_day by done.
  fold (dayInYear d) (leapOf d).
  assert (Hl : leapOf d = 0 \/ leapOf d = 1)
    by (unfold leapOf; destruct (_ =? _); auto).
  repeat match goal with
         | |- context [?a <? ?b] => destruct (Z.ltb_spec a b)
         end;
  repeat match goal with
         | |- context [monthStart ?l ?m] =>
             let v := eval cbv [monthStart Z.leb Z.eqb Z.compare Pos.compare
                                  Pos.compare_cont Pos.eqb] in (monthStart l m) in
             change (monthStart l m) with v
         end;
  repeat match goal with
         | |- context [?a =? ?b] => destruct (Z.eqb_spec a b)
         end; cbn; split; intros; try discriminate; try lia.
Qed.

Lemma dayInYear_next (d k : Z) :
  0 <= k -> dayInYear d + k < 365 + leapOf d ->
  dayInYear (d + k) = dayInYear d + k /\ leapOf (d + k) = leapOf d.
Proof.
  intros Hk H. unfold dayInYear, leapOf in *.
  rewrite (YearFromDay_next d k Hk H). lia.
Qed.

Lemma civilNoDraw_apart (d k : Z) :
  1 <= k <= 6 -> civilNoDraw d = true -> civilNoDraw (d + k) = false.
Proof.
  intros Hk Hd. apply civilNoDraw_dayInYear in Hd.
  pose proof (dayInYear_range d) as Hr.
  assert (Hl : leapOf d = 0 \/ leapOf d = 1)
    by (unfold leapOf; destruct (_ =? _); auto).
  destruct (dayInYear_next d k) as [Hn Hln]; [lia | lia |].
  destruct (civilNoDraw (d + k)) eqn:E; [| done].
  apply civilNoDraw_dayInYear in E. lia.
Qed.

Lemma valid_within_3 (d : Z) :
  exists k, 1 <= k <= 3 /\ civilValid (d + k) = true.
Proof.
  pose proof (civilNoDraw_apart (d + 1) 1 ltac:(lia)) as H12.
  pose proof (civilNoDraw_apart (d + 1) 2 ltac:(lia)) as H13.
  pose proof (civilNoDraw_apart (d + 2) 1 ltac:(lia)) as H23.
  replace (d + 1 + 1) with (d + 2) in H12 by lia.
  replace (d + 1 + 2) with (d + 3) in H13 by lia.
  replace (d + 2 + 1) with (d + 3) in H23 by lia.
  destruct (civilValid (d + 1)) eqn:V1; [exists 1; split; [lia | done] |].
  destruct (civilValid (d + 2)) eqn:V2; [exists 2; split; [lia | done] |].
  exists 3. split; [lia |].
  unfold civilValid, civilWeekDay in *.
  destruct (Z.eqb_spec ((d + 1 + 4) mod 7) 0) as [S1 | S1];
    destruct (Z.eqb_spec ((d + 2 + 4) mod 7) 0) as [S2 | S2];
    destruct (Z.eqb_spec ((d + 3 + 4) mod 7) 0) as [S3 | S3];
    try (exfalso; Z.div_mod_to_equations; lia);
    destruct (civilNoDraw (d + 1)), (civilNoDraw (d + 2)), (civilNoDraw (d + 3));
    try (specialize (H12 eq_refl)); try (specialize (H13 eq_refl));
    try (specialize (H23 eq_refl)); try discriminate; try reflexivity.
Qed.

Lemma leapOf_cases (d : Z) : leapOf d = 0 \/ leapOf d = 1.
Proof. unfold leapOf. destruct (_ =? _); auto. Qed.

Lemma DateFromTime_range (t : Z) : 1 <= DateFromTime t <= 31.
Proof.
  rewrite DateFromTime_day.
  pose proof (dayInYear_range (Day t)) as Hr.
  pose proof (leapOf_cases (Day t)) as Hl.
  unfold DateFromTime, MonthFromTime, DayWithinYear, InLeapYear, YearFromTime.
  rewrite Day_day_start.
  fold (dayInYear (Day t)) (leapOf (Day t)).
  repeat match goal with
         | |- context [?a <? ?b] => destruct (Z.ltb_spec a b)
         end;
  repeat match goal with
         | |- context [monthStart ?l ?m] =>
             let v := eval cbv [monthStart Z.leb Z.eqb Z.compare Pos.compare
                                  Pos.compare_cont Pos.eqb] in (monthStart l m) in
             change (monthStart l m) with v
         end; lia.
Qed.

Lemma DayFromYear_le (y1 y2 : Z) : y1 <= y2 -> DayFromYear y1 <= DayFromYear y2.
Proof.
  intros H. destruct (decide (y1 = y2)) as [-> | Hne]; [lia |].
  apply Z.lt_le_incl, DayFromYear_lt. lia.
Qed.

(** *** Date texts that parse *)

(** Day number [d] is a day of the years 1000 to 9999, the years whose
    number prints with four digits: 1 January 1000 to 31 December 9999. *)
Definition fourDigitYear (d : Z) : bool :=
  (DayFromYear 1000 <=? d) && (d <? DayFromYear 10000).

Lemma fourDigitYear_year (d : Z) :
  fourDigitYear d = ((1000 <=? YearFromDay d) && (YearFromDay d <=? 9999)).
Proof.
  pose proof (YearFromDay_spec d) as Hs. unfold fourDigitYear.
  destruct (Z.leb_spec 1000 (YearFromDay d)) as [Hlo | Hlo];
    destruct (Z.leb_spec (YearFromDay d) 9999) as [Hhi | Hhi]; cbn [andb].
  - pose proof (DayFromYear_le 1000 (YearFromDay d) Hlo).
    pose proof (DayFromYear_le (YearFromDay d + 1) 10000 ltac:(lia)).
    apply andb_true_iff. split; [apply Z.leb_le | apply Z.ltb_lt]; lia.
  - pose proof (DayFromYear_le 10000 (YearFromDay d) ltac:(lia)).
    apply andb_false_iff. right. apply Z.ltb_ge. lia.
  - pose proof (DayFromYear_le (YearFromDay d + 1) 1000 ltac:(lia)).
    apply andb_false_iff. left. apply Z.leb_gt. lia.
  - lia.
Qed.

(** The date part of a time value parses when its year has four
    digits. *)
Lemma parses_isoDate (t : Z) : parses (isoDate t) = fourDigitYear (Day t).
Proof.
  rewrite fourDigitYear_year. unfold parses, isoDate, YearFromTime.
  cbn [ds_year ds_month ds_day].
  pose proof (MonthFromTime_range t) as Hm. pose proof (DateFromTime_range t) as Hd.
  assert ((1 <=? MonthFromTime t + 1) = true) as -> by (apply Z.leb_le; lia).
  assert ((MonthFromTime t + 1 <=? 12) = true) as -> by (apply Z.leb_le; lia).
  assert ((1 <=? DateFromTime t) = true) as -> by (apply Z.leb_le; lia).
  assert ((DateFromTime t <=? 31) = true) as -> by (apply Z.leb_le; lia).
  by rewrite !andb_true_r.
Qed.

(** *** isValidDrawDay *)

(** The declaration of [getBrazilDayOfWeek] that the script replaces
    computes the weekday of the day in UTC-3, except in the years 0 to
    99, which [Date.UTC] takes for 1900 to 1999. *)
Lemma getBrazilDayOfWeek_replaced_weekday (date : Z) :
  ~ (0 <= year (getBrazilDateComponents date) <= 99) ->
  getBrazilDayOfWeek_replaced date = WeekDay (date - 3 * msPerHour).
Proof.
  unfold getBrazilDayOfWeek_replaced, getBrazilDateComponents, DateUTC.
  cbn [year month day].
  change (3 * 60 * 60 * 1000) with (3 * msPerHour).
  set (t := date - 3 * msPerHour). intros Hy.
  assert (((0 <=? YearFromTime t) && (YearFromTime t <=? 99)) = false) as ->.
  { apply andb_false_iff.
    destruct (Z.leb_spec 0 (YearFromTime t)); [right; apply Z.leb_gt; lia | by left]. }
  replace (MonthFromTime t + 1 - 1) with (MonthFromTime t) by lia.
  replace (DateFromTime t) with (DateFromTime t + 0) by lia.
  rewrite MakeDay_same_month. unfold WeekDay, MakeDate.
  rewrite Day_of_day by done. by rewrite Z.add_0_r.
Qed.

(** A host with the clocks Sao Paulo kept in the summer of 2018 to
    2019: daylight saving time, UTC-2, from 4 November 2018 (03:00 UTC) to
    17 February 2019 (02:00 UTC), and UTC-3 outside it. *)
Definition saoPauloSummer2018 : Host :=
  {| saoPauloOffset := fun t =>
       if (1541300400000 <=? t) && (t <? 1550368800000)
       then - (2 * msPerHour) else - (3 * msPerHour);
     LocalTZA := fun _ _ => - (3 * msPerHour) |}.

(** C8, as the claim states it, fails: at 2018-12-30T02:30:00Z the
    civil day in the fixed UTC-3 calendar is Saturday 29 December 2018,
    neither a Sunday nor a day without draw, and [isValidDrawDay] is
    false: in the zone America/Sao_Paulo, then at UTC-2, it is Sunday the
    30th. *)
Lemma isValidDrawDay_in_daylight_saving_time :
  let date := 1546137000000 in
  let c := getBrazilDateComponents date in
  (year c, month c, day c) = (2018, 12, 29)
  /\ WeekDay (date - 3 * msPerHour) = 6
  /\ saoPauloOffset saoPauloSummer2018 date = - (2 * msPerHour)
  /\ getBrazilDayOfWeek saoPauloSummer2018 date = 0
  /\ isValidDrawDay saoPauloSummer2018 date = false.
Proof. vm_compute. done. Qed.

(** C8, amended.  At every date at which the zone America/Sao_Paulo
    stands at UTC-3, [isValidDrawDay] is false exactly when the civil
    day of the date in UTC-3 is a Sunday, December 25 or January 1,
    whatever the year, and true on every other date; December 24 and
    December 31, the early-draw days, are valid unless they fall on a
    Sunday. *)
Theorem isValidDrawDay_sundays_and_closures (host : Host) (date : Z) :
  saoPauloOffset host date = - (3 * msPerHour) ->
  let c := getBrazilDateComponents date in
  let weekday := WeekDay (date - 3 * msPerHour) in
  (isValidDrawDay host date = false
   <-> weekday = 0 \/ (month c = 12 /\ day c = 25) \/ (month c = 1 /\ day c = 1))
  /\ (isValidDrawDay host date = true
      <-> weekday <> 0 /\ ~ (month c = 12 /\ day c = 25)
          /\ ~ (month c = 1 /\ day c = 1))
  /\ (month c = 12 -> day c = 24 \/ day c = 31 -> weekday <> 0 ->
      isValidDrawDay host date = true
      /\ isEarlyDrawDay host date = true
      /\ getDrawTimeHour host date = 17).
Proof.
  intros H c weekday.
  unfold getDrawTimeHour, isValidDrawDay, isEarlyDrawDay, isNoDrawDay,
    getBrazilDayOfWeek, getBrazilMonth, getBrazilDayOfMonth.
  rewrite H.
  replace (date + - (3 * msPerHour)) with (date - 3 * msPerHour) by lia.
  subst c weekday. unfold getBrazilDateComponents. cbn [month day].
  change (3 * 60 * 60 * 1000) with (3 * msPerHour).
  set (t := date - 3 * msPerHour).
  repeat match goal with
         | |- context [?a =? ?b] => destruct (Z.eqb_spec a b)
         end; cbn; repeat split; intros; try discriminate; try lia.
Qed.

(** Christmas day of 2025 at noon in Brasília, a Thursday. *)
Definition christmas2025 : Z :=
  timeValueBRT {| ds_year := 2025; ds_month := 12; ds_day := 25 |} 12 0 0.

Lemma isValidDrawDay_sundays_and_closures_witness :
  isValidDrawDay brasilia christmas2025 = false
  /\ isValidDrawDay brasilia CONCURSO_REFERENCE_date = true.
Proof.
  split.
  - apply (proj1 (isValidDrawDay_sundays_and_closures brasilia christmas2025 eq_refl)).
    right. left. vm_compute. split; reflexivity.
  - apply (proj1 (proj2 (isValidDrawDay_sundays_and_closures brasilia
                           CONCURSO_REFERENCE_date eq_refl))).
    vm_compute. repeat split; [intros H | intros [_ H] | intros [H _]]; discriminate.
Defined.

(** *** calculateConcurso *)

(** The day number of the reference date, 2025-12-15. *)
Definition referenceDay : Z := 20437.

(** The civil day in UTC-3 of an instant, as a day number. *)
Definition civilDay (t : Z) : Z := Day (t - 3 * msPerHour).

(** The day number a date text stands for. *)
Definition textDay (s : DateString) : Z :=
  MakeDay (ds_year s) (ds_month s - 1) (ds_day s).

(** The text [YYYY-MM-DD] of day number [d]. *)
Definition dateText (d : Z) : DateString := isoDate (d * msPerDay).

(** The day the argument of [calculateConcurso] stands for. *)
Definition targetDay (drawDate : DateInput) : Z :=
  match drawDate with
  | StringInput s => textDay s
  | DateObject t => civilDay t
  end.

(** The date text [calculateConcurso] and [buildScheduleForDate] read
    from their argument. *)
Definition dateTextOf (drawDate : DateInput) : DateString :=
  match drawDate with
  | StringInput s => s
  | DateObject t => getBrazilDateString t
  end.

(** The number of days of a month, 1 to 12. *)
Definition daysInMonth (year month : Z) : Z :=
  if month =? 2 then (if DaysInYear year =? 366 then 29 else 28)
  else if (month =? 4) || (month =? 6) || (month =? 9) || (month =? 11) then 30
  else 31.

(** The text names a day of the calendar in a year of four digits. *)
Definition realDate (s : DateString) : bool :=
  parses s && (ds_day s <=? daysInMonth (ds_year s) (ds_month s)).

(** A date the script reads the same in every engine: a [Date] of the
    years 1000 to 9999 in Brasília, or a text that names a day of the
    calendar in such a year. *)
Definition wellFormed (drawDate : DateInput) : bool :=
  match drawDate with
  | StringInput s => realDate s
  | DateObject t => fourDigitYear (civilDay t)
  end.

(** Day [d] is a valid draw day: what the walk asks of noon of that day
    in Brasília. *)
Definition isDrawDay (host : Host) (d : Z) : bool :=
  isValidDrawDay host (d * msPerDay + 15 * msPerHour).

(** The number of valid draw days among the [n] days from day [a] on:
    a, a+1, ..., a+n-1. *)
Definition countDrawDays (host : Host) (a n : Z) : Z :=
  Z.of_nat (length (List.filter (isDrawDay host) (seqZ a n))).

Lemma MakeDay_textDay (s : DateString) :
  MakeDay (ds_year s) (ds_month s - 1) (ds_day s) = textDay s.
Proof. reflexivity. Qed.

Lemma textDay_dateText (d : Z) : textDay (dateText d) = d.
Proof.
  unfold textDay, dateText. rewrite MakeDay_isoDate.
  rewrite <- (Z.add_0_r (d * msPerDay)). by apply Day_of_day.
Qed.

Lemma textDay_getBrazilDateString (t : Z) :
  textDay (getBrazilDateString t) = civilDay t.
Proof. unfold textDay. rewrite getBrazilDateString_isoDate. apply MakeDay_isoDate. Qed.

Lemma parses_getBrazilDateString (t : Z) :
  parses (getBrazilDateString t) = fourDigitYear (civilDay t).
Proof. rewrite getBrazilDateString_isoDate. apply parses_isoDate. Qed.

Lemma parses_dateText (d : Z) : parses (dateText d) = fourDigitYear d.
Proof.
  unfold dateText. rewrite parses_isoDate.
  rewrite <- (Z.add_0_r (d * msPerDay)). by rewrite Day_of_day.
Qed.

Lemma wellFormed_parses (drawDate : DateInput) :
  wellFormed drawDate = true -> parses (dateTextOf drawDate) = true.
Proof.
  destruct drawDate as [s | t]; cbn [wellFormed dateTextOf].
  - unfold realDate. by intros [H _]%andb_true_iff.
  - by rewrite parses_getBrazilDateString.
Qed.

Lemma countDrawDays_nil (host : Host) (a : Z) : countDrawDays host a 0 = 0.
Proof. reflexivity. Qed.

Lemma countDrawDays_first (host : Host) (a n : Z) :
  0 <= n ->
  countDrawDays host a (n + 1)
  = (if isDrawDay host a then 1 else 0) + countDrawDays host (a + 1) n.
Proof.
  intros Hn. unfold countDrawDays. rewrite seqZ_cons by lia.
  replace (Z.succ a) with (a + 1) by lia.
  replace (Z.pred (n + 1)) with n by lia.
  cbn [List.filter]. destruct (isDrawDay host a); cbn [length]; lia.
Qed.

Lemma countDrawDays_app (host : Host) (a n m : Z) :
  0 <= n -> 0 <= m ->
  countDrawDays host a (n + m)
  = countDrawDays host a n + countDrawDays host (a + n) m.
Proof.
  intros Hn Hm. unfold countDrawDays.
  rewrite seqZ_app, List.filter_app, length_app by lia. lia.
Qed.

Lemma countDrawDays_one (host : Host) (a : Z) :
  countDrawDays host a 1 = if isDrawDay host a then 1 else 0.
Proof.
  unfold countDrawDays. rewrite seqZ_cons, seqZ_nil by lia.
  cbn [List.filter]. by destruct (isDrawDay host a).
Qed.

Lemma countDrawDays_last (host : Host) (a n : Z) :
  0 <= n ->
  countDrawDays host a (n + 1)
  = countDrawDays host a n + (if isDrawDay host (a + n) then 1 else 0).
Proof.
  intros Hn. rewrite countDrawDays_app by lia. f_equal.
  apply countDrawDays_one.
Qed.

Lemma countDrawDays_nonneg (host : Host) (a n : Z) : 0 <= countDrawDays host a n.
Proof. unfold countDrawDays. lia. Qed.

(** Noon UTC of day [d], where the cursor of the walk stands. *)
Definition noonUTC (d : Z) : Z := d * msPerDay + 12 * msPerHour.

Lemma Day_noonUTC (d : Z) : Day (noonUTC d) = d.
Proof. apply Day_of_day. done. Qed.

(** One turn of the loop: the cursor moves a day and the loop asks
    about noon in Brasília of the day it reaches. *)
Lemma walk_turn (d step : Z) :
  setUTCDate (noonUTC d) (getUTCDate (noonUTC d) + step) = noonUTC (d + step)
  /\ timeValueBRT (isoDate (noonUTC (d + step))) 12 0 0
     = (d + step) * msPerDay + 15 * msPerHour.
Proof.
  split.
  - rewrite setUTCDate_days. unfold noonUTC. lia.
  - rewrite timeValueBRT_isoDate, Day_noonUTC. unfold MakeTime, msPerHour. lia.
Qed.

(** The walk forward over [n] days, with fuel for them. *)
Lemma walk_forward (host : Host) (n fuel : nat) (d daysDiff : Z) :
  (n <= fuel)%nat ->
  walk host fuel 1 (noonUTC (d + Z.of_nat n)) (noonUTC d) daysDiff
  = Some (daysDiff + countDrawDays host (d + 1) (Z.of_nat n)).
Proof.
  revert fuel d daysDiff. induction n as [| n IH]; intros fuel d daysDiff Hf.
  - replace (d + Z.of_nat 0) with d by lia.
    destruct fuel; cbn [walk]; rewrite Z.ltb_irrefl, andb_false_r; cbn;
      rewrite countDrawDays_nil; f_equal; lia.
  - destruct fuel as [| fuel]; [lia |]. cbn [walk].
    assert ((noonUTC d <? noonUTC (d + Z.of_nat (S n))) = true) as ->
      by (apply Z.ltb_lt; unfold noonUTC, msPerDay; lia).
    cbn [Z.eqb Pos.eqb andb orb].
    destruct (walk_turn d 1) as [-> ->].
    replace (d + Z.of_nat (S n)) with (d + 1 + Z.of_nat n) by lia.
    rewrite IH by lia. f_equal.
    replace (Z.of_nat (S n)) with (Z.of_nat n + 1) by lia.
    rewrite countDrawDays_first by lia.
    fold (isDrawDay host (d + 1)).
    replace (d + 1 + 1) with (d + 1 + 1) by lia.
    destruct (isDrawDay host (d + 1)); lia.
Qed.

(** The walk backward over [n] days. *)
Lemma walk_backward (host : Host) (n fuel : nat) (d daysDiff : Z) :
  (n <= fuel)%nat ->
  walk host fuel (-1) (noonUTC (d - Z.of_nat n)) (noonUTC d) daysDiff
  = Some (daysDiff + countDrawDays host (d - Z.of_nat n) (Z.of_nat n)).
Proof.
  revert fuel d daysDiff. induction n as [| n IH]; intros fuel d daysDiff Hf.
  - replace (d - Z.of_nat 0) with d by lia.
    destruct fuel; cbn [walk]; rewrite Z.ltb_irrefl, !andb_false_r; cbn;
      rewrite countDrawDays_nil; f_equal; lia.
  - destruct fuel as [| fuel]; [lia |]. cbn [walk].
    assert ((noonUTC (d - Z.of_nat (S n)) <? noonUTC d) = true) as ->
      by (apply Z.ltb_lt; unfold noonUTC, msPerDay; lia).
    cbn [Z.eqb Pos.eqb andb orb].
    destruct (walk_turn d (-1)) as [-> ->].
    replace (d - Z.of_nat (S n)) with (d + -1 - Z.of_nat n) by lia.
    rewrite IH by lia. f_equal.
    replace (Z.of_nat (S n)) with (Z.of_nat n + 1) by lia.
    rewrite countDrawDays_last by lia.
    fold (isDrawDay host (d + -1)).
    replace (d + -1 - Z.of_nat n + Z.of_nat n) with (d + -1) by lia.
    destruct (isDrawDay host (d + -1)); lia.
Qed.

(** The concurso of day [D] in closed form: the reference number plus
    the valid draw days after the reference day up to and including [D],
    or minus the valid draw days from [D] itself up to the day before the
    reference day. *)
Definition concursoOfDay (host : Host) (D : Z) : Z :=
  if referenceDay <=? D
  then CONCURSO_REFERENCE_number + countDrawDays host (referenceDay + 1) (D - referenceDay)
  else CONCURSO_REFERENCE_number - countDrawDays host D (referenceDay - D).

Lemma calculateConcurso_closed_form (host : Host) (drawDate : DateInput) :
  parses (dateTextOf drawDate) = true ->
  calculateConcurso host drawDate = Some (concursoOfDay host (targetDay drawDate)).
Proof.
  intros Hp. unfold calculateConcurso. fold (dateTextOf drawDate).
  assert (Ht : parseUTC (dateTextOf drawDate) 12 0 0
               = Some (noonUTC (targetDay drawDate))).
  { unfold parseUTC. rewrite Hp. f_equal.
    unfold timeValueUTC, MakeDate, noonUTC.
    change (MakeTime 12 0 0 0) with (12 * msPerHour).
    destruct drawDate as [s | t]; cbn [targetDay dateTextOf];
      rewrite MakeDay_textDay; [| rewrite textDay_getBrazilDateString]; lia. }
  assert (Hr : parseUTC (getBrazilDateString CONCURSO_REFERENCE_date) 12 0 0
               = Some (noonUTC referenceDay)) by (vm_compute; reflexivity).
  rewrite Ht, Hr, !Day_noonUTC. set (D := targetDay drawDate).
  unfold concursoOfDay. fold D.
  destruct (Z.leb_spec referenceDay D) as [Hle | Hlt].
  - assert ((noonUTC referenceDay <=? noonUTC D) = true) as ->
      by (apply Z.leb_le; unfold noonUTC, msPerDay; lia).
    replace (noonUTC D) with (noonUTC (referenceDay + Z.of_nat (Z.abs_nat (D - referenceDay))))
      by (f_equal; lia).
    rewrite walk_forward by lia.
    f_equal. replace (Z.of_nat (Z.abs_nat (D - referenceDay))) with (D - referenceDay) by lia.
    lia.
  - assert ((noonUTC referenceDay <=? noonUTC D) = false) as ->
      by (apply Z.leb_gt; unfold noonUTC, msPerDay; lia).
    replace (noonUTC D) with (noonUTC (referenceDay - Z.of_nat (Z.abs_nat (D - referenceDay))))
      by (f_equal; lia).
    rewrite walk_backward by lia.
    f_equal.
    replace (referenceDay - Z.of_nat (Z.abs_nat (D - referenceDay))) with D by lia.
    replace (Z.of_nat (Z.abs_nat (D - referenceDay))) with (referenceDay - D) by lia.
    lia.
Qed.

(** A date text that does not parse gives the reference number,
    whatever day it was meant for. *)
Lemma calculateConcurso_invalid_date (host : Host) (drawDate : DateInput) :
  parses (dateTextOf drawDate) = false ->
  calculateConcurso host drawDate = Some 6903.
Proof.
  intros Hp. unfold calculateConcurso. fold (dateTextOf drawDate).
  unfold parseUTC at 2. rewrite Hp.
  by destruct (parseUTC (getBrazilDateString CONCURSO_REFERENCE_date) 12 0 0).
Qed.

(** The day after the reference date and the Saturday before it. *)
Definition december16 : DateString := {| ds_year := 2025; ds_month := 12; ds_day := 16 |}.
Definition december13 : DateString := {| ds_year := 2025; ds_month := 12; ds_day := 13 |}.

(** C3, as the claim states it, fails: no day lies strictly between the
    reference date and the day after it, and the concurso of that day is
    6904, not 6903; the only day strictly between Saturday the 13th and
    the reference date is a Sunday, and the concurso of the 13th is
    6902. *)
Lemma target_day_is_counted :
  targetDay (StringInput december16) = referenceDay + 1
  /\ countDrawDays brasilia (referenceDay + 1) 0 = 0
  /\ calculateConcurso brasilia (StringInput december16) = Some 6904
  /\ targetDay (StringInput december13) = referenceDay - 2
  /\ countDrawDays brasilia (referenceDay - 1) 1 = 0
  /\ calculateConcurso brasilia (StringInput december13) = Some 6902.
Proof. repeat split; vm_compute; reflexivity. Qed.

(** C3, amended.  For every target date that is well formed (a [Date]
    of the years 1000 to 9999, or a text that names a day of the
    calendar in such a year) the concurso is the reference number plus
    the number of valid draw days after the reference day up to and
    including the target day (target on or after the reference), or
    minus the number of valid draw days from the target day itself up to
    the day before the reference day (target before the reference): the
    walk leaves out the reference day and counts the target day. *)
Theorem calculateConcurso_counts_target_day (host : Host) (drawDate : DateInput) :
  wellFormed drawDate = true ->
  let D := targetDay drawDate in
  (referenceDay <= D ->
   calculateConcurso host drawDate
   = Some (6903 + countDrawDays host (referenceDay + 1) (D - referenceDay)))
  /\ (D < referenceDay ->
      calculateConcurso host drawDate
      = Some (6903 - countDrawDays host D (referenceDay - D))).
Proof.
  intros Hwf D. apply wellFormed_parses in Hwf.
  rewrite calculateConcurso_closed_form by done. fold D. unfold concursoOfDay.
  split; intros H.
  - apply Z.leb_le in H. by rewrite H.
  - apply Z.leb_gt in H. by rewrite H.
Qed.

Lemma calculateConcurso_counts_target_day_witness :
  calculateConcurso brasilia (StringInput december16)
  = Some (6903 + countDrawDays brasilia (referenceDay + 1) 1)
  /\ calculateConcurso brasilia (StringInput december13)
     = Some (6903 - countDrawDays brasilia (referenceDay - 2) 2).
Proof.
  split.
  - apply (proj1 (calculateConcurso_counts_target_day brasilia (StringInput december16)
                    eq_refl)).
    vm_compute. discriminate.
  - apply (proj2 (calculateConcurso_counts_target_day brasilia (StringInput december13)
                    eq_refl)).
    vm_compute. reflexivity.
Defined.

(** *** The sequence of valid draw days *)

(** [d'] is the first valid draw day after day [d]. *)
Definition nextDrawDay (host : Host) (d d' : Z) : Prop :=
  d < d' /\ isDrawDay host d' = true
  /\ forall x, d < x < d' -> isDrawDay host x = false.

(** [D] is the [N]th valid draw day strictly after day [r]. *)
Inductive NthDrawDayAfter (host : Host) (r : Z) : nat -> Z -> Prop :=
| nth_first (d : Z) :
    nextDrawDay host r d -> NthDrawDayAfter host r 1 d
| nth_next (n : nat) (d d' : Z) :
    NthDrawDayAfter host r n d -> nextDrawDay host d d' ->
    NthDrawDayAfter host r (S n) d'.

Lemma countDrawDays_none (host : Host) (a : Z) (n : nat) :
  (forall x, a <= x < a + Z.of_nat n -> isDrawDay host x = false) ->
  countDrawDays host a (Z.of_nat n) = 0.
Proof.
  induction n as [| n IH]; intros H; [done |].
  replace (Z.of_nat (S n)) with (Z.of_nat n + 1) by lia.
  rewrite countDrawDays_last, IH by (try lia; intros x Hx; apply H; lia).
  rewrite H by lia. done.
Qed.

Lemma countDrawDays_next (host : Host) (d d' : Z) :
  nextDrawDay host d d' -> countDrawDays host (d + 1) (d' - d) = 1.
Proof.
  intros (Hlt & Hv & Hn).
  replace (d' - d) with (Z.of_nat (Z.to_nat (d' - d - 1)) + 1) by lia.
  rewrite countDrawDays_last, countDrawDays_none by (try lia; intros x Hx; apply Hn; lia).
  replace (d + 1 + Z.of_nat (Z.to_nat (d' - d - 1))) with d' by lia.
  by rewrite Hv.
Qed.

Lemma NthDrawDayAfter_count (host : Host) (r : Z) (N : nat) (D : Z) :
  NthDrawDayAfter host r N D ->
  r < D /\ countDrawDays host (r + 1) (D - r) = Z.of_nat N.
Proof.
  induction 1 as [d Hd | n d d' Hn [Hlt IH] Hd].
  - split; [apply Hd | by apply countDrawDays_next].
  - pose proof Hd as (Hdd & _). split; [lia |].
    replace (d' - r) with ((d - r) + (d' - d)) by lia.
    rewrite countDrawDays_app, IH by lia.
    replace (r + 1 + (d - r)) with (d + 1) by lia.
    rewrite (countDrawDays_next host d d' Hd). lia.
Qed.

Lemma countDrawDays_positive (host : Host) (a n x : Z) :
  a <= x < a + n -> isDrawDay host x = true -> 1 <= countDrawDays host a n.
Proof.
  intros Hx Hv.
  replace n with ((x - a) + (1 + (a + n - x - 1))) by lia.
  rewrite countDrawDays_app by lia.
  replace (a + (x - a)) with x by lia.
  rewrite (countDrawDays_app host x 1) by lia.
  rewrite countDrawDays_one, Hv.
  pose proof (countDrawDays_nonneg host a (x - a)).
  pose proof (countDrawDays_nonneg host (x + 1) (a + n - x - 1)). lia.
Qed.

(** The concurso grows from one valid draw day to a later one. *)
Lemma concursoOfDay_increasing (host : Host) (A B : Z) :
  isDrawDay host A = true -> isDrawDay host B = true -> A < B ->
  concursoOfDay host A < concursoOfDay host B.
Proof.
  intros HA HB Hlt. unfold concursoOfDay, CONCURSO_REFERENCE_number.
  destruct (Z.leb_spec referenceDay A) as [HrA | HrA];
    destruct (Z.leb_spec referenceDay B) as [HrB | HrB]; try lia.
  - replace (B - referenceDay) with ((A - referenceDay) + (B - A)) by lia.
    rewrite countDrawDays_app by lia.
    pose proof (countDrawDays_positive host
                  (referenceDay + 1 + (A - referenceDay)) (B - A) B ltac:(lia) HB).
    lia.
  - pose proof (countDrawDays_positive host A (referenceDay - A) A ltac:(lia) HA).
    pose proof (countDrawDays_nonneg host (referenceDay + 1) (B - referenceDay)).
    lia.
  - replace (referenceDay - A) with ((B - A) + (referenceDay - B)) by lia.
    rewrite countDrawDays_app by lia.
    pose proof (countDrawDays_positive host A (B - A) A ltac:(lia) HA).
    replace (A + (B - A)) with B by lia. lia.
Qed.

(** Among the days before day [a], going back [m] days, either none
    is a valid draw day or one of them is the last one. *)
Lemma last_draw_day_before (host : Host) (m : nat) (a : Z) :
  (forall x, a - Z.of_nat m <= x < a -> isDrawDay host x = false)
  \/ exists x, a - Z.of_nat m <= x < a /\ isDrawDay host x = true
               /\ forall y, x < y < a -> isDrawDay host y = false.
Proof.
  induction m as [| m IH].
  - left. intros x Hx. lia.
  - destruct IH as [Hnone | (x & Hx & Hv & Hafter)].
    + destruct (isDrawDay host (a - Z.of_nat (S m))) eqn:E.
      * right. exists (a - Z.of_nat (S m)). split; [lia |]. split; [done |].
        intros y Hy. apply Hnone. lia.
      * left. intros x Hx.
        destruct (decide (x = a - Z.of_nat (S m))) as [-> | Hne]; [done |].
        apply Hnone. lia.
    + right. exists x. split; [lia |]. done.
Qed.

(** Every valid draw day after day [r] is the [N]th one for some [N]
    from 1 on. *)
Lemma NthDrawDayAfter_of_draw_day (host : Host) (r : Z) (n : nat) (D : Z) :
  r < D <= r + Z.of_nat n -> isDrawDay host D = true ->
  exists N, (1 <= N)%nat /\ NthDrawDayAfter host r N D.
Proof.
  revert D. induction n as [| n IH]; intros D HD Hv; [lia |].
  destruct (last_draw_day_before host (Z.to_nat (D - r - 1)) D)
    as [Hnone | (x & Hx & Hxv & Hafter)].
  - exists 1%nat. split; [lia |]. apply nth_first. split; [lia |]. split; [done |].
    intros y Hy. apply Hnone. lia.
  - destruct (IH x ltac:(lia) Hxv) as (N & HN & Hnth).
    exists (S N). split; [lia |]. apply (nth_next host r N x D); [done |].
    split; [lia |]. split; [done | exact Hafter].
Qed.

(** Monday 3 January 10000 at noon in Brasília. *)
Definition january10000 : Z := (DayFromYear 10000 + 2) * msPerDay + 15 * msPerHour.

(** C4, as the claim states it, fails: 3 January 10000 is a valid draw
    day after the reference date, the [N]th one for some [N] from 1 on;
    [getBrazilDateString] writes its year with five digits, the text does
    not parse, and [calculateConcurso] returns 6903, not 6903 + N. *)
Lemma nth_draw_day_of_year_10000 :
  getBrazilDateString january10000
  = {| ds_year := 10000; ds_month := 1; ds_day := 3 |}
  /\ parseUTC (getBrazilDateString january10000) 12 0 0 = None
  /\ calculateConcurso brasilia (DateObject january10000) = Some 6903
  /\ exists N : nat,
       (1 <= N)%nat
       /\ NthDrawDayAfter brasilia referenceDay N (targetDay (DateObject january10000))
       /\ calculateConcurso brasilia (DateObject january10000)
          <> Some (6903 + Z.of_nat N).
Proof.
  assert (Hc : calculateConcurso brasilia (DateObject january10000) = Some 6903)
    by (apply calculateConcurso_invalid_date; vm_compute; reflexivity).
  split; [vm_compute; reflexivity |]. split; [vm_compute; reflexivity |].
  split; [exact Hc |].
  replace (targetDay (DateObject january10000)) with 2932899
    by (vm_compute; reflexivity).
  destruct (NthDrawDayAfter_of_draw_day brasilia referenceDay
              (Z.to_nat (2932899 - referenceDay)) 2932899) as (N & HN & Hnth).
  - unfold referenceDay. lia.
  - vm_compute. reflexivity.
  - exists N. split; [done |]. split; [done |]. rewrite Hc. intros [= H]. lia.
Qed.

(** C4, amended.  [calculateConcurso] of the reference date is the
    reference number 6903; of the [N]th valid draw day after the
    reference date, given as a well-formed date (a [Date] of the years
    1000 to 9999, or a text that names a day of the calendar in such a
    year), it is 6903 + N; from a valid draw day to a later one, both
    well formed, it grows strictly; and of a date whose text does not
    parse it is 6903. *)
Theorem concurso_of_nth_draw_day (host : Host) :
  calculateConcurso host (DateObject CONCURSO_REFERENCE_date) = Some 6903
  /\ (forall (N : nat) (D : Z) (drawDate : DateInput),
         wellFormed drawDate = true ->
         NthDrawDayAfter host referenceDay N D ->
         targetDay drawDate = D ->
         calculateConcurso host drawDate = Some (6903 + Z.of_nat N))
  /\ (forall A B : DateInput,
         wellFormed A = true -> wellFormed B = true ->
         isDrawDay host (targetDay A) = true ->
         isDrawDay host (targetDay B) = true ->
         targetDay A < targetDay B ->
         exists a b, calculateConcurso host A = Some a
                     /\ calculateConcurso host B = Some b /\ a < b)
  /\ (forall drawDate : DateInput,
         parses (dateTextOf drawDate) = false ->
         calculateConcurso host drawDate = Some 6903).
Proof.
  split; [| split; [| split]].
  - rewrite calculateConcurso_closed_form by (vm_compute; reflexivity).
    replace (targetDay (DateObject CONCURSO_REFERENCE_date)) with referenceDay
      by (vm_compute; reflexivity).
    reflexivity.
  - intros N D drawDate Hwf HN HD. apply wellFormed_parses in Hwf.
    rewrite calculateConcurso_closed_form, HD by done.
    apply NthDrawDayAfter_count in HN as [Hlt Hc].
    unfold concursoOfDay, CONCURSO_REFERENCE_number.
    assert ((referenceDay <=? D) = true) as -> by (apply Z.leb_le; lia).
    by rewrite Hc.
  - intros A B HwA HwB HA HB Hlt.
    apply wellFormed_parses in HwA, HwB.
    rewrite !calculateConcurso_closed_form by done.
    eexists _, _. split; [done |]. split; [done |].
    by apply concursoOfDay_increasing.
  - apply calculateConcurso_invalid_date.
Qed.

Lemma concurso_of_nth_draw_day_witness :
  calculateConcurso brasilia (StringInput december16) = Some (6903 + Z.of_nat 1).
Proof.
  apply (proj1 (proj2 (concurso_of_nth_draw_day brasilia)) 1%nat (referenceDay + 1)).
  - reflexivity.
  - apply nth_first. split; [lia |]. split; [vm_compute; reflexivity |].
    intros x Hx. lia.
  - vm_compute. reflexivity.
Defined.

(** Where Sao Paulo stands at UTC-3 a day is a valid draw day when the
    civil calendar says so, and every day has a next valid draw day, at
    most three days later. *)
Lemma isDrawDay_civil (host : Host) (d : Z) :
  SaoPauloAtUTCminus3 host -> isDrawDay host d = civilValid d.
Proof.
  intros H. unfold isDrawDay. rewrite isValidDrawDay_civil by apply H.
  f_equal. replace (d * msPerDay + 15 * msPerHour - 3 * msPerHour)
    with (d * msPerDay + 12 * msPerHour) by lia.
  by apply Day_of_day.
Qed.

Lemma nextDrawDay_exists (host : Host) (d : Z) :
  SaoPauloAtUTCminus3 host -> exists d', nextDrawDay host d d' /\ d' <= d + 3.
Proof.
  intros H. unfold nextDrawDay.
  destruct (valid_within_3 d) as (k & Hk & Hv).
  destruct (civilValid (d + 1)) eqn:V1.
  { exists (d + 1). rewrite isDrawDay_civil by done.
    repeat split; [lia | done | intros x Hx; lia | lia]. }
  destruct (civilValid (d + 2)) eqn:V2.
  { exists (d + 2). rewrite isDrawDay_civil by done.
    repeat split; [lia | done | | lia].
    intros x Hx. assert (x = d + 1) as -> by lia. by rewrite isDrawDay_civil. }
  exists (d + 3). rewrite isDrawDay_civil by done.
  assert (k = 3) as -> by (destruct (decide (k = 1)) as [-> | ?];
                           [congruence |];
                           destruct (decide (k = 2)) as [-> | ?];
                           [congruence | lia]).
  repeat split; [lia | done | | lia].
  intros x Hx. rewrite isDrawDay_civil by done.
  destruct (decide (x = d + 1)) as [-> | ?]; [done |].
  assert (x = d + 2) as -> by lia. done.
Qed.

(** Every [N] from 1 on has its [N]th valid draw day after the
    reference. *)
Lemma NthDrawDayAfter_exists (host : Host) (N : nat) :
  SaoPauloAtUTCminus3 host ->
  exists D, NthDrawDayAfter host referenceDay (S N) D.
Proof.
  intros H. induction N as [| N [D IH]].
  - destruct (nextDrawDay_exists host referenceDay H) as (d & Hd & _).
    exists d. by apply nth_first.
  - destruct (nextDrawDay_exists host D H) as (d & Hd & _).
    exists d. by apply (nth_next host referenceDay (S N) D d).
Qed.

(** *** getCurrentDrawSchedule *)

(** Midnight in Brasília at the start of day [d]. *)
Definition midnightBRT (d : Z) : Z := d * msPerDay + 3 * msPerHour.

(** The schedule of day [d]: the draw date is the midnight that opens
    the day in Brasília, the cutoff one second before the draw hour, and
    registration starts at 20:00:01 of the evening before. *)
Definition scheduleOfDay (host : Host) (d : Z) : DrawSchedule :=
  {| drawDate := midnightBRT d;
     drawHour := getDrawTimeHour host (midnightBRT d);
     cutoff := midnightBRT d + getDrawTimeHour host (midnightBRT d) * msPerHour
               - msPerSecond;
     regStart := Some (midnightBRT (d - 1) + 20 * msPerHour + msPerSecond) |}.

(** Day [d] is a valid draw day: what [getCurrentDrawSchedule] asks of
    its midnight in Brasília. *)
Definition isOpenDay (host : Host) (d : Z) : bool :=
  isValidDrawDay host (midnightBRT d).

(** [d'] is the next valid draw day strictly after day [d]. *)
Definition nextOpenDay (host : Host) (d d' : Z) : Prop :=
  d < d' /\ isOpenDay host d' = true
  /\ forall x, d < x < d' -> isOpenDay host x = false.

(** The instants at which every date text the schedule is made of
    parses: the day in Brasília, the day before it (for [regStart]) and
    the three days after it (for the scan) are days of the years 1000 to
    9999, which is from 2 January 1000 to 28 December 9999. *)
Definition inFourDigitYears (t : Z) : bool :=
  fourDigitYear (civilDay t - 1) && fourDigitYear (civilDay t + 3).

Lemma fourDigitYear_between (a b x : Z) :
  fourDigitYear a = true -> fourDigitYear b = true -> a <= x <= b ->
  fourDigitYear x = true.
Proof.
  unfold fourDigitYear. rewrite !andb_true_iff, !Z.leb_le, !Z.ltb_lt. lia.
Qed.

Lemma inFourDigitYears_days (t x : Z) :
  inFourDigitYears t = true -> civilDay t - 1 <= x <= civilDay t + 3 ->
  fourDigitYear x = true.
Proof.
  unfold inFourDigitYears. intros [H1 H2]%andb_true_iff Hx.
  by apply (fourDigitYear_between (civilDay t - 1) (civilDay t + 3)).
Qed.

Lemma isoDate_day (t : Z) : isoDate t = isoDate (Day t * msPerDay).
Proof.
  unfold isoDate. rewrite <- MonthFromTime_day, <- DateFromTime_day.
  unfold YearFromTime. by rewrite Day_day_start.
Qed.

Lemma getBrazilDateString_civilDay (t : Z) :
  getBrazilDateString t = dateText (civilDay t).
Proof. rewrite getBrazilDateString_isoDate. unfold dateText, civilDay. apply isoDate_day. Qed.

Lemma civilDay_midnightBRT (d r : Z) :
  0 <= r < msPerDay -> civilDay (midnightBRT d + r) = d.
Proof.
  intros Hr. unfold civilDay, midnightBRT.
  replace (d * msPerDay + 3 * msPerHour + r - 3 * msPerHour) with (d * msPerDay + r) by lia.
  by apply Day_of_day.
Qed.

Lemma timeValueBRT_dateText (d h m s : Z) :
  timeValueBRT (dateText d) h m s = midnightBRT d + MakeTime h m s 0.
Proof.
  unfold dateText. rewrite timeValueBRT_isoDate.
  rewrite <- (Z.add_0_r (d * msPerDay)), Day_of_day by done.
  unfold midnightBRT. lia.
Qed.

Lemma parseBRT_dateText (d h m s : Z) :
  fourDigitYear d = true ->
  parseBRT (dateText d) h m s = Some (midnightBRT d + MakeTime h m s 0).
Proof.
  intros Hd. unfold parseBRT. by rewrite parses_dateText, Hd, timeValueBRT_dateText.
Qed.

Lemma parseBRT_invalid (s : DateString) (h m sec : Z) :
  parses s = false -> parseBRT s h m sec = None.
Proof. intros H. unfold parseBRT. by rewrite H. Qed.

Lemma isOpenDay_civil (host : Host) (d : Z) :
  SaoPauloAtUTCminus3 host -> isOpenDay host d = civilValid d.
Proof.
  intros H. unfold isOpenDay. rewrite isValidDrawDay_civil by apply H.
  f_equal. unfold midnightBRT.
  replace (d * msPerDay + 3 * msPerHour - 3 * msPerHour) with (d * msPerDay + 0) by lia.
  by apply Day_of_day.
Qed.

Lemma nextOpenDay_exists (host : Host) (d : Z) :
  SaoPauloAtUTCminus3 host -> exists d', nextOpenDay host d d' /\ d' <= d + 3.
Proof.
  intros H. destruct (nextDrawDay_exists host d H) as (d' & (Hlt & Hv & Hn) & Hle).
  exists d'. split; [| done]. split; [done |].
  rewrite isOpenDay_civil, <- (isDrawDay_civil host) by done. split; [done |].
  intros x Hx. rewrite isOpenDay_civil, <- (isDrawDay_civil host) by done. by apply Hn.
Qed.

Lemma getDrawTimeHour_cases (host : Host) (date : Z) :
  getDrawTimeHour host date = 17 \/ getDrawTimeHour host date = 20.
Proof. unfold getDrawTimeHour. destruct (isEarlyDrawDay host date); auto. Qed.

(** On a host whose local zone keeps one offset, [buildScheduleForDate]
    of the text of day [d] returns the schedule of day [d], when the day
    and the day before it are days of four-digit years. *)
Lemma buildScheduleForDate_dateText (host : Host) (d : Z) :
  LocalZoneFixed host ->
  fourDigitYear (d - 1) = true -> fourDigitYear d = true ->
  buildScheduleForDate host (StringInput (dateText d)) = Some (scheduleOfDay host d).
Proof.
  intros HL Hb Hd. unfold scheduleOfDay, buildScheduleForDate.
  rewrite (parseBRT_dateText d 0 0 0 Hd). cbv beta iota zeta.
  change (MakeTime 0 0 0 0) with 0. rewrite Z.add_0_r.
  set (h := getDrawTimeHour host (midnightBRT d)).
  rewrite (parseBRT_dateText d h 0 0 Hd). cbv beta iota zeta.
  replace (getSeconds host (midnightBRT d + MakeTime h 0 0 0) - 1)
    with (getSeconds host (midnightBRT d + MakeTime h 0 0 0) + -1) by lia.
  replace (getDate host (midnightBRT d) - 1)
    with (getDate host (midnightBRT d) + -1) by lia.
  rewrite setSeconds_seconds, setDate_days by done.
  replace (midnightBRT d + -1 * msPerDay) with (midnightBRT (d - 1) + 0)
    by (unfold midnightBRT; lia).
  rewrite getBrazilDateString_civilDay, civilDay_midnightBRT by done.
  rewrite (parseBRT_dateText (d - 1) 20 0 1 Hb).
  do 2 f_equal;
    match goal with
    | |- Some _ = Some _ => f_equal
    | |- _ => idtac
    end; unfold MakeTime, msPerMinute; lia.
Qed.

(** The text of a day beyond the four-digit years: the draw date is
    Invalid Date and [buildScheduleForDate] throws. *)
Lemma buildScheduleForDate_invalid_date (host : Host) (dateInput : DateInput) :
  parses (dateTextOf dateInput) = false ->
  buildScheduleForDate host dateInput = None.
Proof.
  intros H. unfold buildScheduleForDate. fold (dateTextOf dateInput).
  by rewrite parseBRT_invalid.
Qed.

Lemma scheduleOfDay_cutoff_day (host : Host) (d delta : Z) :
  - msPerHour <= delta <= msPerHour ->
  civilDay (cutoff (scheduleOfDay host d) + delta) = d.
Proof.
  intros Hd. cbn [cutoff scheduleOfDay].
  replace (midnightBRT d + getDrawTimeHour host (midnightBRT d) * msPerHour
           - msPerSecond + delta)
    with (midnightBRT d + (getDrawTimeHour host (midnightBRT d) * msPerHour
                           - msPerSecond + delta)) by lia.
  apply civilDay_midnightBRT.
  destruct (getDrawTimeHour_cases host (midnightBRT d)) as [-> | ->];
    unfold msPerHour, msPerSecond, msPerDay in *; lia.
Qed.

(** [getCurrentDrawSchedule] in terms of the day of [spNow]. *)
Lemma getCurrentDrawSchedule_today (host : Host) (spNow : Z) :
  LocalZoneFixed host ->
  fourDigitYear (civilDay spNow - 1) = true ->
  fourDigitYear (civilDay spNow) = true ->
  getCurrentDrawSchedule host spNow =
  if isOpenDay host (civilDay spNow)
     && (spNow <=? cutoff (scheduleOfDay host (civilDay spNow)))
  then Some {| schedule := scheduleOfDay host (civilDay spNow); now := spNow |}
  else scanNext host 14 (midnightBRT (civilDay spNow)) spNow.
Proof.
  intros HL Hb Hd. unfold getCurrentDrawSchedule.
  rewrite getBrazilDateString_civilDay, (parseBRT_dateText _ 0 0 0 Hd).
  cbv beta iota zeta.
  rewrite (buildScheduleForDate_dateText host _ HL Hb Hd).
  change (MakeTime 0 0 0 0) with 0. rewrite Z.add_0_r.
  unfold isOpenDay.
  generalize (scanNext host 14 (midnightBRT (civilDay spNow)) spNow).
  generalize (scheduleOfDay host (civilDay spNow)).
  intros sched scan.
  destruct (isValidDrawDay host (midnightBRT (civilDay spNow))); [| reflexivity].
  cbn [andb]. destruct (spNow <=? cutoff sched); reflexivity.
Qed.

(** One turn of the scan from the midnight of day [d]. *)
Lemma scanNext_turn (host : Host) (n : nat) (d spNow : Z) :
  LocalZoneFixed host ->
  fourDigitYear d = true -> fourDigitYear (d + 1) = true ->
  scanNext host (S n) (midnightBRT d) spNow
  = if isOpenDay host (d + 1)
    then Some {| schedule := scheduleOfDay host (d + 1); now := spNow |}
    else scanNext host n (midnightBRT (d + 1)) spNow.
Proof.
  intros HL Hd Hd1. cbn [scanNext].
  rewrite setDate_days by done.
  replace (midnightBRT d + 1 * msPerDay) with (midnightBRT (d + 1) + 0)
    by (unfold midnightBRT; lia).
  rewrite getBrazilDateString_civilDay, civilDay_midnightBRT by done.
  rewrite (parseBRT_dateText _ 0 0 0 Hd1). cbv beta iota zeta.
  rewrite buildScheduleForDate_dateText
    by (try done; by replace (d + 1 - 1) with d by lia).
  change (MakeTime 0 0 0 0) with 0. rewrite !Z.add_0_r.
  reflexivity.
Qed.

(** The scan from the midnight of day [d] stops at the first valid draw
    day among the next [n] days. *)
Lemma scanNext_first (host : Host) (n : nat) (d j spNow : Z) :
  LocalZoneFixed host ->
  fourDigitYear d = true -> fourDigitYear (d + j) = true ->
  1 <= j <= Z.of_nat n ->
  (forall i, 1 <= i < j -> isOpenDay host (d + i) = false) ->
  isOpenDay host (d + j) = true ->
  scanNext host n (midnightBRT d) spNow
  = Some {| schedule := scheduleOfDay host (d + j); now := spNow |}.
Proof.
  intros HL. revert d j.
  induction n as [| n IH]; intros d j Hd Hdj Hj Hclosed Hopen; [lia |].
  assert (Hd1 : fourDigitYear (d + 1) = true)
    by (apply (fourDigitYear_between d (d + j)); [done | done | lia]).
  rewrite scanNext_turn by done.
  destruct (decide (j = 1)) as [-> | Hne].
  - by rewrite Hopen.
  - rewrite (Hclosed 1) by lia.
    replace (d + j) with (d + 1 + (j - 1)) in * by lia.
    apply IH; [done | done | lia | | done].
    intros i Hi. replace (d + 1 + i) with (d + (i + 1)) by lia. apply Hclosed. lia.
Qed.

(** The scan gives up when none of the [n] days is a valid draw day. *)
Lemma scanNext_none (host : Host) (n : nat) (d spNow : Z) :
  LocalZoneFixed host ->
  fourDigitYear d = true -> fourDigitYear (d + Z.of_nat n) = true ->
  (forall i, 1 <= i <= Z.of_nat n -> isOpenDay host (d + i) = false) ->
  scanNext host n (midnightBRT d) spNow = None.
Proof.
  intros HL. revert d. induction n as [| n IH]; intros d Hd Hdn Hclosed; [done |].
  assert (Hd1 : fourDigitYear (d + 1) = true)
    by (apply (fourDigitYear_between d (d + Z.of_nat (S n))); [done | done | lia]).
  rewrite scanNext_turn by done.
  rewrite (Hclosed 1) by lia.
  apply IH; [done | by replace (d + 1 + Z.of_nat n) with (d + Z.of_nat (S n)) by lia |].
  intros i Hi. replace (d + 1 + i) with (d + (i + 1)) by lia.
  apply Hclosed. lia.
Qed.

(** On a host where Sao Paulo stands at UTC-3 the scan of 14 days always
    finds the next valid draw day. *)
Lemma scanNext_finds_next (host : Host) (d spNow : Z) :
  SaoPauloAtUTCminus3 host -> LocalZoneFixed host ->
  fourDigitYear d = true -> fourDigitYear (d + 3) = true ->
  exists D', nextOpenDay host d D' /\ D' <= d + 3
             /\ scanNext host 14 (midnightBRT d) spNow
                = Some {| schedule := scheduleOfDay host D'; now := spNow |}.
Proof.
  intros HS HL Hd Hd3.
  destruct (nextOpenDay_exists host d HS) as (D' & Hnext & Hle).
  exists D'. split; [done |]. split; [lia |].
  destruct Hnext as (Hlt & Hopen & Hclosed).
  replace D' with (d + (D' - d)) by lia.
  apply scanNext_first; [done | done | | lia | |].
  - apply (fourDigitYear_between d (d + 3)); [done | done | lia].
  - intros i Hi. apply Hclosed. lia.
  - by replace (d + (D' - d)) with D' by lia.
Qed.

(** On a host where Sao Paulo stands at UTC-3 and the local zone keeps
    one offset, in the years of four digits: for
    every valid draw day D, one second before the cutoff of D
    [getCurrentDrawSchedule] returns the schedule of D, and one second
    after it the schedule of the next valid draw day strictly after D;
    and when today is not a valid draw day the scan starts at the day
    after today and returns the schedule of the next valid draw day, at
    most three days later. *)
Theorem getCurrentDrawSchedule_around_cutoff (host : Host) (D : Z) :
  SaoPauloAtUTCminus3 host -> LocalZoneFixed host ->
  fourDigitYear (D - 1) = true -> fourDigitYear (D + 3) = true ->
  isOpenDay host D = true ->
  let own := scheduleOfDay host D in
  getCurrentDrawSchedule host (cutoff own - msPerSecond)
  = Some {| schedule := own; now := cutoff own - msPerSecond |}
  /\ (exists D',
         nextOpenDay host D D' /\ D' <= D + 3
         /\ getCurrentDrawSchedule host (cutoff own + msPerSecond)
            = Some {| schedule := scheduleOfDay host D';
                      now := cutoff own + msPerSecond |})
  /\ (forall spNow,
         inFourDigitYears spNow = true ->
         isOpenDay host (civilDay spNow) = false ->
         getCurrentDrawSchedule host spNow
         = scanNext host 14 (midnightBRT (civilDay spNow)) spNow
         /\ exists D',
             nextOpenDay host (civilDay spNow) D' /\ D' <= civilDay spNow + 3
             /\ getCurrentDrawSchedule host spNow
                = Some {| schedule := scheduleOfDay host D'; now := spNow |}).
Proof.
  intros HS HL Hb Ha Hopen own. subst own.
  set (own := scheduleOfDay host D).
  assert (HD : fourDigitYear D = true)
    by (apply (fourDigitYear_between (D - 1) (D + 3)); [done | done | lia]).
  split; [| split].
  - replace (cutoff own - msPerSecond) with (cutoff own + - msPerSecond) by lia.
    pose proof (scheduleOfDay_cutoff_day host D (- msPerSecond)
                  ltac:(unfold msPerSecond, msPerHour; lia)) as Hday.
    fold own in Hday.
    rewrite getCurrentDrawSchedule_today by (try done; by rewrite Hday).
    rewrite Hday. fold own. rewrite Hopen.
    assert ((cutoff own + - msPerSecond <=? cutoff own) = true) as ->
      by (apply Z.leb_le; unfold msPerSecond; lia).
    reflexivity.
  - destruct (scanNext_finds_next host D (cutoff own + msPerSecond) HS HL HD Ha)
      as (D' & Hnext & Hle & Hscan).
    exists D'. split; [done |]. split; [done |].
    pose proof (scheduleOfDay_cutoff_day host D msPerSecond
                  ltac:(unfold msPerSecond, msPerHour; lia)) as Hday.
    fold own in Hday.
    rewrite getCurrentDrawSchedule_today by (try done; by rewrite Hday).
    rewrite Hday. fold own. rewrite Hopen.
    assert ((cutoff own + msPerSecond <=? cutoff own) = false) as ->
      by (apply Z.leb_gt; unfold msPerSecond; lia).
    exact Hscan.
  - intros spNow Hrange Hclosed.
    assert (Hb' : fourDigitYear (civilDay spNow - 1) = true)
      by (apply (inFourDigitYears_days spNow); [done | lia]).
    assert (Hd' : fourDigitYear (civilDay spNow) = true)
      by (apply (inFourDigitYears_days spNow); [done | lia]).
    assert (Ha' : fourDigitYear (civilDay spNow + 3) = true)
      by (apply (inFourDigitYears_days spNow); [done | lia]).
    assert (Hget : getCurrentDrawSchedule host spNow
                   = scanNext host 14 (midnightBRT (civilDay spNow)) spNow).
    { rewrite getCurrentDrawSchedule_today, Hclosed by done. reflexivity. }
    split; [exact Hget |].
    destruct (scanNext_finds_next host (civilDay spNow) spNow HS HL Hd' Ha')
      as (D' & Hnext & Hle & Hscan).
    exists D'. split; [done |]. split; [done |]. by rewrite Hget.
Qed.

Lemma getCurrentDrawSchedule_around_cutoff_witness :
  getCurrentDrawSchedule brasilia
    (cutoff (scheduleOfDay brasilia referenceDay) - msPerSecond)
  = Some {| schedule := scheduleOfDay brasilia referenceDay;
            now := cutoff (scheduleOfDay brasilia referenceDay) - msPerSecond |}.
Proof.
  exact (proj1 (getCurrentDrawSchedule_around_cutoff brasilia referenceDay
                  brasilia_SaoPaulo brasilia_LocalZoneFixed eq_refl eq_refl eq_refl)).
Defined.

Example schedule_before_and_after_cutoff :
  let cut := cutoff (scheduleOfDay brasilia referenceDay) in
  cut = 1765839599000
  /\ option_map (fun c => drawDate (schedule c))
       (getCurrentDrawSchedule brasilia (cut - msPerSecond))
     = Some (midnightBRT referenceDay)
  /\ option_map (fun c => drawDate (schedule c))
       (getCurrentDrawSchedule brasilia (cut + msPerSecond))
     = Some (midnightBRT (referenceDay + 1)).
Proof. vm_compute. done. Qed.

(** *** A host that changes its clocks

    [getCurrentDrawSchedule] moves its probe with [setDate], in the
    local time of the host. *)

(** The clocks of Lisbon in 2026: summer time, UTC+1, from 29 March
    01:00 UTC to 25 October 01:00 UTC, and UTC outside it.  For a local
    time the offset is the one in force at that local time. *)
Definition lisbon : Host :=
  {| saoPauloOffset := fun _ => - (3 * msPerHour);
     LocalTZA := fun t isUTC =>
       let shift := if isUTC then 0 else msPerHour in
       if (1774746000000 + shift <=? t) && (t <? 1792890000000 + shift)
       then msPerHour else 0 |}.

(** Saturday 28 March 2026. *)
Definition march28 : Z := 20540.

(** C7.  The claim fails on this host.  Saturday 28 March 2026 is a
    valid draw day with its cutoff at 19:59:59 in Brasília, and the next
    valid draw day is Monday the 30th.  One second after the cutoff
    [getCurrentDrawSchedule] returns the schedule of the 28th again,
    whose cutoff has passed: the night from the 28th to the 29th has 23
    hours in Lisbon, [setDate] moves the probe from 03:00 UTC of the 28th
    to 02:00 UTC of the 29th, and that instant is still the 28th in
    Brasília. *)
Theorem closed_schedule_returned_in_lisbon :
  let own := scheduleOfDay lisbon march28 in
  let now := cutoff own + msPerSecond in
  isOpenDay lisbon march28 = true
  /\ buildScheduleForDate lisbon (StringInput (dateText march28)) = Some own
  /\ cutoff own = 1774738799000
  /\ isOpenDay lisbon (march28 + 1) = false
  /\ isOpenDay lisbon (march28 + 2) = true
  /\ setDate lisbon (midnightBRT march28) (getDate lisbon (midnightBRT march28) + 1)
     = midnightBRT (march28 + 1) - msPerHour
  /\ getBrazilDateString (midnightBRT (march28 + 1) - msPerHour) = dateText march28
  /\ getCurrentDrawSchedule lisbon now = Some {| schedule := own; now := now |}
  /\ cutoff own < now.
Proof. vm_compute. repeat split; congruence. Qed.

End CalendarSpec.

(** ** Properties of the callers of the calendar engine *)

Module CalendarMoreSpec.
Import Calendar CalendarSpec CalendarMore.
Local Open Scope Z_scope.

(** The instants of day [d] in Brasília. *)
Lemma civilDay_bounds (t : Z) :
  midnightBRT (civilDay t) <= t < midnightBRT (civilDay t) + msPerDay.
Proof.
  unfold midnightBRT, civilDay, Day, msPerDay, msPerHour.
  Z.div_mod_to_equations. lia.
Qed.



Lemma cutoff_scheduleOfDay (host : Host) (d : Z) :
  cutoff (scheduleOfDay host d)
  = midnightBRT d + drawHour (scheduleOfDay host d) * msPerHour - msPerSecond
  /\ (drawHour (scheduleOfDay host d) = 17 \/ drawHour (scheduleOfDay host d) = 20).
Proof.
  cbn [cutoff drawHour scheduleOfDay].
  split; [done | apply getDrawTimeHour_cases].
Qed.

(** The day whose schedule [getCurrentDrawSchedule] returns. *)
Lemma current_schedule_day (host : Host) (spNow : Z) :
  SaoPauloAtUTCminus3 host -> LocalZoneFixed host ->
  inFourDigitYears spNow = true ->
  exists D,
    getCurrentDrawSchedule host spNow
    = Some {| schedule := scheduleOfDay host D; now := spNow |}
    /\ civilDay spNow <= D <= civilDay spNow + 3
    /\ isOpenDay host D = true
    /\ spNow <= cutoff (scheduleOfDay host D)
    /\ forall x, civilDay spNow <= x < D ->
                 isOpenDay host x = false \/ cutoff (scheduleOfDay host x) < spNow.
Proof.
  intros HS HL Hrange.
  assert (Hb : fourDigitYear (civilDay spNow - 1) = true)
    by (apply (inFourDigitYears_days spNow); [done | lia]).
  assert (Hd : fourDigitYear (civilDay spNow) = true)
    by (apply (inFourDigitYears_days spNow); [done | lia]).
  assert (Ha : fourDigitYear (civilDay spNow + 3) = true)
    by (apply (inFourDigitYears_days spNow); [done | lia]).
  rewrite getCurrentDrawSchedule_today by done.
  set (today := civilDay spNow) in *.
  pose proof (civilDay_bounds spNow) as Hnow. fold today in Hnow.
  destruct (isOpenDay host today
            && (spNow <=? cutoff (scheduleOfDay host today))) eqn:E.
  - apply andb_true_iff in E as [Hopen Hle]. apply Z.leb_le in Hle.
    exists today. repeat split; [lia | lia | done | done |]. intros x Hx. lia.
  - destruct (nextOpenDay_exists host today HS) as (D & (Hlt & Hopen & Hclosed) & Hle).
    exists D. split.
    { replace D with (today + (D - today)) by lia.
      apply scanNext_first; [done | done | | lia | |].
      - apply (fourDigitYear_between today (today + 3)); [done | done | lia].
      - intros i Hi. apply Hclosed. lia.
      - by replace (today + (D - today)) with D by lia. }
    split; [lia |]. split; [done |]. split.
    + destruct (cutoff_scheduleOfDay host D) as [-> Hh].
      unfold midnightBRT in *. unfold msPerDay, msPerHour, msPerSecond in *.
      destruct Hh as [-> | ->]; lia.
    + intros x Hx. destruct (decide (x = today)) as [-> | Hne].
      * apply andb_false_iff in E as [E | E]; [by left | right].
        apply Z.leb_gt in E. done.
      * left. apply Hclosed. lia.
Qed.

(** X1.  On a host where Sao Paulo stands at UTC-3 and the local zone
    keeps one offset, [getCurrentDrawSchedule] does not throw in the years
    of four digits: at every instant from 2 January 1000 to 28 December
    9999 it returns the schedule of a valid draw day whose cutoff has not
    passed, today or one of the next three days, and that day is the
    earliest one from today on that is a valid draw day with its cutoff
    still ahead.  At an instant whose year in Brasília has not four
    digits, the year 10000 for one, it throws. *)
Theorem getCurrentDrawSchedule_first_open (host : Host) (spNow : Z) :
  SaoPauloAtUTCminus3 host -> LocalZoneFixed host ->
  (inFourDigitYears spNow = true ->
  exists D,
    getCurrentDrawSchedule host spNow
    = Some {| schedule := scheduleOfDay host D; now := spNow |}
    /\ civilDay spNow <= D <= civilDay spNow + 3
    /\ isOpenDay host D = true
    /\ spNow <= cutoff (scheduleOfDay host D)
    /\ forall x, civilDay spNow <= x -> isOpenDay host x = true ->
                 spNow <= cutoff (scheduleOfDay host x) -> D <= x)
  /\ (fourDigitYear (civilDay spNow) = false ->
      getCurrentDrawSchedule host spNow = None).
Proof.
  intros HS HL. split.
  - intros Hrange.
    destruct (current_schedule_day host spNow HS HL Hrange)
      as (D & Hget & HD & Hopen & Hcut & Hfirst).
    exists D. repeat split; [done | lia | lia | done | done |].
    intros x Hx Hxo Hxc.
    destruct (Z.le_gt_cases D x) as [? | Hlt]; [done |].
    destruct (Hfirst x ltac:(lia)) as [H | H]; [congruence | lia].
  - intros Hout. unfold getCurrentDrawSchedule.
    by rewrite parseBRT_invalid by (by rewrite parses_getBrazilDateString).
Qed.

Lemma getCurrentDrawSchedule_first_open_witness :
  exists D,
    getCurrentDrawSchedule brasilia CONCURSO_REFERENCE_date
    = Some {| schedule := scheduleOfDay brasilia D; now := CONCURSO_REFERENCE_date |}
    /\ civilDay CONCURSO_REFERENCE_date <= D <= civilDay CONCURSO_REFERENCE_date + 3.
Proof.
  destruct (proj1 (getCurrentDrawSchedule_first_open brasilia CONCURSO_REFERENCE_date
                     brasilia_SaoPaulo brasilia_LocalZoneFixed) eq_refl)
    as (D & H1 & H2 & _).
  exists D. split; [exact H1 | exact H2].
Defined.

(** *** getNextValidDrawDate *)

(** Midnight of day [x] in a local zone that stands [c] milliseconds
    from UTC. *)
Definition localMidnight (c x : Z) : Z := x * msPerDay - c.

Lemma Day_shift (x r : Z) : Day (x * msPerDay + r) = x + Day r.
Proof. unfold Day. rewrite Z.add_comm, Z.div_add by done. lia. Qed.

Lemma setHours_midnight (host : Host) (c t : Z) :
  (forall t isUTC, LocalTZA host t isUTC = c) ->
  setHours host t 0 0 0 0 = localMidnight c (Day (t + c)).
Proof.
  intros Hc. unfold setHours, UTC, LocalTime, MakeDate, localMidnight.
  rewrite !Hc. change (MakeTime 0 0 0 0) with 0. lia.
Qed.

Lemma localMidnight_next (host : Host) (c x : Z) :
  (forall t isUTC, LocalTZA host t isUTC = c) ->
  setDate host (localMidnight c x) (getDate host (localMidnight c x) + 1)
  = localMidnight c (x + 1).
Proof.
  intros Hc. rewrite setDate_days by (by exists c).
  unfold localMidnight. lia.
Qed.

(** The loop after its first turn: every turn moves to the next local
    midnight before it tests. *)
Lemma probeLoop_later (host : Host) (c : Z) (n : nat) (i x k : Z) :
  (forall t isUTC, LocalTZA host t isUTC = c) ->
  0 < i -> 1 <= k <= Z.of_nat n ->
  (forall j, 1 <= j < k -> isValidDrawDay host (localMidnight c (x + j)) = false) ->
  isValidDrawDay host (localMidnight c (x + k)) = true ->
  probeLoop host n i (localMidnight c x) = Some (localMidnight c (x + k)).
Proof.
  intros Hc. revert i x k.
  induction n as [| n IH]; intros i x k Hi Hk Hclosed Hopen; [lia |].
  cbn [probeLoop].
  assert ((0 <? i) = true) as -> by (apply Z.ltb_lt; lia).
  rewrite localMidnight_next by done.
  destruct (decide (k = 1)) as [-> | Hne].
  - by rewrite Hopen.
  - rewrite (Hclosed 1) by lia.
    replace (x + k) with (x + 1 + (k - 1)) in * by lia.
    apply IH; [lia | lia | | done].
    intros j Hj. replace (x + 1 + j) with (x + (j + 1)) by lia.
    apply Hclosed. lia.
Qed.

Lemma probeLoop_first (host : Host) (c : Z) (n : nat) (x k : Z) :
  (forall t isUTC, LocalTZA host t isUTC = c) ->
  0 <= k < Z.of_nat n ->
  (forall j, 0 <= j < k -> isValidDrawDay host (localMidnight c (x + j)) = false) ->
  isValidDrawDay host (localMidnight c (x + k)) = true ->
  probeLoop host n 0 (localMidnight c x) = Some (localMidnight c (x + k)).
Proof.
  intros Hc Hk Hclosed Hopen. destruct n as [| n]; [lia |].
  cbn [probeLoop]. change (0 <? 0) with false. cbv iota.
  destruct (decide (k = 0)) as [-> | Hne].
  - rewrite Z.add_0_r in Hopen. rewrite Hopen. by rewrite Z.add_0_r.
  - specialize (Hclosed 0 ltac:(lia)) as H0. rewrite Z.add_0_r in H0. rewrite H0.
    apply (probeLoop_later host c n (0 + 1) x k); [done | lia | lia | | done].
    intros j Hj. apply Hclosed. lia.
Qed.

Lemma isValidDrawDay_localMidnight (host : Host) (c x : Z) :
  SaoPauloAtUTCminus3 host ->
  isValidDrawDay host (localMidnight c x)
  = civilValid (x + Day (- c - 3 * msPerHour)).
Proof.
  intros HS. rewrite isValidDrawDay_civil by apply HS. f_equal.
  unfold localMidnight.
  replace (x * msPerDay - c - 3 * msPerHour)
    with (x * msPerDay + (- c - 3 * msPerHour)) by lia.
  apply Day_shift.
Qed.

(** X2.  On a host where Sao Paulo stands at UTC-3 and the local zone
    stands at a fixed offset [c], [getNextValidDrawDate] never throws: it
    returns the first local midnight, from the midnight of the day of
    [fromDate] on (that day included), that falls on a valid draw day,
    and this is at most two days later. *)
Theorem getNextValidDrawDate_first_valid (host : Host) (c fromDate : Z) :
  SaoPauloAtUTCminus3 host ->
  (forall t isUTC, LocalTZA host t isUTC = c) ->
  exists k,
    0 <= k <= 2
    /\ getNextValidDrawDate host fromDate
       = Some (localMidnight c (Day (fromDate + c) + k))
    /\ isValidDrawDay host (localMidnight c (Day (fromDate + c) + k)) = true
    /\ forall j, 0 <= j < k ->
                 isValidDrawDay host (localMidnight c (Day (fromDate + c) + j)) = false.
Proof.
  intros HS Hc. unfold getNextValidDrawDate.
  rewrite (setHours_midnight host c) by done.
  set (x := Day (fromDate + c)).
  set (s := Day (- c - 3 * msPerHour)).
  destruct (valid_within_3 (x + s - 1)) as (k' & Hk' & Hv').
  assert (Hex : exists k, 0 <= k <= 2
                          /\ isValidDrawDay host (localMidnight c (x + k)) = true
                          /\ forall j, 0 <= j < k ->
                                       isValidDrawDay host (localMidnight c (x + j)) = false).
  { destruct (isValidDrawDay host (localMidnight c (x + 0))) eqn:V0.
    { exists 0. repeat split; [lia | lia | done | intros j Hj; lia]. }
    destruct (isValidDrawDay host (localMidnight c (x + 1))) eqn:V1.
    { exists 1. repeat split; [lia | lia | done |].
      intros j Hj. by assert (j = 0) as -> by lia. }
    exists 2. repeat split; [lia | lia | |].
    - rewrite isValidDrawDay_localMidnight in * by done. fold s in V0, V1 |- *.
      destruct (decide (k' = 1)) as [-> | ?].
      { replace (x + s - 1 + 1) with (x + 0 + s) in Hv' by lia. congruence. }
      destruct (decide (k' = 2)) as [-> | ?].
      { replace (x + s - 1 + 2) with (x + 1 + s) in Hv' by lia. congruence. }
      assert (k' = 3) as -> by lia.
      by replace (x + s - 1 + 3) with (x + 2 + s) in Hv' by lia.
    - intros j Hj. destruct (decide (j = 0)) as [-> | ?]; [done |].
      by assert (j = 1) as -> by lia. }
  destruct Hex as (k & Hk & Hopen & Hclosed).
  exists k. split; [done |]. split; [| done].
  apply (probeLoop_first host c); [done | lia | done | done].
Qed.

Lemma getNextValidDrawDate_first_valid_witness :
  exists k,
    0 <= k <= 2
    /\ getNextValidDrawDate brasilia christmas2025
       = Some (localMidnight (- (3 * msPerHour))
                 (Day (christmas2025 + - (3 * msPerHour)) + k)).
Proof.
  destruct (getNextValidDrawDate_first_valid brasilia (- (3 * msPerHour))
              christmas2025 brasilia_SaoPaulo (fun _ _ => eq_refl))
    as (k & H1 & H2 & _).
  exists k. split; [exact H1 | exact H2].
Defined.

(** *** The stamp of a ticket *)

Lemma isoDate_midnightBRT (d : Z) : isoDate (midnightBRT d) = dateText d.
Proof.
  rewrite isoDate_day. unfold midnightBRT, dateText.
  by rewrite Day_of_day by done.
Qed.

Lemma getBrazilDateString_midnightBRT (d : Z) :
  getBrazilDateString (midnightBRT d) = dateText d.
Proof.
  rewrite getBrazilDateString_civilDay.
  rewrite <- (Z.add_0_r (midnightBRT d)), civilDay_midnightBRT by done. done.
Qed.

Lemma drawDate_scheduleOfDay (host : Host) (d : Z) :
  drawDate (scheduleOfDay host d) = midnightBRT d.
Proof. reflexivity. Qed.

Lemma isOpenDay_isDrawDay (host : Host) (d : Z) :
  SaoPauloAtUTCminus3 host -> isOpenDay host d = isDrawDay host d.
Proof. intros HS. by rewrite isOpenDay_civil, isDrawDay_civil. Qed.

(** The draw date [getDrawDate] returns. *)
Lemma getDrawDate_midnight (host : Host) (spNow : Z) :
  SaoPauloAtUTCminus3 host -> LocalZoneFixed host ->
  inFourDigitYears spNow = true ->
  exists D,
    isOpenDay host D = true
    /\ civilDay spNow <= D <= civilDay spNow + 3
    /\ getCurrentDrawSchedule host spNow
       = Some {| schedule := scheduleOfDay host D; now := spNow |}
    /\ getDrawDate host spNow = Some (midnightBRT D).
Proof.
  intros HS HL Hrange.
  destruct (current_schedule_day host spNow HS HL Hrange)
    as (D & Hget & HD & Hopen & _).
  exists D. split; [done |]. split; [done |]. split; [done |].
  unfold getDrawDate. by rewrite Hget.
Qed.

Lemma entryStamp_of_schedule (host : Host) (spNow X : Z) :
  fourDigitYear X = true ->
  getCurrentDrawSchedule host spNow
  = Some {| schedule := scheduleOfDay host X; now := spNow |} ->
  entryStamp host spNow
  = Some {| st_drawDate := dateText X; st_concurso := concursoOfDay host X |}.
Proof.
  intros HX Hget. unfold entryStamp, getDrawDate. rewrite Hget.
  cbn [schedule]. rewrite drawDate_scheduleOfDay.
  rewrite calculateConcurso_closed_form
    by (cbn [dateTextOf];
        by rewrite getBrazilDateString_midnightBRT, parses_dateText).
  cbn [targetDay].
  rewrite <- (Z.add_0_r (midnightBRT X)) at 2.
  rewrite civilDay_midnightBRT by done.
  by rewrite getBrazilDateString_midnightBRT.
Qed.

(** X3.  On a host where Sao Paulo stands at UTC-3 and the local zone
    keeps one offset, at every instant from 2 January 1000 to 28 December
    9999, the ticket that [confirmEntry] sends is stamped with the date of
    a valid draw day and with the concurso that [calculateConcurso] gives
    that same day, and [getCutoffPeriod] names the same date: the draw
    date is midnight in Brasília, whose UTC date is the date in
    Brasília. *)
Theorem entryStamp_of_draw_day (host : Host) (spNow : Z) :
  SaoPauloAtUTCminus3 host -> LocalZoneFixed host ->
  inFourDigitYears spNow = true ->
  exists D,
    isDrawDay host D = true
    /\ getDrawDate host spNow = Some (midnightBRT D)
    /\ getCutoffPeriod host spNow = Some (dateText D)
    /\ calculateConcurso host (StringInput (dateText D))
       = Some (concursoOfDay host D)
    /\ entryStamp host spNow
       = Some {| st_drawDate := dateText D; st_concurso := concursoOfDay host D |}.
Proof.
  intros HS HL Hrange.
  destruct (getDrawDate_midnight host spNow HS HL Hrange)
    as (D & Hopen & HD & Hget & Hd).
  assert (HD4 : fourDigitYear D = true)
    by (apply (inFourDigitYears_days spNow); [done | lia]).
  exists D. rewrite <- isOpenDay_isDrawDay by done. split; [done |].
  split; [done |]. split.
  { unfold getCutoffPeriod. by rewrite Hd, isoDate_midnightBRT. }
  split.
  { rewrite calculateConcurso_closed_form
      by (cbn [dateTextOf]; by rewrite parses_dateText).
    cbn [targetDay]. by rewrite textDay_dateText. }
  by apply entryStamp_of_schedule.
Qed.

Lemma entryStamp_of_draw_day_witness :
  exists D,
    isDrawDay brasilia D = true
    /\ getDrawDate brasilia christmas2025 = Some (midnightBRT D).
Proof.
  destruct (entryStamp_of_draw_day brasilia christmas2025
              brasilia_SaoPaulo brasilia_LocalZoneFixed eq_refl) as (D & H1 & H2 & _).
  exists D. split; [exact H1 | exact H2].
Defined.

(** *** Consecutive numbers *)

Lemma referenceDay_isDrawDay (host : Host) :
  SaoPauloAtUTCminus3 host -> isDrawDay host referenceDay = true.
Proof. intros HS. rewrite isDrawDay_civil by done. vm_compute. reflexivity. Qed.

Lemma concursoOfDay_next (host : Host) (D D' : Z) :
  SaoPauloAtUTCminus3 host ->
  isDrawDay host D = true -> nextDrawDay host D D' ->
  concursoOfDay host D' = concursoOfDay host D + 1.
Proof.
  intros HS Hd Hnext.
  pose proof (countDrawDays_next host D D' Hnext) as Hcount.
  destruct Hnext as (Hlt & Hv' & Hclosed).
  pose proof (referenceDay_isDrawDay host HS) as HR.
  unfold concursoOfDay, CONCURSO_REFERENCE_number.
  destruct (Z.leb_spec referenceDay D) as [HrD | HrD];
    destruct (Z.leb_spec referenceDay D') as [HrD' | HrD']; try lia.
  - replace (D' - referenceDay) with ((D - referenceDay) + (D' - D)) by lia.
    rewrite countDrawDays_app by lia.
    replace (referenceDay + 1 + (D - referenceDay)) with (D + 1) by lia. lia.
  - assert (D' = referenceDay) as ->.
    { destruct (decide (D' = referenceDay)) as [? | Hne]; [done |].
      rewrite (Hclosed referenceDay) in HR by lia. discriminate. }
    replace (referenceDay - referenceDay) with 0 by lia.
    rewrite countDrawDays_nil.
    replace (referenceDay - D) with (1 + (referenceDay - D - 1)) by lia.
    rewrite countDrawDays_app, countDrawDays_one, Hd by lia.
    replace (referenceDay - D - 1) with (Z.of_nat (Z.to_nat (referenceDay - D - 1))) by lia.
    rewrite countDrawDays_none; [lia |].
    intros x Hx. apply Hclosed. lia.
  - replace (referenceDay - D) with ((D' - D) + (referenceDay - D')) by lia.
    rewrite countDrawDays_app by lia.
    replace (D + (D' - D)) with D' by lia.
    replace (D' - D) with (1 + (D' - D - 1)) by lia.
    rewrite countDrawDays_app, countDrawDays_one, Hd by lia.
    replace (D' - D - 1) with (Z.of_nat (Z.to_nat (D' - D - 1))) by lia.
    rewrite countDrawDays_none; [lia |].
    intros x Hx. apply Hclosed. lia.
Qed.

(** X4.  Where Sao Paulo stands at UTC-3, consecutive valid draw days
    have consecutive concursos, before the reference date as well as
    after it: if [d'] is the first valid draw day after the valid draw
    day [d], both given as well-formed dates, the concurso of [d'] is
    that of [d] plus one. *)
Theorem concurso_of_next_draw_day (host : Host) (d d' : DateInput) :
  SaoPauloAtUTCminus3 host ->
  wellFormed d = true -> wellFormed d' = true ->
  isDrawDay host (targetDay d) = true ->
  nextDrawDay host (targetDay d) (targetDay d') ->
  exists n, calculateConcurso host d = Some n
            /\ calculateConcurso host d' = Some (n + 1).
Proof.
  intros HS Hw Hw' Hd Hnext. apply wellFormed_parses in Hw, Hw'.
  rewrite !calculateConcurso_closed_form by done.
  exists (concursoOfDay host (targetDay d)). split; [done |]. f_equal.
  by apply concursoOfDay_next.
Qed.

(** The Friday and the Saturday before the reference date. *)
Definition december12 : DateString := {| ds_year := 2025; ds_month := 12; ds_day := 12 |}.

Lemma concurso_of_next_draw_day_witness :
  exists n, calculateConcurso brasilia (StringInput december12) = Some n
            /\ calculateConcurso brasilia (StringInput december13) = Some (n + 1).
Proof.
  apply (concurso_of_next_draw_day brasilia (StringInput december12)
           (StringInput december13) brasilia_SaoPaulo eq_refl eq_refl).
  - vm_compute. reflexivity.
  - split; [vm_compute; reflexivity |]. split; [vm_compute; reflexivity |].
    intros x Hx.
    replace (targetDay (StringInput december12)) with (referenceDay - 3) in Hx
      by (vm_compute; reflexivity).
    replace (targetDay (StringInput december13)) with (referenceDay - 2) in Hx
      by (vm_compute; reflexivity).
    lia.
Defined.

(** X5.  On a host where Sao Paulo stands at UTC-3 and the local zone
    keeps one offset, in the years of four digits, crossing the cutoff of
    a valid draw day moves the stamp to the next concurso: of two
    instants of that day in Brasília, one not after the cutoff and one
    after it, the first is stamped with the date and concurso of the day,
    the second with the concurso that follows. *)
Theorem entryStamp_across_cutoff (host : Host) (t1 t2 : Z) :
  SaoPauloAtUTCminus3 host -> LocalZoneFixed host ->
  inFourDigitYears t1 = true ->
  civilDay t2 = civilDay t1 ->
  isOpenDay host (civilDay t1) = true ->
  t1 <= cutoff (scheduleOfDay host (civilDay t1)) < t2 ->
  exists before after,
    entryStamp host t1 = Some before
    /\ entryStamp host t2 = Some after
    /\ st_drawDate before = dateText (civilDay t1)
    /\ st_concurso after = st_concurso before + 1.
Proof.
  intros HS HL Hrange Hday Hopen [Hle Hgt].
  assert (Hb : fourDigitYear (civilDay t1 - 1) = true)
    by (apply (inFourDigitYears_days t1); [done | lia]).
  assert (Hd : fourDigitYear (civilDay t1) = true)
    by (apply (inFourDigitYears_days t1); [done | lia]).
  assert (Ha : fourDigitYear (civilDay t1 + 3) = true)
    by (apply (inFourDigitYears_days t1); [done | lia]).
  set (D := civilDay t1) in *.
  assert (H1 : getCurrentDrawSchedule host t1
               = Some {| schedule := scheduleOfDay host D; now := t1 |}).
  { rewrite getCurrentDrawSchedule_today by done. fold D. rewrite Hopen.
    assert ((t1 <=? cutoff (scheduleOfDay host D)) = true) as ->
      by (by apply Z.leb_le).
    reflexivity. }
  destruct (scanNext_finds_next host D t2 HS HL Hd Ha) as (D' & Hnext & HD' & Hscan).
  assert (H2 : getCurrentDrawSchedule host t2
               = Some {| schedule := scheduleOfDay host D'; now := t2 |}).
  { rewrite getCurrentDrawSchedule_today by (try done; by rewrite Hday).
    rewrite Hday. rewrite Hopen.
    assert ((t2 <=? cutoff (scheduleOfDay host D)) = false) as ->
      by (by apply Z.leb_gt).
    exact Hscan. }
  assert (Hd' : fourDigitYear D' = true).
  { destruct Hnext as (Hlt & _).
    apply (fourDigitYear_between D (D + 3)); [done | done | lia]. }
  exists {| st_drawDate := dateText D; st_concurso := concursoOfDay host D |},
         {| st_drawDate := dateText D'; st_concurso := concursoOfDay host D' |}.
  split; [exact (entryStamp_of_schedule host t1 D Hd H1) |].
  split; [exact (entryStamp_of_schedule host t2 D' Hd' H2) |].
  split; [reflexivity |].
  cbn [st_concurso].
  apply concursoOfDay_next; [done | by rewrite <- isOpenDay_isDrawDay |].
  destruct Hnext as (Hlt & Hv & Hclosed).
  split; [done |]. split; [by rewrite <- isOpenDay_isDrawDay |].
  intros x Hx. rewrite <- isOpenDay_isDrawDay by done. by apply Hclosed.
Qed.

Lemma entryStamp_across_cutoff_witness :
  exists before after,
    entryStamp brasilia (cutoff (scheduleOfDay brasilia referenceDay) - msPerSecond)
    = Some before
    /\ entryStamp brasilia (cutoff (scheduleOfDay brasilia referenceDay) + msPerSecond)
       = Some after
    /\ st_concurso after = st_concurso before + 1.
Proof.
  destruct (entryStamp_across_cutoff brasilia
              (cutoff (scheduleOfDay brasilia referenceDay) - msPerSecond)
              (cutoff (scheduleOfDay brasilia referenceDay) + msPerSecond)
              brasilia_SaoPaulo brasilia_LocalZoneFixed)
    as (before & after & H1 & H2 & _ & H3).
  - vm_compute. reflexivity.
  - vm_compute. reflexivity.
  - vm_compute. reflexivity.
  - vm_compute. split; [discriminate | reflexivity].
  - exists before, after. split; [exact H1 |]. split; [exact H2 | exact H3].
Defined.

(** *** The numbering along the calendar *)

Lemma countDrawDays_le (host : Host) (a n : Z) :
  0 <= n -> countDrawDays host a n <= n.
Proof.
  intros Hn. unfold countDrawDays.
  pose proof (filter_length_le (isDrawDay host) (seqZ a n)) as H.
  rewrite length_seqZ in H. lia.
Qed.

(** X6.  Over well-formed dates the concurso never decreases with the
    date and grows by at most one a day: for a target day that is not
    before another, its concurso is not smaller and exceeds the other by
    no more than the days between them. *)
Theorem calculateConcurso_monotone (host : Host) (d1 d2 : DateInput) :
  wellFormed d1 = true -> wellFormed d2 = true ->
  targetDay d1 <= targetDay d2 ->
  exists a b, calculateConcurso host d1 = Some a
              /\ calculateConcurso host d2 = Some b
              /\ a <= b <= a + (targetDay d2 - targetDay d1).
Proof.
  intros Hw1 Hw2 Hle. apply wellFormed_parses in Hw1, Hw2.
  rewrite !calculateConcurso_closed_form by done.
  set (A := targetDay d1) in *. set (B := targetDay d2) in *.
  eexists _, _. split; [done |]. split; [done |].
  unfold concursoOfDay, CONCURSO_REFERENCE_number.
  destruct (Z.leb_spec referenceDay A) as [HrA | HrA];
    destruct (Z.leb_spec referenceDay B) as [HrB | HrB]; try lia.
  - replace (B - referenceDay) with ((A - referenceDay) + (B - A)) by lia.
    rewrite countDrawDays_app by lia.
    pose proof (countDrawDays_nonneg host (referenceDay + 1 + (A - referenceDay)) (B - A)).
    pose proof (countDrawDays_le host (referenceDay + 1 + (A - referenceDay)) (B - A)).
    lia.
  - pose proof (countDrawDays_nonneg host (referenceDay + 1) (B - referenceDay)).
    pose proof (countDrawDays_le host (referenceDay + 1) (B - referenceDay)).
    pose proof (countDrawDays_nonneg host A (referenceDay - A)).
    pose proof (countDrawDays_le host A (referenceDay - A)).
    lia.
  - replace (referenceDay - A) with ((B - A) + (referenceDay - B)) by lia.
    rewrite countDrawDays_app by lia.
    pose proof (countDrawDays_nonneg host A (B - A)).
    pose proof (countDrawDays_le host A (B - A)).
    replace (A + (B - A)) with B by lia. lia.
Qed.

Lemma calculateConcurso_monotone_witness :
  exists a b, calculateConcurso brasilia (StringInput december13) = Some a
              /\ calculateConcurso brasilia (StringInput december16) = Some b
              /\ a <= b <= a + (targetDay (StringInput december16)
                                - targetDay (StringInput december13)).
Proof.
  apply (calculateConcurso_monotone brasilia (StringInput december13)
           (StringInput december16) eq_refl eq_refl).
  vm_compute. discriminate.
Defined.

(** X7.  A day that is not a valid draw day has no number of its own:
    after the reference date it takes the concurso of the day before it,
    and before the reference date that of the day after it (both given
    as well-formed dates). *)
Theorem non_draw_day_shares_concurso (host : Host) (d d' : DateInput) :
  wellFormed d = true -> wellFormed d' = true ->
  isDrawDay host (targetDay d) = false ->
  (referenceDay < targetDay d -> targetDay d' = targetDay d - 1 ->
   calculateConcurso host d = calculateConcurso host d')
  /\ (targetDay d < referenceDay -> targetDay d' = targetDay d + 1 ->
      calculateConcurso host d = calculateConcurso host d').
Proof.
  intros Hw Hw' Hv. apply wellFormed_parses in Hw, Hw'.
  rewrite !calculateConcurso_closed_form by done.
  set (D := targetDay d) in *. set (D' := targetDay d') in *.
  unfold concursoOfDay. split; intros Hr ->; f_equal.
  - assert ((referenceDay <=? D) = true) as -> by (apply Z.leb_le; lia).
    assert ((referenceDay <=? D - 1) = true) as -> by (apply Z.leb_le; lia).
    replace (D - referenceDay) with ((D - 1 - referenceDay) + 1) by lia.
    rewrite countDrawDays_last by lia.
    replace (referenceDay + 1 + (D - 1 - referenceDay)) with D by lia.
    rewrite Hv. lia.
  - assert ((referenceDay <=? D) = false) as -> by (apply Z.leb_gt; lia).
    destruct (Z.leb_spec referenceDay (D + 1)) as [Hle | Hgt].
    + assert (D + 1 = referenceDay) as -> by lia.
      replace (referenceDay - referenceDay) with 0 by lia.
      replace (referenceDay - D) with 1 by lia.
      rewrite countDrawDays_nil, countDrawDays_one, Hv. lia.
    + replace (referenceDay - D) with ((referenceDay - (D + 1)) + 1) by lia.
      rewrite countDrawDays_first by lia. rewrite Hv. lia.
Qed.

(** The Sunday after the reference date, the Saturday before that
    Sunday, and the Sunday before the reference date. *)
Definition december21 : DateString := {| ds_year := 2025; ds_month := 12; ds_day := 21 |}.
Definition december20 : DateString := {| ds_year := 2025; ds_month := 12; ds_day := 20 |}.
Definition december14 : DateString := {| ds_year := 2025; ds_month := 12; ds_day := 14 |}.
Definition december15 : DateString := {| ds_year := 2025; ds_month := 12; ds_day := 15 |}.

Lemma non_draw_day_shares_concurso_witness :
  calculateConcurso brasilia (StringInput december21)
  = calculateConcurso brasilia (StringInput december20)
  /\ calculateConcurso brasilia (StringInput december14)
     = calculateConcurso brasilia (StringInput december15).
Proof.
  split.
  - apply (proj1 (non_draw_day_shares_concurso brasilia (StringInput december21)
                    (StringInput december20) eq_refl eq_refl eq_refl));
      vm_compute; reflexivity.
  - apply (proj2 (non_draw_day_shares_concurso brasilia (StringInput december14)
                    (StringInput december15) eq_refl eq_refl eq_refl));
      vm_compute; reflexivity.
Defined.

(** *** The countdown *)

(** X8.  On a host where Sao Paulo stands at UTC-3 and the local zone
    keeps one offset, from 2 January 1000 to 28 December 9999, the
    countdown never takes its branch for a negative difference: when the
    clock does not run backwards between the two readings, the
    difference to the draw is a number, at least one second plus the
    time between the readings, and at most 92 hours plus that time; its
    three printed parts are the whole seconds of the difference, with
    minutes and seconds below 60. *)
Theorem countdown_never_negative (host : Host) (spTime spNow : Z) :
  SaoPauloAtUTCminus3 host -> LocalZoneFixed host ->
  inFourDigitYears spNow = true ->
  spTime <= spNow ->
  exists diff,
    countdownDiff host spTime spNow = Some (Some diff)
    /\ msPerSecond + (spNow - spTime) <= diff <= 92 * msPerHour + (spNow - spTime)
    /\ countdownHours diff * 3600 + countdownMinutes diff * 60
       + countdownSeconds diff = diff / 1000
    /\ 0 <= countdownHours diff
    /\ 0 <= countdownMinutes diff < 60
    /\ 0 <= countdownSeconds diff < 60.
Proof.
  intros HS HL Hrange Hclock.
  destruct (current_schedule_day host spNow HS HL Hrange)
    as (D & Hget & HD & _ & Hcut & _).
  assert (HD4 : fourDigitYear D = true)
    by (apply (inFourDigitYears_days spNow); [done | lia]).
  pose proof (civilDay_bounds spNow) as Hnow.
  destruct (cutoff_scheduleOfDay host D) as [Hc Hh].
  rewrite Hc in Hcut.
  set (h := drawHour (scheduleOfDay host D)) in *.
  exists (midnightBRT D + h * msPerHour - spTime).
  split.
  { unfold countdownDiff. rewrite Hget. cbn [schedule].
    rewrite drawDate_scheduleOfDay.
    rewrite getBrazilDateString_midnightBRT, parseBRT_dateText by done.
    fold h. unfold MakeTime. do 2 f_equal. lia. }
  assert (Hd : msPerSecond + (spNow - spTime)
               <= midnightBRT D + h * msPerHour - spTime
               <= 92 * msPerHour + (spNow - spTime)).
  { unfold midnightBRT, msPerDay, msPerHour, msPerSecond in *.
    destruct Hh as [-> | ->]; lia. }
  split; [exact Hd |].
  set (diff := midnightBRT D + h * msPerHour - spTime) in *.
  assert (0 <= diff) by (unfold msPerSecond in Hd; lia).
  unfold countdownHours, countdownMinutes, countdownSeconds.
  rewrite !Z.rem_mod_nonneg by lia.
  change (1000 * 60 * 60) with 3600000. change (1000 * 60) with 60000.
  repeat split; Z.div_mod_to_equations; lia.
Qed.

Lemma countdown_never_negative_witness :
  exists diff,
    countdownDiff brasilia christmas2025 christmas2025 = Some (Some diff)
    /\ msPerSecond + (christmas2025 - christmas2025) <= diff
       <= 92 * msPerHour + (christmas2025 - christmas2025).
Proof.
  destruct (countdown_never_negative brasilia christmas2025 christmas2025
              brasilia_SaoPaulo brasilia_LocalZoneFixed eq_refl (Z.le_refl _))
    as (diff & H1 & H2 & _).
  exists diff. split; [exact H1 | exact H2].
Defined.

(** *** The printed draw date *)

(** The year of day number [d]. *)
Definition civilYear (d : Z) : Z := YearFromTime (d * msPerDay).

Lemma YearFromTime_day (t : Z) : YearFromTime t = YearFromTime (Day t * msPerDay).
Proof. unfold YearFromTime. by rewrite Day_day_start. Qed.

(** X9.  [updateDrawDateDisplay] reads the day, month and year of the
    draw date in the local zone of the host.  Where Sao Paulo stands at
    UTC-3 and the local zone keeps one offset, from 2 January 1000 to 28
    December 9999, the draw date is midnight in Brasília, so a host at
    UTC-3 or east of it prints the date of the draw day, and a host west
    of UTC-3 prints the date of the day before. *)
Theorem displayedDate_local_zone (host : Host) (c spNow : Z) :
  SaoPauloAtUTCminus3 host ->
  (forall t isUTC, LocalTZA host t isUTC = c) ->
  inFourDigitYears spNow = true ->
  - (12 * msPerHour) <= c <= 14 * msPerHour ->
  exists D,
    getDrawDate host spNow = Some (midnightBRT D)
    /\ (- (3 * msPerHour) <= c ->
        displayedDate host spNow = Some (civilDate D, civilMonth D, civilYear D))
    /\ (c < - (3 * msPerHour) ->
        displayedDate host spNow
        = Some (civilDate (D - 1), civilMonth (D - 1), civilYear (D - 1))).
Proof.
  intros HS Hc Hyears Hrange.
  assert (HL : LocalZoneFixed host) by (by exists c).
  destruct (getDrawDate_midnight host spNow HS HL Hyears) as (D & _ & _ & _ & Hd).
  exists D. split; [done |].
  unfold displayedDate. rewrite Hd.
  unfold getDate, getMonth, getFullYear, LocalTime. rewrite !Hc.
  rewrite (DateFromTime_day (midnightBRT D + c)),
    (MonthFromTime_day (midnightBRT D + c)),
    (YearFromTime_day (midnightBRT D + c)).
  unfold civilDate, civilMonth, civilYear.
  split; intros Hside.
  - assert (Day (midnightBRT D + c) = D) as ->; [| done].
    unfold midnightBRT.
    replace (D * msPerDay + 3 * msPerHour + c)
      with (D * msPerDay + (3 * msPerHour + c)) by lia.
    apply Day_of_day. unfold msPerDay, msPerHour in *. lia.
  - assert (Day (midnightBRT D + c) = D - 1) as ->; [| done].
    unfold midnightBRT.
    replace (D * msPerDay + 3 * msPerHour + c)
      with ((D - 1) * msPerDay + (msPerDay + 3 * msPerHour + c)) by lia.
    apply Day_of_day. unfold msPerDay, msPerHour in *. lia.
Qed.

(** A host in New York in winter, five hours behind UTC. *)
Definition newYork : Host :=
  {| saoPauloOffset := fun _ => - (3 * msPerHour);
     LocalTZA := fun _ _ => - (5 * msPerHour) |}.

Lemma displayedDate_local_zone_witness :
  exists D,
    getDrawDate newYork CONCURSO_REFERENCE_date = Some (midnightBRT D)
    /\ displayedDate newYork CONCURSO_REFERENCE_date
       = Some (civilDate (D - 1), civilMonth (D - 1), civilYear (D - 1)).
Proof.
  destruct (displayedDate_local_zone newYork (- (5 * msPerHour))
              CONCURSO_REFERENCE_date (fun _ => eq_refl) (fun _ _ => eq_refl) eq_refl)
    as (D & H1 & _ & H2).
  - unfold msPerHour. lia.
  - exists D. split; [exact H1 |]. apply H2. unfold msPerHour. lia.
Defined.

Example displayedDate_newYork :
  displayedDate newYork CONCURSO_REFERENCE_date = Some (14, 12, 2025)
  /\ displayedDate brasilia CONCURSO_REFERENCE_date = Some (15, 12, 2025).
Proof. vm_compute. done. Qed.

(** *** The registration window *)




(** *** Early draws *)

(** Day [d] is December 24 or December 31. *)
Definition civilEarly (d : Z) : bool :=
  (civilMonth d =? 12) && ((civilDate d =? 24) || (civilDate d =? 31)).

Lemma isEarlyDrawDay_civil (host : Host) (date : Z) :
  saoPauloOffset host date = - (3 * msPerHour) ->
  isEarlyDrawDay host date = civilEarly (Day (date - 3 * msPerHour)).
Proof.
  intros H. unfold isEarlyDrawDay, getBrazilMonth, getBrazilDayOfMonth, civilEarly,
    civilMonth, civilDate.
  rewrite H. replace (date + - (3 * msPerHour)) with (date - 3 * msPerHour) by lia.
  rewrite <- MonthFromTime_day, <- DateFromTime_day.
  repeat match goal with
         | |- context [?a =? ?b] => destruct (Z.eqb_spec a b)
         end; cbn; try reflexivity; lia.
Qed.

Lemma civilEarly_dayInYear (d : Z) :
  civilEarly d = true
  <-> dayInYear d = 357 + leapOf d \/ dayInYear d = 364 + leapOf d.
Proof.
  pose proof (dayInYear_range d) as Hr.
  unfold civilEarly, civilMonth, civilDate, DateFromTime, MonthFromTime,
    DayWithinYear, InLeapYear, YearFromTime.
  rewrite <- (Z.add_0_r (d * msPerDay)), Day_of_day by done.
  fold (dayInYear d) (leapOf d).
  pose proof (leapOf_cases d) as Hl.
  repeat match goal with
         | |- context [?a <? ?b] => destruct (Z.ltb_spec a b)
         end;
  repeat match goal with
         | |- context [monthStart ?l ?m] =>
             let v := eval cbv [monthStart Z.leb Z.eqb Z.compare Pos.compare
                                  Pos.compare_cont Pos.eqb] in (monthStart l m) in
             change (monthStart l m) with v
         end;
  repeat match goal with
         | |- context [?a =? ?b] => destruct (Z.eqb_spec a b)
         end; cbn; split; intros; try discriminate; try lia.
Qed.

(** The day after the last day of a year is the first of the next. *)
Lemma dayInYear_rollover (d : Z) :
  dayInYear d = 364 + leapOf d -> dayInYear (d + 1) = 0.
Proof.
  intros H. unfold dayInYear, leapOf in *.
  assert (Hy : YearFromDay (d + 1) = YearFromDay d + 1).
  { apply YearFromDay_unique.
    rewrite (DayFromYear_succ (YearFromDay d + 1)), (DayFromYear_succ (YearFromDay d)).
    destruct (DaysInYear_cases (YearFromDay d)) as [E | E]; rewrite E in *;
      destruct (DaysInYear_cases (YearFromDay d + 1)) as [E' | E']; rewrite E';
      cbn in H; lia. }
  rewrite Hy, DayFromYear_succ.
  destruct (DaysInYear_cases (YearFromDay d)) as [E | E]; rewrite E in *;
    cbn in H; lia.
Qed.

Lemma civilEarly_eve (d : Z) : civilEarly d = civilNoDraw (d + 1).
Proof.
  pose proof (dayInYear_range d) as Hr.
  pose proof (leapOf_cases d) as Hl.
  pose proof (civilEarly_dayInYear d) as He.
  pose proof (civilNoDraw_dayInYear (d + 1)) as Hn.
  destruct (decide (dayInYear d = 364 + leapOf d)) as [Hlast | Hmid].
  - pose proof (dayInYear_rollover d Hlast) as H0.
    destruct (civilEarly d), (civilNoDraw (d + 1)); try done.
    + destruct Hn as [_ Hn]. by rewrite Hn by (by left).
    + destruct He as [_ He]. by rewrite He by (by right).
  - destruct (dayInYear_next d 1) as [Hd Hlp]; [lia | lia |].
    rewrite Hd, Hlp in Hn.
    destruct (civilEarly d), (civilNoDraw (d + 1)); try done.
    + destruct He as [He _]. destruct Hn as [_ Hn].
      specialize (He eq_refl). by rewrite Hn by lia.
    + destruct He as [_ He]. destruct Hn as [Hn _].
      specialize (Hn eq_refl). by rewrite He by lia.
Qed.

(** X11.  Where Sao Paulo stands at UTC-3, the draw is moved to 17h
    exactly on the eve of a day without draw: [isEarlyDrawDay] holds of an
    instant exactly when [isNoDrawDay] holds of the instant 24 hours
    later, in every year, and that is when [getDrawTimeHour] is 17 and
    not 20. *)
Theorem early_draw_on_eve_of_closure (host : Host) (date : Z) :
  SaoPauloAtUTCminus3 host ->
  isEarlyDrawDay host date = isNoDrawDay host (date + msPerDay)
  /\ getDrawTimeHour host date
     = (if isNoDrawDay host (date + msPerDay) then 17 else 20).
Proof.
  intros HS.
  assert (H : isEarlyDrawDay host date = isNoDrawDay host (date + msPerDay)).
  { rewrite isEarlyDrawDay_civil, isNoDrawDay_civil by apply HS.
    replace (date + msPerDay - 3 * msPerHour)
      with (1 * msPerDay + (date - 3 * msPerHour)) by lia.
    rewrite Day_shift. rewrite civilEarly_eve. f_equal. lia. }
  split; [exact H |]. unfold getDrawTimeHour. by rewrite H.
Qed.

Lemma early_draw_on_eve_of_closure_witness :
  isEarlyDrawDay brasilia (christmas2025 - msPerDay)
  = isNoDrawDay brasilia (christmas2025 - msPerDay + msPerDay).
Proof.
  exact (proj1 (early_draw_on_eve_of_closure brasilia (christmas2025 - msPerDay)
                  brasilia_SaoPaulo)).
Defined.

(** *** Date components *)

(** X12.  The components [getBrazilDateComponents] reads are in the
    ranges of a calendar date and a time of day.  When the year of the
    instant in Brasília has four digits, the text of
    [getBrazilDateString] with these hour, minute and second, read as a
    timestamp at -03:00, gives the instant, less its milliseconds; in
    another year that text is not a timestamp and is read as an invalid
    date. *)
Theorem getBrazilDateComponents_read_back (date : Z) :
  let c := getBrazilDateComponents date in
  (1 <= month c <= 12 /\ 1 <= day c <= 31)
  /\ (0 <= hour c < 24 /\ 0 <= minute c < 60 /\ 0 <= second c < 60)
  /\ parseBRT (getBrazilDateString date) (hour c) (minute c) (second c)
     = (if fourDigitYear (civilDay date)
        then Some (date - date mod 1000) else None).
Proof.
  intros c. subst c. unfold parseBRT. rewrite parses_getBrazilDateString.
  rewrite getBrazilDateString_isoDate, timeValueBRT_isoDate.
  unfold getBrazilDateComponents. cbn [month day hour minute second].
  change (3 * 60 * 60 * 1000) with (3 * msPerHour).
  set (t := date - 3 * msPerHour).
  pose proof (MonthFromTime_range t) as Hm.
  pose proof (DateFromTime_range t) as Hd.
  split; [lia |].
  split.
  - unfold HourFromTime, MinFromTime, SecFromTime, t,
      msPerDay, msPerHour, msPerMinute, msPerSecond.
    repeat split; Z.div_mod_to_equations; lia.
  - destruct (fourDigitYear (civilDay date)); [| done]. f_equal.
    unfold HourFromTime, MinFromTime, SecFromTime, MakeTime, Day, t,
      msPerDay, msPerHour, msPerMinute, msPerSecond.
    Z.div_mod_to_equations; lia.
Qed.

(** *** The two declarations of getBrazilDayOfWeek *)

(** Noon in Brasília of 1 January of the year 50, a Saturday: [Date.UTC]
    takes the year 50 for 1950, and the declaration that the script
    replaces answers for 1 January 1950, a Sunday. *)
Definition january50 : Z := DayFromYear 50 * msPerDay + 15 * msPerHour.

Example getBrazilDayOfWeek_replaced_year_50 :
  year (getBrazilDateComponents january50) = 50
  /\ getBrazilDayOfWeek brasilia january50 = 6
  /\ getBrazilDayOfWeek_replaced january50 = 0.
Proof. by vm_compute. Qed.

(** X13.  Where Sao Paulo stands at UTC-3, the declaration of
    [getBrazilDayOfWeek] that the script replaces and the one that
    replaces it give the same weekday, a number from 0 to 6, at every
    instant whose year in Brasília is not one of the years 0 to 99,
    which [Date.UTC] takes for 1900 to 1999. *)
Theorem getBrazilDayOfWeek_declarations_agree (host : Host) (date : Z) :
  SaoPauloAtUTCminus3 host ->
  ~ (0 <= year (getBrazilDateComponents date) <= 99) ->
  getBrazilDayOfWeek_replaced date = getBrazilDayOfWeek host date
  /\ 0 <= getBrazilDayOfWeek host date <= 6.
Proof.
  intros HS Hy. rewrite getBrazilDayOfWeek_replaced_weekday by exact Hy.
  unfold getBrazilDayOfWeek. rewrite HS.
  replace (date + - (3 * msPerHour)) with (date - 3 * msPerHour) by lia.
  split; [done |]. unfold WeekDay. Z.div_mod_to_equations. lia.
Qed.

Lemma getBrazilDayOfWeek_declarations_agree_witness :
  getBrazilDayOfWeek_replaced christmas2025 = getBrazilDayOfWeek brasilia christmas2025.
Proof.
  refine (proj1 (getBrazilDayOfWeek_declarations_agree brasilia christmas2025
                   brasilia_SaoPaulo _)).
  vm_compute. intros [_ H]. exact (H eq_refl).
Defined.

End CalendarMoreSpec.

(** ** Properties of the stored results and of the views of the winners *)

Module ValidatorMoreSpec.
Import JS Validator ValidatorSpec ValidatorMore.
Local Open Scope Z_scope.

(** *** setResults and getContestResult *)

(** What [setResults] stores for one result it is given. *)
Definition stored (now : Z) (r : ResultInput) : ContestResult :=
  {| r_contest := in_contest r;
     r_drawDate := in_drawDate r;
     r_winningNumbers := in_winningNumbers r;
     r_savedAt := now |}.

Definition resultKey (r : ResultInput) : jsstring :=
  underscore (in_contest r) (in_drawDate r).

(** The result is given for that contest and draw date. *)
Definition isFor (contestId drawDateText : jsstring) (r : ResultInput) : bool :=
  streq (in_contest r) contestId && streq (in_drawDate r) drawDateText.

Lemma setResults_snoc (now : Z) (rs : list ResultInput) (r : ResultInput) :
  setResults now (rs ++ [r]) = <[resultKey r := stored now r]> (setResults now rs).
Proof. unfold setResults. by rewrite fold_left_app. Qed.

Lemma getContestResult_by_key (now : Z) (rs : list ResultInput) (c d : jsstring) :
  getContestResult (setResults now rs) c d
  = stored now
      <$> last (List.filter (fun r => streq (resultKey r) (underscore c d)) rs).
Proof.
  unfold getContestResult. induction rs as [| r rs IH] using rev_ind; [done |].
  rewrite setResults_snoc, List.filter_app. cbn [List.filter].
  destruct (streq (resultKey r) (underscore c d)) eqn:E.
  - apply streq_true in E. rewrite E, lookup_insert_eq. by rewrite last_snoc.
  - apply streq_false in E. rewrite lookup_insert_ne by done.
    by rewrite app_nil_r.
Qed.

(** X14.  When no contest identifier is empty or holds a low line,
    [getContestResult] after [setResults] returns what was stored for the
    last result given for exactly that contest and draw date, stamped
    with the time of the call, and nothing when no result was given for
    them: a later result for the same contest and date replaces the
    earlier one, and results for other contests or dates do not
    interfere. *)
Theorem getContestResult_last_given (now : Z) (rs : list ResultInput)
    (c d : jsstring) :
  Forall (fun r => plainName (in_contest r) = true) rs ->
  plainName c = true ->
  getContestResult (setResults now rs) c d
  = stored now <$> last (List.filter (isFor c d) rs)
  /\ (getContestResult (setResults now rs) c d = None
      <-> forall r, r ∈ rs -> ~ (in_contest r = c /\ in_drawDate r = d)).
Proof.
  intros Hrs Hc.
  assert (Heq : getContestResult (setResults now rs) c d
                = stored now <$> last (List.filter (isFor c d) rs)).
  { rewrite getContestResult_by_key. do 2 f_equal.
    apply filter_ext_elem. intros r Hr.
    rewrite Forall_forall in Hrs. specialize (Hrs r Hr).
    unfold isFor, resultKey.
    destruct (streq (underscore (in_contest r) (in_drawDate r)) (underscore c d)) eqn:E.
    - apply streq_true in E.
      apply underscore_inj in E as [-> ->]; [| by apply plainName_lowLine..].
      symmetry. apply andb_true_iff. split; by apply streq_true.
    - apply streq_false in E. symmetry. apply andb_false_iff.
      destruct (streq (in_contest r) c) eqn:E1; [| by left]. right.
      apply streq_true in E1. apply streq_false. intros E2. apply E.
      by rewrite E1, E2. }
  split; [exact Heq |]. rewrite Heq. split.
  - intros Hnone r Hr [H1 H2].
    assert (Hin : r ∈ List.filter (isFor c d) rs).
    { apply list_elem_of_In, filter_In. split; [by apply list_elem_of_In |].
      unfold isFor. apply andb_true_iff. split; by apply streq_true. }
    destruct (List.filter (isFor c d) rs) as [| x l] eqn:El using rev_ind.
    + by apply elem_of_nil in Hin.
    + by rewrite last_snoc in Hnone.
  - intros Hno. destruct (List.filter (isFor c d) rs) as [| x l] eqn:El; [done |].
    assert (Hin : x ∈ List.filter (isFor c d) rs) by (rewrite El; left).
    apply list_elem_of_In, filter_In in Hin as [Hin Hp].
    unfold isFor in Hp. apply andb_true_iff in Hp as [H1 H2].
    apply streq_true in H1, H2. exfalso.
    apply (Hno x); [by apply list_elem_of_In | done].
Qed.

(** A published result, then a correction of it. *)
Definition corrected6903 : ResultInput :=
  {| in_contest := js "6903"; in_drawDate := js "15/12/2025";
     in_winningNumbers := [7; 12; 33; 48; 79] |}.

Lemma getContestResult_last_given_witness :
  getContestResult (setResults 0 [result6903; result6904; corrected6903])
    (js "6903") (js "15/12/2025")
  = Some (stored 0 corrected6903).
Proof.
  refine (eq_trans
            (proj1 (getContestResult_last_given 0
                      [result6903; result6904; corrected6903]
                      (js "6903") (js "15/12/2025") _ eq_refl)) _).
  - repeat constructor.
  - reflexivity.
Defined.

(** *** The status filter of getWinners *)

Lemma isEligible_status (e : Entry) :
  truthy (status e) = false -> isEligible e = false.
Proof.
  intros H. unfold isEligible, or_else. rewrite H. reflexivity.
Qed.

Lemma statusNorm_csvStatus (e : Entry) :
  truthy (status e) = false ->
  includes allowedValidStatuses (normalise (default [] (csvStatus e))) = true ->
  statusNorm e = normalise (default [] (csvStatus e)).
Proof.
  intros Hs Hc. unfold statusNorm, or_else. rewrite Hs.
  destruct (csvStatus e) as [[| c s] |]; [by vm_compute in Hc | done |
                                          by vm_compute in Hc].
Qed.

(** X15.  [validateEntry] reads the status from [status] or, when that
    is empty or missing, from [csvStatus]; the filter of [getWinners]
    reads [status] alone.  So an entry whose approval stands in
    [csvStatus] only, with no validity and with winning numbers stored for
    its contest, is validated by [validateEntry] and is never among the
    winners, whatever it matched. *)
Theorem csvStatus_approval_never_wins (this : ContestResults) (es : list Entry)
    (e : Entry) (r : ContestResult) :
  wellKeyed e = true ->
  truthy (status e) = false ->
  truthy (validity e) = false ->
  includes allowedValidStatuses (normalise (default [] (csvStatus e))) = true ->
  getContestResult this (contest e) (drawDate e) = Some r ->
  validated (validateEntry this e) = true
  /\ matches (validateEntry this e)
     = Some (Z.of_nat (length (matchedSubset (chosenNumbers e) (r_winningNumbers r))))
  /\ forall w, w ∈ getWinners this es -> w_entry w <> e.
Proof.
  intros _ Hs Hv Hc Hr.
  assert (Hval : validateEntry this e = winnerCheck this e).
  { rewrite (validateEntry_no_validity _ _ Hv). unfold statusPath.
    rewrite (statusNorm_csvStatus e Hs Hc).
    apply includes_elem_of, allowed_cases in Hc.
    destruct Hc as [-> | [-> | ->]]; reflexivity. }
  rewrite Hval. unfold winnerCheck. rewrite Hr, matchNumbers_eq.
  cbn [validated matches count].
  split; [done |]. split; [done |].
  intros w Hw Hwe. apply elem_of_getWinners in Hw as (e0 & _ & Ht & ->).
  cbn in Hwe. subst e0. apply isTop_matches in Ht as (Hel & _).
  by rewrite (isEligible_status e Hs) in Hel.
Qed.

(** Five matches, approved in [csvStatus] only. *)
Definition approvedInCsv : Entry :=
  {| platform := js "POPN1"; gameId := js "5555555555"; contest := js "6903";
     drawDate := js "15/12/2025"; chosenNumbers := [7; 12; 33; 48; 80];
     status := None; csvStatus := Some (js "VALID");
     validity := None; invalidReasonCode := None |}.

Lemma csvStatus_approval_never_wins_witness :
  validated (validateEntry (setResults 0 [result6903]) approvedInCsv) = true
  /\ forall w, w ∈ getWinners (setResults 0 [result6903]) [approvedInCsv] ->
               w_entry w <> approvedInCsv.
Proof.
  destruct (csvStatus_approval_never_wins (setResults 0 [result6903])
              [approvedInCsv] approvedInCsv (stored 0 result6903)
              eq_refl eq_refl eq_refl eq_refl eq_refl) as (H1 & _ & H2).
  split; [exact H1 | exact H2].
Defined.

Example approvedInCsv_five_matches_no_winner :
  matches (validateEntry (setResults 0 [result6903]) approvedInCsv) = Some 5
  /\ getWinners (setResults 0 [result6903]) [approvedInCsv] = [].
Proof. vm_compute. done. Qed.

(** *** What a winner carries *)

Lemma matchedSubset_length (chosen winning : list Z) :
  (length (matchedSubset chosen winning) <= length chosen)%nat.
Proof. unfold matchedSubset. apply length_filter. Qed.

(** The validation a winner carries. *)
Lemma winner_validation (this : ContestResults) (es : list Entry) (w : Winner) :
  w ∈ getWinners this es ->
  exists r,
    getContestResult this (contest (w_entry w)) (drawDate (w_entry w)) = Some r
    /\ w_validation w
       = Validated (winningLevel w)
           (matchedSubset (chosenNumbers (w_entry w)) (r_winningNumbers r))
           (getPrizeTier (winningLevel w)) (r_winningNumbers r)
    /\ winningLevel w
       = Z.of_nat (length (matchedSubset (chosenNumbers (w_entry w))
                             (r_winningNumbers r)))
    /\ 1 <= winningLevel w <= Z.of_nat (length (chosenNumbers (w_entry w))).
Proof.
  intros Hw. apply elem_of_getWinners in Hw as (e & _ & Ht & ->).
  cbn [w_entry w_validation winningLevel winnerOf].
  pose proof Ht as Htop. apply isTop_matches in Ht as (_ & Hm & H1).
  assert (Hval : validated (validateEntry this e) = true)
    by (destruct (validateEntry this e); [discriminate | done]).
  pose proof (validateEntry_validated this e Hval) as Hwc.
  rewrite Hwc in Hm |- *. unfold winnerCheck in *.
  destruct (getContestResult this (contest e) (drawDate e)) as [r |];
    [| discriminate].
  exists r. rewrite matchNumbers_eq in *. cbn [count matchedNumbers matches] in *.
  injection Hm as Hm. rewrite <- Hm.
  pose proof (matchedSubset_length (chosenNumbers e) (r_winningNumbers r)).
  repeat split; [lia | lia].
Qed.

(** X16.  For entries with keys of their own, every winner
    [getWinners] returns has winning numbers stored
    for its contest and draw date, and carries the validated outcome of
    the match against them: its level is the number of its chosen numbers
    present among them, at least 1 and at most the number of chosen
    numbers, with the prize tier of that level.  With no results stored
    there are no winners, whatever the entries. *)
Theorem winners_carry_their_match (this : ContestResults) (es : list Entry) :
  Forall (fun e => wellKeyed e = true) es ->
  (forall w, w ∈ getWinners this es ->
     exists r,
       getContestResult this (contest (w_entry w)) (drawDate (w_entry w)) = Some r
       /\ w_validation w
          = Validated (winningLevel w)
              (matchedSubset (chosenNumbers (w_entry w)) (r_winningNumbers r))
              (getPrizeTier (winningLevel w)) (r_winningNumbers r)
       /\ winningLevel w
          = Z.of_nat (length (matchedSubset (chosenNumbers (w_entry w))
                                (r_winningNumbers r)))
       /\ 1 <= winningLevel w <= Z.of_nat (length (chosenNumbers (w_entry w))))
  /\ getWinners ∅ es = [].
Proof.
  intros _. split; [intros w; apply winner_validation |].
  destruct (getWinners ∅ es) as [| w l] eqn:E; [done |].
  destruct (winner_validation ∅ es w) as (r & Hr & _).
  { rewrite E. left. }
  unfold getContestResult in Hr. by rewrite lookup_empty in Hr.
Qed.

Lemma winners_carry_their_match_witness :
  getWinners ∅ [fourMatches; threeMatches] = [].
Proof.
  apply (winners_carry_their_match ∅ [fourMatches; threeMatches]).
  repeat constructor.
Defined.

(** *** Entries in another order *)



(** *** getWinnersByContest *)

Lemma groupKey_contest (e e' : Entry) :
  wellKeyed e = true -> wellKeyed e' = true ->
  groupKey e = groupKey e' -> contest e = contest e'.
Proof.
  unfold wellKeyed, groupKey. rewrite !andb_true_iff.
  intros [Hp Hc] [Hp' Hc'] H.
  apply underscore_inj in H as [_ H]; [| by apply plainName_lowLine..].
  by apply underscore_inj in H as [H _]; [| by apply plainName_lowLine..].
Qed.

(** The winners come sorted by contest, and by matches within one. *)
Lemma getWinners_sorted (this : ContestResults) (es : list Entry) :
  StronglySorted winnerOrder (getWinners this es).
Proof.
  assert (Hv : Forall isValidated (getWinners this es)).
  { apply Forall_forall. intros w Hw.
    destruct (winner_validation this es w Hw) as (r & _ & Hval & _).
    unfold isValidated. by rewrite Hval. }
  unfold getWinners in *.
  set (W := flat_map groupWinners _) in *.
  assert (HW : Forall isValidated W)
    by (by rewrite <- (sort_Permutation compareWinners W)).
  apply (StronglySorted_weaken (notAfter compareWinners) winnerOrder isValidated);
    [| done |].
  - intros a b Pa Pb. by apply compareWinners_order.
  - apply (sort_StronglySorted compareWinners isValidated); [| | done].
    + intros a b Pa Pb. rewrite !compareWinners_order by done.
      by apply winnerOrder_total.
    + intros a b c Pa Pb Pc. rewrite !compareWinners_order by done.
      apply winnerOrder_trans.
Qed.

(** More matches first. *)
Definition moreMatchesFirst (a b : Winner) : Prop :=
  exists ma mb, matches (w_validation a) = Some ma
                /\ matches (w_validation b) = Some mb /\ mb <= ma.

(** X18.  When the platform and the contest of every entry are not
    empty and hold no low line, [getWinnersByContest] returns exactly the
    winners that [getWinners] finds among all the entries and that belong
    to the contest: filtering the entries first changes no group.  They
    all have that contest and come with more matches first. *)
Theorem getWinnersByContest_restricts (this : ContestResults) (es : list Entry)
    (c : jsstring) :
  Forall (fun e => wellKeyed e = true) es ->
  getWinnersByContest this es c
  ≡ₚ List.filter (fun w => streq (contest (w_entry w)) c) (getWinners this es)
  /\ Forall (fun w => contest (w_entry w) = c) (getWinnersByContest this es c)
  /\ StronglySorted moreMatchesFirst (getWinnersByContest this es c).
Proof.
  intros Hkeys. rewrite Forall_forall in Hkeys.
  unfold getWinnersByContest.
  set (inContest := fun e : Entry => streq (contest e) c).
  set (F := List.filter inContest es).
  assert (HF : forall e, e ∈ F <-> e ∈ es /\ contest e = c).
  { intros e. unfold F. rewrite !list_elem_of_In, filter_In.
    unfold inContest. by rewrite streq_true. }
  assert (Hmax : forall e, e ∈ F -> groupMaximum this F e = groupMaximum this es e).
  { intros e He. apply HF in He as [He Hc].
    apply Z.le_antisymm; apply groupMaximum_members; intros e' Hin _ Hk.
    - by apply HF in Hin as [Hin _].
    - apply HF. split; [done |]. rewrite <- Hc.
      apply groupKey_contest; auto. }
  assert (Hall : Forall (fun w => contest (w_entry w) = c) (getWinners this F)).
  { apply Forall_forall. intros w Hw.
    apply elem_of_getWinners in Hw as (e & He & _ & ->). cbn.
    by apply HF in He as [_ He]. }
  split; [| split; [exact Hall |]].
  - rewrite (getWinners_Permutation this F).
    rewrite (filter_Permutation_bool _ _ _ (getWinners_Permutation this es)).
    rewrite filter_map_bool.
    cbn [w_entry winnerOf]. fold inContest.
    rewrite filter_comm_bool. fold F.
    rewrite (filter_ext_elem (isTop this F) (isTop this es) F)
      by (intros e He; apply isTop_ext; auto).
    rewrite (map_ext_elem (winnerOf this F) (winnerOf this es)); [done |].
    intros e He. apply list_elem_of_In, filter_In in He as [He _].
    apply isTop_ext, Hmax. by apply list_elem_of_In.
  - apply (StronglySorted_weaken winnerOrder moreMatchesFirst
             (fun w => contest (w_entry w) = c)); [| done | apply getWinners_sorted].
    intros a b Ha Hb [Hlt | [_ H]]; [| exact H].
    by rewrite Ha, Hb, strlt_irrefl in Hlt.
Qed.

Lemma getWinnersByContest_restricts_witness :
  getWinnersByContest (setResults 0 [result6903; result6904])
    [fiveInSecond; twoInFirst] (js "6904")
  ≡ₚ List.filter (fun w => streq (contest (w_entry w)) (js "6904"))
       (getWinners (setResults 0 [result6903; result6904])
          [fiveInSecond; twoInFirst]).
Proof.
  apply (getWinnersByContest_restricts (setResults 0 [result6903; result6904])
           [fiveInSecond; twoInFirst] (js "6904")).
  repeat constructor.
Defined.

(** *** getWinnersReport *)

Lemma matchesIs_eqb (k m : Z) (w : Winner) :
  matches (w_validation w) = Some m -> matchesIs k w = (m =? k).
Proof.
  intros H. unfold matchesIs. rewrite H.
  destruct (Z.eqb_spec m k) as [-> | Hne].
  - by apply bool_decide_eq_true_2.
  - apply bool_decide_eq_false_2. by intros [=].
Qed.

(** A list of winners with one to five matches is split by the five
    match counts. *)
Lemma winners_by_matches (l : list Winner) :
  Forall (fun w => exists m, matches (w_validation w) = Some m /\ 1 <= m <= 5) l ->
  length l
  = (length (List.filter (matchesIs 5) l) + length (List.filter (matchesIs 4) l)
     + length (List.filter (matchesIs 3) l) + length (List.filter (matchesIs 2) l)
     + length (List.filter (matchesIs 1) l))%nat.
Proof.
  induction 1 as [| w l (m & Hm & Hr) _ IH]; [done |].
  cbn [List.filter]. rewrite !(matchesIs_eqb _ m w Hm).
  assert (Hcases : m = 1 \/ m = 2 \/ m = 3 \/ m = 4 \/ m = 5) by lia.
  destruct Hcases as [-> | [-> | [-> | [-> | ->]]]]; cbn [Z.eqb Pos.eqb length]; lia.
Qed.

(** X19.  When no entry holds more than five chosen numbers,
    [totalWinners] of the report is the number of winners in its four
    lists plus the number of winners with one match: a group whose best
    entry matched one number has winners, they are counted in the total,
    carry the tier NO PRIZE and appear in none of the four lists. *)
Theorem getWinnersReport_total (this : ContestResults) (es : list Entry) :
  Forall (fun e => wellKeyed e = true) es ->
  Forall (fun e => (length (chosenNumbers e) <= 5)%nat) es ->
  let report := getWinnersReport this es in
  let oneMatch := List.filter (matchesIs 1) (getWinners this es) in
  totalWinners report
  = Z.of_nat (length (grandPrize report) + length (secondPrize report)
              + length (thirdPrize report) + length (consolation report)
              + length oneMatch)
  /\ forall w, w ∈ oneMatch ->
       (exists nums winning,
           w_validation w = Validated 1 nums (getPrizeTier 1) winning
           /\ tier (getPrizeTier 1) = js "NO PRIZE")
       /\ (w ∉ grandPrize report) /\ (w ∉ secondPrize report)
       /\ (w ∉ thirdPrize report) /\ (w ∉ consolation report).
Proof.
  intros _ Hfive report oneMatch. subst report oneMatch.
  unfold getWinnersReport.
  cbn [grandPrize secondPrize thirdPrize consolation totalWinners].
  rewrite Forall_forall in Hfive.
  split.
  - f_equal. apply winners_by_matches. apply Forall_forall. intros w Hw.
    pose proof Hw as Hin. apply elem_of_getWinners in Hin as (e & He & _ & Hwe).
    destruct (winner_validation this es w Hw) as (r & _ & Hval & _ & H1 & Hle).
    exists (winningLevel w). rewrite Hval. split; [done |].
    assert (Hwe' : w_entry w = e) by (by rewrite Hwe).
    specialize (Hfive e He). rewrite Hwe' in Hle. lia.
  - intros w Hw. apply list_elem_of_In, filter_In in Hw as [Hw H1].
    apply list_elem_of_In in Hw.
    destruct (winner_validation this es w Hw) as (r & _ & Hval & _).
    assert (Hm : matches (w_validation w) = Some 1)
      by (by apply bool_decide_eq_true in H1).
    assert (Hl : winningLevel w = 1)
      by (rewrite Hval in Hm; by injection Hm).
    split.
    { rewrite Hval, Hl. eauto. }
    repeat split; intros Hin; apply list_elem_of_In, filter_In in Hin as [_ Hk];
      rewrite (matchesIs_eqb _ 1 w Hm) in Hk; discriminate.
Qed.

(** One match, alone in its group. *)
Definition oneMatchOnly : Entry :=
  {| platform := js "POPN1"; gameId := js "6666666666"; contest := js "6903";
     drawDate := js "15/12/2025"; chosenNumbers := [7; 1; 2; 3; 4];
     status := Some (js "VALID"); csvStatus := None;
     validity := None; invalidReasonCode := None |}.

Lemma getWinnersReport_total_witness :
  totalWinners (getWinnersReport (setResults 0 [result6903]) [oneMatchOnly])
  = Z.of_nat
      (length (grandPrize (getWinnersReport (setResults 0 [result6903]) [oneMatchOnly]))
       + length (secondPrize (getWinnersReport (setResults 0 [result6903]) [oneMatchOnly]))
       + length (thirdPrize (getWinnersReport (setResults 0 [result6903]) [oneMatchOnly]))
       + length (consolation (getWinnersReport (setResults 0 [result6903]) [oneMatchOnly]))
       + length (List.filter (matchesIs 1)
                   (getWinners (setResults 0 [result6903]) [oneMatchOnly]))).
Proof.
  apply (getWinnersReport_total (setResults 0 [result6903]) [oneMatchOnly]);
    repeat constructor.
Defined.

Example one_match_winner_in_no_list :
  let report := getWinnersReport (setResults 0 [result6903]) [oneMatchOnly] in
  totalWinners report = 1
  /\ grandPrize report = [] /\ secondPrize report = []
  /\ thirdPrize report = [] /\ consolation report = [].
Proof. vm_compute. done. Qed.

End ValidatorMoreSpec.

(** ** Properties of the number grid and of the readers of the sheets *)

Module PageSpec.
Import JS Page ValidatorSpec.
Local Open Scope Z_scope.

(** *** Sorting numbers *)

Lemma sort_ascending_sorted (l : list Z) :
  StronglySorted Z.le (sort ascending l).
Proof.
  apply (StronglySorted_weaken (notAfter ascending) Z.le (fun _ => True)).
  - intros a b _ _. unfold notAfter, ascending. lia.
  - by apply Forall_forall.
  - apply (sort_StronglySorted ascending (fun _ => True)).
    + intros a b _ _. unfold notAfter, ascending. lia.
    + intros a b c _ _ _. unfold notAfter, ascending. lia.
    + by apply Forall_forall.
Qed.

Lemma sort_ascending_id (l : list Z) :
  StronglySorted Z.le l -> sort ascending l = l.
Proof.
  induction 1 as [| x l Hs IH Hx]; [done |]. cbn. rewrite IH.
  destruct l as [| y l]; [done |]. cbn.
  apply Forall_cons in Hx as [Hxy _].
  assert ((ascending x y <=? 0) = true) as -> by (apply Z.leb_le; unfold ascending; lia).
  done.
Qed.

Lemma sorted_strict (l : list Z) :
  StronglySorted Z.le l -> NoDup l -> StronglySorted Z.lt l.
Proof.
  induction 1 as [| x l Hs IH Hx]; intros Hn; [constructor |].
  apply NoDup_cons in Hn as [Hx' Hn]. constructor; [by apply IH |].
  rewrite Forall_forall in Hx |- *. intros y Hy.
  specialize (Hx y Hy). assert (x <> y) by (by intros ->). lia.
Qed.

Lemma strict_sorted_le (l : list Z) :
  StronglySorted Z.lt l -> StronglySorted Z.le l.
Proof.
  induction 1 as [| x l Hs IH Hx]; constructor; [done |].
  eapply Forall_impl; [exact Hx |]. intros y. cbn. lia.
Qed.

Lemma strict_sorted_NoDup (l : list Z) : StronglySorted Z.lt l -> NoDup l.
Proof.
  induction 1 as [| x l Hs IH Hx]; constructor; [| done].
  intros Hin. rewrite Forall_forall in Hx. specialize (Hx x Hin). lia.
Qed.

(** Two ascending lists without repetition that hold the same numbers
    are the same list. *)
Lemma strict_sorted_unique (l1 l2 : list Z) :
  StronglySorted Z.lt l1 -> StronglySorted Z.lt l2 ->
  (forall x, x ∈ l1 <-> x ∈ l2) -> l1 = l2.
Proof.
  intros H1. revert l2.
  induction H1 as [| x l1 Hs1 IH Hx]; intros l2 H2 Hsame.
  - destruct l2 as [| y l2]; [done |].
    exfalso. apply (not_elem_of_nil y), Hsame. left.
  - destruct H2 as [| y l2 Hs2 Hy].
    { exfalso. apply (not_elem_of_nil x), Hsame. left. }
    rewrite Forall_forall in Hx, Hy.
    assert (x = y) as ->.
    { assert (Hx2 : x ∈ y :: l2) by (apply Hsame; left).
      assert (Hy1 : y ∈ x :: l1) by (apply Hsame; left).
      apply elem_of_cons in Hx2 as [? | Hx2]; [done |].
      apply elem_of_cons in Hy1 as [? | Hy1]; [done |].
      specialize (Hx y Hy1). specialize (Hy x Hx2). lia. }
    f_equal. apply IH; [done |]. intros z. split; intros Hz.
    + assert (Hz' : z ∈ y :: l2) by (apply Hsame; by right).
      apply elem_of_cons in Hz' as [-> | ?]; [| done].
      specialize (Hx y Hz). lia.
    + assert (Hz' : z ∈ y :: l1) by (apply Hsame; by right).
      apply elem_of_cons in Hz' as [-> | ?]; [| done].
      specialize (Hy y Hz). lia.
Qed.

(** *** The numbers selected *)

(** The state the handlers keep: the selected numbers ascend without
    repetition, are numbers of the grid and at most five; the balls that
    carry the class [selected] are the selected numbers; and the button
    is enabled exactly when there are five. *)
Definition consistent (s : Selection) : Prop :=
  StronglySorted Z.lt (selectedNumbers s)
  /\ Forall (fun n => 1 <= n <= 80) (selectedNumbers s)
  /\ (length (selectedNumbers s) <= 5)%nat
  /\ selectedBalls s = list_to_set (selectedNumbers s)
  /\ submitDisabled s = negb (length (selectedNumbers s) =? 5)%nat.

Lemma initial_consistent : consistent initial.
Proof. repeat split; try constructor. cbn. lia. Qed.

Lemma consistent_eq (s1 s2 : Selection) :
  consistent s1 -> consistent s2 ->
  (forall x, x ∈ selectedNumbers s1 <-> x ∈ selectedNumbers s2) -> s1 = s2.
Proof.
  intros (Hs1 & _ & _ & Hb1 & Hd1) (Hs2 & _ & _ & Hb2 & Hd2) Hsame.
  pose proof (strict_sorted_unique _ _ Hs1 Hs2 Hsame) as Heq.
  destruct s1 as [l1 b1 d1], s2 as [l2 b2 d2]. cbn in *. subst. done.
Qed.

Lemma updateSubmitButton_consistent (s : Selection) :
  StronglySorted Z.lt (selectedNumbers s) ->
  Forall (fun n => 1 <= n <= 80) (selectedNumbers s) ->
  (length (selectedNumbers s) <= 5)%nat ->
  selectedBalls s = list_to_set (selectedNumbers s) ->
  consistent (updateSubmitButton s).
Proof.
  intros Hs Hr Hl Hb. unfold consistent, updateSubmitButton. cbn.
  repeat split; [done..|].
  destruct (Nat.eqb_spec (length (selectedNumbers s)) 5) as [-> | Hne]; [done |].
  assert ((5 <=? Z.of_nat (length (selectedNumbers s))) = false) as ->
    by (apply Z.leb_gt; lia).
  done.
Qed.

Lemma indexOfFrom_absent (i : Z) (l : list Z) (num : Z) :
  num ∉ l -> indexOfFrom i l num = -1.
Proof.
  revert i. induction l as [| x l IH]; intros i H; [done |]. cbn.
  apply not_elem_of_cons in H as [Hx H].
  destruct (Z.eqb_spec x num) as [-> | _]; [done |]. by apply IH.
Qed.

Lemma indexOfFrom_present (i : Z) (l : list Z) (num : Z) :
  num ∈ l ->
  exists k : nat, indexOfFrom i l num = i + Z.of_nat k /\ l !! k = Some num.
Proof.
  revert i. induction l as [| x l IH]; intros i H; [by apply elem_of_nil in H |].
  cbn. destruct (Z.eqb_spec x num) as [-> | Hne].
  - exists 0%nat. split; [lia | done].
  - apply elem_of_cons in H as [-> | H]; [done |].
    destruct (IH (i + 1) H) as (k & Hk & Hl). exists (S k). split; [lia | done].
Qed.

Lemma StronglySorted_delete {A : Type} (R : A -> A -> Prop) (k : nat) (l : list A) :
  StronglySorted R l -> StronglySorted R (delete k l).
Proof.
  intros H. revert k. induction H as [| x l Hs IH Hx]; intros [| k]; cbn;
    [constructor | constructor | done |].
  constructor; [apply IH |]. by apply Forall_delete.
Qed.

Lemma elem_of_delete_NoDup (k : nat) (l : list Z) (num x : Z) :
  NoDup l -> l !! k = Some num ->
  x ∈ delete k l <-> x ∈ l /\ x <> num.
Proof.
  intros Hn Hk.
  rewrite <- (take_drop_middle l k num Hk) in Hn.
  rewrite <- (take_drop_middle l k num Hk) at 2.
  rewrite delete_take_drop.
  apply NoDup_app in Hn as (_ & Hout & Hn). apply NoDup_cons in Hn as [Hin _].
  rewrite !elem_of_app, elem_of_cons. split.
  - intros [H | H].
    + split; [by left |]. intros ->. apply (Hout num H). left.
    + split; [right; by right |]. by intros ->.
  - intros [[H | [-> | H]] Hne]; [by left | done | by right].
Qed.

(** What a click on the ball [num] does. *)
Lemma toggleNumber_spec (num : Z) (s : Selection) :
  consistent s -> 1 <= num <= 80 ->
  consistent (toggleNumber num s)
  /\ ((num ∈ selectedNumbers s
       /\ forall x, x ∈ selectedNumbers (toggleNumber num s)
                    <-> x ∈ selectedNumbers s /\ x <> num)
      \/ ((num ∉ selectedNumbers s)
          /\ (length (selectedNumbers s) < 5)%nat
          /\ forall x, x ∈ selectedNumbers (toggleNumber num s)
                       <-> x ∈ selectedNumbers s \/ x = num)
      \/ ((num ∉ selectedNumbers s)
          /\ length (selectedNumbers s) = 5%nat
          /\ toggleNumber num s = s)).
Proof.
  intros (Hs & Hr & Hl & Hb & Hd) Hnum.
  pose proof (strict_sorted_NoDup _ Hs) as Hn.
  unfold toggleNumber, indexOf.
  destruct (decide (num ∈ selectedNumbers s)) as [Hin | Hout].
  - destruct (indexOfFrom_present 0 _ _ Hin) as (k & -> & Hk).
    assert ((-1 <? 0 + Z.of_nat k) = true) as -> by (apply Z.ltb_lt; lia).
    rewrite Z.add_0_l, Nat2Z.id.
    assert (Hs' : StronglySorted Z.lt (delete k (selectedNumbers s)))
      by (by apply StronglySorted_delete).
    unfold sortSelected. cbn [selectedNumbers selectedBalls submitDisabled].
    rewrite (sort_ascending_id _ (strict_sorted_le _ Hs')).
    split.
    + apply updateSubmitButton_consistent; cbn.
      * done.
      * by apply Forall_delete.
      * rewrite length_delete by (by eexists). lia.
      * rewrite Hb. apply set_eq. intros x.
        rewrite elem_of_difference, !elem_of_list_to_set, elem_of_singleton.
        by rewrite (elem_of_delete_NoDup k _ num x Hn Hk).
    + left. split; [done |]. intros x. cbn.
      apply (elem_of_delete_NoDup k _ num x Hn Hk).
  - rewrite (indexOfFrom_absent 0 _ _ Hout). change (-1 <? -1) with false.
    cbv iota.
    destruct (Z.ltb_spec (Z.of_nat (length (selectedNumbers s))) 5) as [Hlt | Hge].
    + unfold sortSelected, select.
      cbn [selectedNumbers selectedBalls submitDisabled].
      pose proof (sort_Permutation ascending (selectedNumbers s ++ [num])) as Hp.
      split.
      * apply updateSubmitButton_consistent; cbn.
        -- apply sorted_strict; [apply sort_ascending_sorted |].
           rewrite Hp. apply NoDup_app. split; [done |].
           split; [| apply NoDup_singleton].
           intros x Hx Hx'. apply list_elem_of_singleton in Hx'. by subst.
        -- rewrite Hp. apply Forall_app. split; [done |]. by apply Forall_singleton.
        -- rewrite Hp, length_app. cbn. lia.
        -- rewrite Hp, Hb. by rewrite list_to_set_snoc_L.
      * right. left. split; [done |]. split; [lia |]. intros x. cbn.
        rewrite Hp, elem_of_app, list_elem_of_singleton. done.
    + assert (Hfive : length (selectedNumbers s) = 5%nat) by lia.
      assert (Hsame : updateSubmitButton (sortSelected s) = s).
      { unfold sortSelected, updateSubmitButton.
        cbn [selectedNumbers selectedBalls submitDisabled].
        rewrite (sort_ascending_id _ (strict_sorted_le _ Hs)).
        destruct s as [l b d]. cbn in *. rewrite Hfive in *. cbn in *. by subst. }
      rewrite Hsame. split; [by repeat split |].
      right. right. done.
Qed.

(** *** The shuffle *)

Lemma insert_head_Permutation (j : nat) (l : list Z) (x xj : Z) :
  l !! j = Some xj -> xj :: <[j := x]> l ≡ₚ x :: l.
Proof.
  revert j. induction l as [| y l IH]; intros [| j] H; try done; cbn in *.
  - injection H as ->. apply perm_swap.
  - rewrite perm_swap, (IH j H). apply perm_swap.
Qed.

Lemma swap_Permutation (i j : Z) (numbers numbers' : list Z) :
  swap i j numbers = Some numbers' -> numbers' ≡ₚ numbers.
Proof.
  unfold swap. destruct ((0 <=? i) && (0 <=? j)); [| done].
  generalize (Z.to_nat i) (Z.to_nat j). clear i j. intros i j.
  destruct (numbers !! i) as [xi |] eqn:Hi; [| done].
  destruct (numbers !! j) as [xj |] eqn:Hj; [| done].
  intros [= <-]. revert i j Hi Hj.
  induction numbers as [| x l IH]; intros [| i] [| j] Hi Hj; try done; cbn in *.
  - by simplify_eq.
  - injection Hi as ->. by apply insert_head_Permutation.
  - injection Hj as ->. by apply insert_head_Permutation.
  - constructor. by apply IH.
Qed.

Lemma swap_defined (i j : Z) (numbers : list Z) :
  0 <= j <= i -> i < Z.of_nat (length numbers) ->
  is_Some (swap i j numbers).
Proof.
  intros Hj Hi. unfold swap.
  assert (((0 <=? i) && (0 <=? j)) = true) as ->
    by (apply andb_true_iff; split; apply Z.leb_le; lia).
  destruct (lookup_lt_is_Some_2 numbers (Z.to_nat i)) as [xi ->]; [lia |].
  destruct (lookup_lt_is_Some_2 numbers (Z.to_nat j)) as [xj ->]; [lia |].
  by eexists.
Qed.

(** The loop rearranges the array, whatever the random source gives
    within its range. *)
Lemma shuffle_Permutation (rand : Z -> Z) (n : nat) (numbers : list Z) :
  (forall i, 0 < i -> 0 <= rand i <= i) ->
  (n < length numbers)%nat ->
  exists numbers', shuffle rand n numbers = Some numbers' /\ numbers' ≡ₚ numbers.
Proof.
  intros Hrand. revert numbers.
  induction n as [| n IH]; intros numbers Hn; [by exists numbers |].
  cbn [shuffle].
  destruct (swap_defined (Z.of_nat (S n)) (rand (Z.of_nat (S n))) numbers)
    as [swapped Hsw]; [apply Hrand; lia | lia |].
  rewrite Hsw. pose proof (swap_Permutation _ _ _ _ Hsw) as Hp.
  destruct (IH swapped) as (numbers' & Hsh & Hp').
  { rewrite Hp. lia. }
  exists numbers'. split; [done |]. by rewrite Hp'.
Qed.

Lemma fold_left_select (l : list Z) (s : Selection) :
  fold_left select l s
  = {| selectedNumbers := selectedNumbers s ++ l;
       selectedBalls := selectedBalls s ∪ list_to_set l;
       submitDisabled := submitDisabled s |}.
Proof.
  revert s. induction l as [| x l IH]; intros s; cbn [fold_left].
  - destruct s as [l b d]. cbn. f_equal; [by rewrite app_nil_r |].
    by rewrite (right_id_L ∅ (∪)).
  - rewrite IH. unfold select. cbn. f_equal; [by rewrite <- app_assoc |].
    by rewrite (assoc_L (∪)).
Qed.

(** What [surpresinha] leaves selected. *)
Lemma surpresinha_spec (rand : Z -> Z) (s : Selection) :
  (forall i, 0 < i -> 0 <= rand i <= i) ->
  exists s',
    surpresinha rand s = Some s'
    /\ length (selectedNumbers s') = 5%nat
    /\ StronglySorted Z.lt (selectedNumbers s')
    /\ Forall (fun n => 1 <= n <= 80) (selectedNumbers s')
    /\ selectedBalls s' = list_to_set (selectedNumbers s')
    /\ submitDisabled s' = false.
Proof.
  intros Hrand. unfold surpresinha.
  assert (Hlen : length (seqZ 1 80) = 80%nat) by (by rewrite length_seqZ).
  rewrite Hlen. change (80 - 1)%nat with 79%nat.
  destruct (shuffle_Permutation rand 79 (seqZ 1 80) Hrand) as (numbers & -> & Hp);
    [lia |].
  change (Z.to_nat 5) with 5%nat.
  set (five := take 5 numbers).
  assert (Hfive : length five = 5%nat).
  { unfold five. rewrite length_take, Hp, Hlen. done. }
  assert (Hnd : NoDup five).
  { unfold five. apply (sublist_NoDup _ numbers); [| apply sublist_take].
    rewrite Hp. apply NoDup_seqZ. }
  assert (Hrange : Forall (fun n => 1 <= n <= 80) five).
  { unfold five. apply Forall_take. rewrite Hp.
    apply Forall_forall. intros x Hx. apply elem_of_seqZ in Hx. lia. }
  pose proof (sort_Permutation ascending five) as Hsp.
  pose proof (sort_ascending_sorted five) as Hss.
  rewrite fold_left_select. unfold clearNumbers, sortSelected, updateSubmitButton.
  cbn [selectedNumbers selectedBalls submitDisabled app].
  rewrite (sort_ascending_id _ Hss).
  assert (Hlen5 : length (sort ascending five) = 5%nat) by (by rewrite Hsp).
  eexists. split; [reflexivity |].
  cbn [selectedNumbers selectedBalls submitDisabled].
  rewrite Hlen5. repeat split.
  - apply sorted_strict; [done | by rewrite Hsp].
  - by rewrite Hsp.
  - by rewrite (left_id_L ∅ (∪)).
Qed.

Lemma surpresinha_forgets (rand : Z -> Z) (s : Selection) :
  surpresinha rand s = surpresinha rand initial.
Proof. reflexivity. Qed.

(** *** The clicks *)

(** What the visitor can do to the selection: click a ball of the grid,
    the button that clears, or the button of the surpresinha. *)
Inductive Action :=
| ClickBall (num : Z)
| ClickClear
| ClickSurpresinha (rand : Z -> Z).

(** The balls of the grid carry the numbers 1 to 80, and
    [Math.floor(Math.random() * (i + 1))] is between 0 and [i]. *)
Definition possible (a : Action) : Prop :=
  match a with
  | ClickBall num => 1 <= num <= 80
  | ClickClear => True
  | ClickSurpresinha rand => forall i, 0 < i -> 0 <= rand i <= i
  end.

Definition handle (a : Action) (s : Selection) : option Selection :=
  match a with
  | ClickBall num => Some (toggleNumber num s)
  | ClickClear => Some (clearNumbers s)
  | ClickSurpresinha rand => surpresinha rand s
  end.

Fixpoint run (actions : list Action) (s : Selection) : option Selection :=
  match actions with
  | [] => Some s
  | a :: rest =>
      match handle a s with
      | Some s' => run rest s'
      | None => None
      end
  end.

Lemma handle_consistent (a : Action) (s : Selection) :
  possible a -> consistent s ->
  exists s', handle a s = Some s' /\ consistent s'.
Proof.
  intros Ha Hs. destruct a as [num | | rand]; cbn in *.
  - eexists. split; [done |]. by apply toggleNumber_spec.
  - eexists. split; [done |]. unfold clearNumbers.
    apply updateSubmitButton_consistent; cbn; [constructor | constructor | lia | done].
  - destruct (surpresinha_spec rand s Ha) as (s' & -> & H5 & H1 & H2 & H3 & H4).
    exists s'. split; [done |]. unfold consistent. rewrite H5.
    repeat split; [done | done | lia | done | done].
Qed.

Lemma run_consistent (actions : list Action) (s : Selection) :
  Forall possible actions -> consistent s ->
  exists s', run actions s = Some s' /\ consistent s'.
Proof.
  intros Ha. revert s. induction Ha as [| a actions Hp _ IH]; intros s Hs.
  - by exists s.
  - cbn [run]. destruct (handle_consistent a s Hp Hs) as (s1 & -> & Hs1).
    by apply IH.
Qed.

Lemma numbersAccepted_five (s : Selection) :
  (length (selectedNumbers s) <= 5)%nat ->
  numbersAccepted s = true <-> length (selectedNumbers s) = 5%nat.
Proof.
  intros Hl. unfold numbersAccepted.
  rewrite negb_true_iff, orb_false_iff, !Z.ltb_ge. lia.
Qed.

(** X20.  From the page as it loads, after any clicks on the balls of
    the grid, on the button that clears and on the button of the
    surpresinha, with any values of the random source within its range:
    no handler fails; the selected numbers ascend without repetition, lie
    between 1 and 80 and are at most five; the balls marked as selected
    are exactly the selected numbers; the button is enabled exactly when
    there are five; and the test of [confirmEntry] lets through exactly
    the selections of five numbers. *)
Theorem selection_stays_consistent (actions : list Action) :
  Forall possible actions ->
  exists s,
    run actions initial = Some s
    /\ StronglySorted Z.lt (selectedNumbers s)
    /\ Forall (fun n => 1 <= n <= 80) (selectedNumbers s)
    /\ (length (selectedNumbers s) <= 5)%nat
    /\ selectedBalls s = list_to_set (selectedNumbers s)
    /\ (submitDisabled s = false <-> length (selectedNumbers s) = 5%nat)
    /\ (numbersAccepted s = true <-> length (selectedNumbers s) = 5%nat).
Proof.
  intros Ha.
  destruct (run_consistent actions initial Ha initial_consistent)
    as (s & Hrun & Hs & Hr & Hl & Hb & Hd).
  exists s. repeat split; try done.
  - rewrite Hd. intros H. apply negb_false_iff in H. by apply Nat.eqb_eq.
  - rewrite Hd. intros ->. done.
  - by apply numbersAccepted_five.
  - by apply numbersAccepted_five.
Qed.

Lemma selection_stays_consistent_witness :
  exists s,
    run [ClickBall 7; ClickBall 3; ClickSurpresinha (fun _ => 0); ClickBall 80;
         ClickClear; ClickBall 12] initial = Some s
    /\ StronglySorted Z.lt (selectedNumbers s).
Proof.
  destruct (selection_stays_consistent
              [ClickBall 7; ClickBall 3; ClickSurpresinha (fun _ => 0); ClickBall 80;
               ClickClear; ClickBall 12]) as (s & H1 & H2 & _).
  - repeat constructor; cbn; lia.
  - exists s. split; [exact H1 | exact H2].
Defined.

(** X21.  [surpresinha] forgets what was selected: for any random
    values within their range it leaves the same selection as on the page
    just loaded, five numbers that pass the test of [confirmEntry], and
    the button enabled. *)
Theorem surpresinha_five_numbers (rand : Z -> Z) (s : Selection) :
  (forall i, 0 < i -> 0 <= rand i <= i) ->
  exists s',
    surpresinha rand s = Some s'
    /\ surpresinha rand initial = Some s'
    /\ length (selectedNumbers s') = 5%nat
    /\ NoDup (selectedNumbers s')
    /\ Forall (fun n => 1 <= n <= 80) (selectedNumbers s')
    /\ numbersAccepted s' = true
    /\ submitDisabled s' = false.
Proof.
  intros Hrand.
  destruct (surpresinha_spec rand s Hrand) as (s' & Hs' & H5 & Hsorted & Hr & _ & Hd).
  exists s'. split; [done |]. split; [by rewrite <- (surpresinha_forgets rand s) |].
  split; [done |]. split; [by apply strict_sorted_NoDup |]. split; [done |].
  split; [| done]. apply numbersAccepted_five; lia.
Qed.

Lemma surpresinha_five_numbers_witness :
  exists s',
    surpresinha (fun _ => 0) initial = Some s'
    /\ length (selectedNumbers s') = 5%nat.
Proof.
  destruct (surpresinha_five_numbers (fun _ => 0) initial) as (s' & H1 & _ & H2 & _).
  - intros i Hi. lia.
  - exists s'. split; [exact H1 | exact H2].
Defined.

(** X22.  In a state the clicks can reach, clicking the same ball twice
    changes nothing: the second click undoes the first, and a click on a
    sixth number is refused both times. *)
Theorem toggleNumber_twice (actions : list Action) (s : Selection) (num : Z) :
  Forall possible actions -> run actions initial = Some s ->
  1 <= num <= 80 ->
  toggleNumber num (toggleNumber num s) = s.
Proof.
  intros Ha Hrun Hnum.
  destruct (run_consistent actions initial Ha initial_consistent)
    as (s0 & Hrun' & Hs).
  rewrite Hrun in Hrun'. injection Hrun' as <-.
  destruct (toggleNumber_spec num s Hs Hnum) as [Hs1 Hcase].
  destruct (toggleNumber_spec num _ Hs1 Hnum) as [Hs2 Hcase2].
  pose proof Hs as (_ & _ & Hl & _).
  apply consistent_eq; [done | done |]. intros x.
  assert (Hdec : x = num \/ x <> num) by lia.
  destruct Hcase as [(Hin & H1) | [(Hout & Hlt & H1) | (Hout & Hfive & H1)]].
  - destruct Hcase2 as [(Hin2 & _) | [(Hout2 & Hlt2 & H2) | (Hout2 & Hfive2 & H2)]].
    + apply H1 in Hin2. by destruct Hin2.
    + rewrite H2, H1. split; [| by destruct Hdec; [subst; tauto | tauto]].
      intros [[? _] | ->]; done.
    + exfalso.
      pose proof (strict_sorted_NoDup _ (proj1 Hs)) as Hn.
      destruct (indexOfFrom_present 0 _ _ Hin) as (k & _ & Hk).
      assert (Hlen : length (selectedNumbers (toggleNumber num s))
                     = length (delete k (selectedNumbers s))).
      { f_equal. apply strict_sorted_unique.
        - apply Hs1.
        - apply StronglySorted_delete, Hs.
        - intros y. rewrite H1. symmetry. by apply elem_of_delete_NoDup. }
      rewrite length_delete in Hlen by (by eexists). lia.
  - destruct Hcase2 as [(Hin2 & H2) | [(Hout2 & _) | (Hout2 & _)]].
    + rewrite H2, H1. split; [| intros Hx; split; [by left | by intros ->]].
      intros [[? | ->] ?]; done.
    + exfalso. apply Hout2, H1. by right.
    + exfalso. apply Hout2, H1. by right.
  - by rewrite H1, H1.
Qed.

Lemma toggleNumber_twice_witness :
  toggleNumber 7 (toggleNumber 7 (toggleNumber 3 initial)) = toggleNumber 3 initial.
Proof.
  apply (toggleNumber_twice [ClickBall 3] (toggleNumber 3 initial) 7).
  - repeat constructor; cbn; lia.
  - reflexivity.
  - lia.
Defined.

(** *** parseCSVLine *)

(** The fields joined by the delimiter [d]: a line of a sheet. *)
Definition joinWith (d : N) (fields : list jsstring) : jsstring :=
  match fields with
  | [] => []
  | f :: rest => f ++ flat_map (fun g => d :: g) rest
  end.

(** A field that reads back as it is: it holds neither the delimiter
    nor a quotation mark, and no white space around it. *)
Definition plainField (d : N) (f : jsstring) : Prop :=
  (d ∉ f) /\ (quotationMark ∉ f) /\ trim f = f.

(** The same, as a test. *)
Definition isPlainField (d : N) (f : jsstring) : bool :=
  negb (existsb (N.eqb d) f) && negb (existsb (N.eqb quotationMark) f)
  && streq (trim f) f.

Lemma existsb_eqb_elem_of (c : N) (f : jsstring) :
  existsb (N.eqb c) f = false -> c ∉ f.
Proof.
  intros H Hin. apply list_elem_of_In in Hin.
  assert (existsb (N.eqb c) f = true); [| congruence].
  apply existsb_exists. exists c. split; [done | apply N.eqb_refl].
Qed.

Lemma isPlainField_plainField (d : N) (f : jsstring) :
  isPlainField d f = true -> plainField d f.
Proof.
  unfold isPlainField, plainField.
  rewrite !andb_true_iff, !negb_true_iff, streq_true.
  intros [[H1 H2] H3]. repeat split; [by apply existsb_eqb_elem_of.. | done].
Qed.

Lemma parseChar_plain (d ch : N) (st : Parsing) :
  ch <> quotationMark -> ch <> d ->
  parseChar [d] st ch
  = {| values := values st; current := current st ++ [ch];
       inQuotes := inQuotes st |}.
Proof.
  intros Hq Hd. unfold parseChar.
  apply N.eqb_neq in Hq. rewrite Hq.
  assert (streq [ch] [d] = false) as -> by (apply streq_false; congruence).
  done.
Qed.

Lemma parseChar_delimiter (d : N) (st : Parsing) :
  d <> quotationMark -> inQuotes st = false ->
  parseChar [d] st d
  = {| values := values st ++ [trim (current st)]; current := [];
       inQuotes := false |}.
Proof.
  intros Hq Hin. unfold parseChar.
  apply N.eqb_neq in Hq. rewrite Hq, Hin.
  assert (streq [d] [d] = true) as -> by (by apply streq_true).
  done.
Qed.

Lemma parse_field (d : N) (f : jsstring) (st : Parsing) :
  d ∉ f -> quotationMark ∉ f ->
  fold_left (parseChar [d]) f st
  = {| values := values st; current := current st ++ f;
       inQuotes := inQuotes st |}.
Proof.
  revert st. induction f as [| ch f IH]; intros st Hd Hq; cbn [fold_left].
  - destruct st. cbn. by rewrite app_nil_r.
  - apply not_elem_of_cons in Hd as [Hd Hd'], Hq as [Hq Hq'].
    rewrite parseChar_plain by done. rewrite IH by done. cbn.
    by rewrite <- app_assoc.
Qed.

Lemma parse_fields (d : N) (rest : list jsstring) (f : jsstring)
    (vs : list jsstring) :
  d <> quotationMark -> Forall (plainField d) (f :: rest) ->
  let st :=
    fold_left (parseChar [d]) (joinWith d (f :: rest))
      {| values := vs; current := []; inQuotes := false |} in
  values st ++ [trim (current st)] = vs ++ f :: rest.
Proof.
  intros Hq. revert f vs. induction rest as [| g rest IH]; intros f vs Hall st;
    subst st; apply Forall_cons in Hall as [(Hd & Hqf & Ht) Hall]; cbn [joinWith flat_map].
  - rewrite app_nil_r, parse_field by done. cbn [values current app].
    by rewrite Ht.
  - rewrite fold_left_app, (parse_field d f) by done.
    cbn [fold_left app values current inQuotes].
    rewrite parseChar_delimiter by done. cbn [values current app].
    rewrite Ht. specialize (IH g (vs ++ [f]) Hall). cbv zeta in IH.
    cbn [joinWith] in IH. rewrite IH. by rewrite <- app_assoc.
Qed.

Lemma parseCSVLine_joinWith (d : N) (fields : list jsstring) :
  d <> quotationMark -> fields <> [] -> Forall (plainField d) fields ->
  parseCSVLine (joinWith d fields) [d] = fields.
Proof.
  intros Hq Hne Hall. destruct fields as [| f rest]; [done |].
  unfold parseCSVLine. by rewrite (parse_fields d rest f [] Hq Hall).
Qed.

Lemma elem_of_trimStart (x : N) (s : jsstring) : x ∈ trimStart s -> x ∈ s.
Proof.
  induction s as [| c s IH]; [done |]. cbn.
  destruct (isWhiteSpace c); [| done]. intros H. right. by apply IH.
Qed.

Lemma elem_of_trim (x : N) (s : jsstring) : x ∈ trim s -> x ∈ s.
Proof.
  unfold trim, trimEnd. intros H.
  rewrite list_elem_of_In, <- in_rev, <- list_elem_of_In in H.
  apply elem_of_trimStart in H.
  rewrite list_elem_of_In, <- in_rev, <- list_elem_of_In in H.
  by apply elem_of_trimStart.
Qed.

(** The loop never stores a quotation mark. *)
Lemma parse_no_quotes (delimiter line : jsstring) (st : Parsing) :
  Forall (fun f => quotationMark ∉ f) (values st) ->
  quotationMark ∉ current st ->
  Forall (fun f => quotationMark ∉ f)
    (values (fold_left (parseChar delimiter) line st))
  /\ quotationMark ∉ current (fold_left (parseChar delimiter) line st).
Proof.
  revert st. induction line as [| ch line IH]; intros st Hv Hc; [done |].
  cbn [fold_left]. apply IH; unfold parseChar;
    destruct (N.eqb_spec ch quotationMark) as [-> | Hne]; cbn; try done;
    destruct (streq [ch] delimiter && negb (inQuotes st)); cbn; try done.
  - apply Forall_app. split; [done |]. apply Forall_singleton.
    intros H. by apply elem_of_trim in H.
  - apply not_elem_of_nil.
  - intros H. apply elem_of_app in H as [H | H]; [done |].
    apply list_elem_of_singleton in H. congruence.
Qed.

(** X23.  [parseCSVLine] always returns at least one field and never a
    field that holds a quotation mark; and a line made of fields that
    hold neither the delimiter nor a quotation mark nor white space around
    them, joined by the delimiter, is split back into exactly those
    fields. *)
Theorem parseCSVLine_fields (d : N) (fields : list jsstring) :
  d <> quotationMark -> fields <> [] -> Forall (plainField d) fields ->
  parseCSVLine (joinWith d fields) [d] = fields
  /\ forall line delimiter : jsstring,
       parseCSVLine line delimiter <> []
       /\ Forall (fun f => quotationMark ∉ f) (parseCSVLine line delimiter).
Proof.
  intros Hq Hne Hall. split; [by apply parseCSVLine_joinWith |].
  intros line delimiter. unfold parseCSVLine. split.
  - intros H. by apply app_eq_nil in H as [_ H].
  - destruct (parse_no_quotes delimiter line
                {| values := []; current := []; inQuotes := false |})
      as [Hv Hc]; [constructor | apply not_elem_of_nil |].
    apply Forall_app. split; [done |]. apply Forall_singleton.
    intros H. by apply elem_of_trim in H.
Qed.

Lemma parseCSVLine_fields_witness :
  parseCSVLine (joinWith semicolon [js "PLATFORM"; js "GAME ID"; js "STATUS"])
    [semicolon]
  = [js "PLATFORM"; js "GAME ID"; js "STATUS"].
Proof.
  apply (parseCSVLine_fields semicolon [js "PLATFORM"; js "GAME ID"; js "STATUS"]).
  - done.
  - done.
  - repeat constructor; by apply isPlainField_plainField.
Defined.

(** *** detectDelimiter *)

(** The four delimiters, in the order of the literal. *)
Definition delimiters : list N := [comma; semicolon; tab; verticalLine].

(** What [detectDelimiter] returns, by the four counts. *)
Lemma detectDelimiter_cases (headerLine : jsstring) :
  let n := fun c => occurrences c headerLine in
  (detectDelimiter headerLine = [comma]
   /\ n semicolon <= n comma /\ n tab <= n comma /\ n verticalLine <= n comma)
  \/ (detectDelimiter headerLine = [semicolon]
      /\ n comma < n semicolon /\ n tab <= n semicolon
      /\ n verticalLine <= n semicolon)
  \/ (detectDelimiter headerLine = [tab]
      /\ n comma < n tab /\ n semicolon < n tab /\ n verticalLine <= n tab)
  \/ (detectDelimiter headerLine = [verticalLine]
      /\ n comma < n verticalLine /\ n semicolon < n verticalLine
      /\ n tab < n verticalLine).
Proof.
  intros n. subst n. unfold detectDelimiter. cbv beta.
  generalize (occurrences comma headerLine) (occurrences semicolon headerLine)
    (occurrences tab headerLine) (occurrences verticalLine headerLine).
  intros a b c d. cbn [sort insert_sorted snd].
  repeat match goal with
         | |- context [?x <=? ?y] =>
             destruct (Z.leb_spec x y); cbn [insert_sorted snd]
         end;
    cbn [truthy];
    first [ solve [left; repeat split; first [reflexivity | lia]]
          | solve [right; left; repeat split; first [reflexivity | lia]]
          | solve [right; right; left; repeat split; first [reflexivity | lia]]
          | solve [right; right; right; repeat split; first [reflexivity | lia]] ].
Qed.

(** X24.  [detectDelimiter] returns the one of comma, semicolon, tab
    and vertical line that occurs most often in the header line, and of
    those that occur equally often the one listed first; so a header that
    holds none of them gives the comma. *)
Theorem detectDelimiter_most_frequent (headerLine : jsstring) :
  exists (k : nat) (c : N),
    delimiters !! k = Some c
    /\ detectDelimiter headerLine = [c]
    /\ forall (k' : nat) (c' : N),
         delimiters !! k' = Some c' ->
         occurrences c' headerLine <= occurrences c headerLine
         /\ ((k' < k)%nat -> occurrences c' headerLine < occurrences c headerLine).
Proof.
  pose proof (detectDelimiter_cases headerLine) as H. cbv zeta beta in H.
  destruct H as [(-> & H1 & H2 & H3) | [(-> & H1 & H2 & H3)
               | [(-> & H1 & H2 & H3) | (-> & H1 & H2 & H3)]]];
    [exists 0%nat, comma | exists 1%nat, semicolon
     | exists 2%nat, tab | exists 3%nat, verticalLine];
    (split; [done |]; split; [done |]; intros k' c' Hk;
     destruct k' as [| [| [| [| k']]]]; cbn in Hk; try discriminate;
     injection Hk as <-; split; lia).
Qed.

Example detectDelimiter_examples :
  detectDelimiter (js "PLATFORM;GAME ID;STATUS") = [semicolon]
  /\ detectDelimiter (js "a,b;c") = [comma]
  /\ detectDelimiter (js "header") = [comma].
Proof. vm_compute. done. Qed.

(** *** A header line read back *)

Lemma occurrences_app (c : N) (a b : jsstring) :
  occurrences c (a ++ b) = occurrences c a + occurrences c b.
Proof. unfold occurrences. rewrite List.filter_app, length_app. lia. Qed.

Lemma occurrences_absent (c : N) (f : jsstring) : c ∉ f -> occurrences c f = 0.
Proof.
  intros H. unfold occurrences.
  induction f as [| x f IH]; [done |].
  apply not_elem_of_cons in H as [Hx H]. cbn.
  destruct (N.eqb_spec c x) as [-> | _]; [done |]. by apply IH.
Qed.

Lemma occurrences_cons (c x : N) (f : jsstring) :
  occurrences c (x :: f) = (if (c =? x)%N then 1 else 0) + occurrences c f.
Proof. unfold occurrences. cbn. destruct (c =? x)%N; cbn; lia. Qed.

Lemma occurrences_joinWith (c d : N) (fields : list jsstring) :
  Forall (fun f => c ∉ f) fields -> fields <> [] ->
  occurrences c (joinWith d fields)
  = if (c =? d)%N then Z.of_nat (length fields) - 1 else 0.
Proof.
  intros Hall Hne. destruct fields as [| f rest]; [done |].
  apply Forall_cons in Hall as [Hf Hall]. cbn [joinWith length].
  rewrite occurrences_app, (occurrences_absent c f Hf).
  induction Hall as [| g rest Hg _ IH]; cbn [flat_map length app].
  - destruct (c =? d)%N; reflexivity.
  - rewrite occurrences_cons, occurrences_app, (occurrences_absent c g Hg).
    specialize (IH ltac:(done)). destruct (c =? d)%N; lia.
Qed.

(** X25.  A header of at least two fields, joined by one of the four
    delimiters, whose fields hold none of the four delimiters, no
    quotation mark and no white space around them, is read back: from
    the header [detectDelimiter] finds the delimiter, and [parseCSVLine]
    with it returns the fields. *)
Theorem header_read_back (d : N) (fields : list jsstring) :
  d ∈ delimiters ->
  (2 <= length fields)%nat ->
  Forall (fun f => forall c, c ∈ delimiters -> plainField c f) fields ->
  detectDelimiter (joinWith d fields) = [d]
  /\ parseCSVLine (joinWith d fields) (detectDelimiter (joinWith d fields))
     = fields.
Proof.
  intros Hd Hlen Hall.
  assert (Hne : fields <> []) by (intros ->; cbn in Hlen; lia).
  assert (Hocc : forall c, c ∈ delimiters ->
             occurrences c (joinWith d fields)
             = if (c =? d)%N then Z.of_nat (length fields) - 1 else 0).
  { intros c Hc. apply occurrences_joinWith; [| done].
    eapply Forall_impl; [exact Hall |]. intros f Hf. by apply (Hf c Hc). }
  assert (Hdet : detectDelimiter (joinWith d fields) = [d]).
  { pose proof (detectDelimiter_cases (joinWith d fields)) as H.
    cbv zeta beta in H.
    rewrite !Hocc in H
      by (unfold delimiters; rewrite !elem_of_cons; tauto).
    unfold delimiters in Hd. rewrite !elem_of_cons, elem_of_nil in Hd.
    destruct Hd as [-> | [-> | [-> | [-> | []]]]]; cbn in H;
      destruct H as [(-> & H) | [(-> & H) | [(-> & H) | (-> & H)]]];
      try reflexivity; lia. }
  split; [exact Hdet |]. rewrite Hdet.
  apply parseCSVLine_joinWith; [| done |].
  - unfold delimiters in Hd. rewrite !elem_of_cons, elem_of_nil in Hd.
    by destruct Hd as [-> | [-> | [-> | [-> | []]]]].
  - eapply Forall_impl; [exact Hall |]. intros f Hf. by apply Hf.
Qed.

Lemma header_read_back_witness :
  parseCSVLine (joinWith tab [js "Member ID"; js "Order Number"])
    (detectDelimiter (joinWith tab [js "Member ID"; js "Order Number"]))
  = [js "Member ID"; js "Order Number"].
Proof.
  apply (header_read_back tab [js "Member ID"; js "Order Number"]).
  - unfold delimiters. rewrite !elem_of_cons. tauto.
  - cbn. lia.
  - apply Forall_forall. intros f Hf c Hc.
    rewrite !elem_of_cons, elem_of_nil in Hf.
    unfold delimiters in Hc. rewrite !elem_of_cons, elem_of_nil in Hc.
    destruct Hf as [-> | [-> | []]];
      destruct Hc as [-> | [-> | [-> | [-> | []]]]];
      by apply isPlainField_plainField.
Defined.

(** *** The status shown and the status checked *)

(** No white space is among the code units that [toUpperCase] changes. *)
Lemma isWhiteSpace_changed (c : N) :
  (97 <= c <= 122 \/ c = 181 \/ 223 <= c <= 255)%N -> isWhiteSpace c = false.
Proof.
  intros Hc. unfold isWhiteSpace.
  repeat match goal with
         | |- context [(?a <=? ?b)%N] => destruct (N.leb_spec a b); try lia
         | |- context [(?a =? ?b)%N] => destruct (N.eqb_spec a b); try lia
         end;
    try reflexivity.
Qed.

Lemma upperUnit_whiteSpace (c : N) : isWhiteSpace c = true -> upperUnit c = [c].
Proof.
  intros Hw.
  assert (Hc : ~ (97 <= c <= 122 \/ c = 181 \/ 223 <= c <= 255)%N).
  { intros Hc. by rewrite (isWhiteSpace_changed c Hc) in Hw. }
  unfold upperUnit.
  repeat match goal with
         | |- context [(?a <=? ?b)%N] => destruct (N.leb_spec a b)
         | |- context [(?a =? ?b)%N] => destruct (N.eqb_spec a b)
         end; cbn; try done; lia.
Qed.

Lemma toUpperCase_whiteSpace (s : jsstring) (c : N) :
  c ∈ s -> isWhiteSpace c = true -> c ∈ toUpperCase s.
Proof.
  intros Hc Hw. unfold toUpperCase.
  apply list_elem_of_In, in_concat. exists (upperUnit c). split.
  - apply in_map. by apply list_elem_of_In.
  - rewrite (upperUnit_whiteSpace c Hw). by left.
Qed.

Lemma trimStart_id (s : jsstring) :
  Forall (fun c => isWhiteSpace c = false) s -> trimStart s = s.
Proof. intros H. destruct H as [| c s Hc _]; [done |]. cbn. by rewrite Hc. Qed.

Lemma trim_id (s : jsstring) :
  Forall (fun c => isWhiteSpace c = false) s -> trim s = s.
Proof.
  intros H. unfold trim, trimEnd. rewrite (trimStart_id s H).
  rewrite trimStart_id; [apply rev_involutive |].
  apply Forall_forall. intros c Hc. rewrite Forall_forall in H. apply H.
  by rewrite list_elem_of_In, in_rev, <- list_elem_of_In.
Qed.

(** A text whose upper case holds no white space is not changed by
    [trim]. *)
Lemma trim_upper (s : jsstring) :
  Forall (fun c => isWhiteSpace c = false) (toUpperCase s) -> trim s = s.
Proof.
  intros H. apply trim_id, Forall_forall. intros c Hc.
  destruct (isWhiteSpace c) eqn:E; [| done].
  rewrite Forall_forall in H.
  by rewrite (H c (toUpperCase_whiteSpace s c Hc E)) in E.
Qed.

(** The text [normalizeTicketStatus] puts in upper case. *)
Definition statusText (status : option jsstring) : jsstring :=
  default [] (or_else status (Some [])).

Lemma label_valid (status : option jsstring) :
  normalizeTicketStatus status = js "valid" ->
  toUpperCase (statusText status) = js "VALID"
  \/ toUpperCase (statusText status) = js "VALIDADO".
Proof.
  unfold normalizeTicketStatus. fold (statusText status).
  destruct (streq (toUpperCase (statusText status)) (js "VALID")) eqn:E1.
  { apply streq_true in E1. by left. }
  destruct (streq (toUpperCase (statusText status)) (js "VALIDADO")) eqn:E2.
  { apply streq_true in E2. by right. }
  cbn [orb].
  by destruct (streq _ (js "INVALID") || streq _ Validator.INVALIDO).
Qed.

Lemma label_invalid (status : option jsstring) :
  normalizeTicketStatus status = js "invalid" ->
  toUpperCase (statusText status) = js "INVALID"
  \/ toUpperCase (statusText status) = Validator.INVALIDO.
Proof.
  unfold normalizeTicketStatus. fold (statusText status).
  destruct (streq (toUpperCase (statusText status)) (js "VALID")
            || streq (toUpperCase (statusText status)) (js "VALIDADO"));
    [done |].
  destruct (streq (toUpperCase (statusText status)) (js "INVALID")) eqn:E1.
  { apply streq_true in E1. by left. }
  destruct (streq (toUpperCase (statusText status)) Validator.INVALIDO) eqn:E2.
  { apply streq_true in E2. by right. }
  done.
Qed.

(** X26.  The label the page shows for a ticket and the check of the
    validator agree where the label is decided: a status the page labels
    [valid] passes the status filter of [getWinners], and a status the
    page labels [invalid] is rejected by [validateEntry] with the gate
    STATUS_INVALID (for an entry with no validity) and does not pass the
    filter.  The status is taken with code units up to U+00FF, where the
    upper case of the model is that of the language. *)
Theorem label_agrees_with_validator (this : Validator.ContestResults)
    (e : Validator.Entry) :
  Forall (fun c => (c <= 255)%N) (statusText (Validator.status e)) ->
  (normalizeTicketStatus (Validator.status e) = js "valid" ->
   Validator.isEligible e = true)
  /\ (normalizeTicketStatus (Validator.status e) = js "invalid" ->
      truthy (Validator.validity e) = false ->
      Validator.gate (Validator.validateEntry this e)
      = Some Validator.STATUS_INVALID
      /\ Validator.isEligible e = false).
Proof.
  intros _. split.
  - intros Hl. apply label_valid in Hl.
    unfold Validator.isEligible, Validator.normalise.
    fold (statusText (Validator.status e)).
    rewrite trim_upper by (destruct Hl as [-> | ->]; by repeat constructor).
    by destruct Hl as [-> | ->].
  - intros Hl Hv. apply label_invalid in Hl.
    assert (Htrim : trim (statusText (Validator.status e))
                    = statusText (Validator.status e))
      by (apply trim_upper; destruct Hl as [-> | ->]; by repeat constructor).
    assert (Hst : truthy (Validator.status e) = true).
    { unfold statusText, or_else in Hl.
      destruct (Validator.status e) as [[| c s] |]; [| done |];
        destruct Hl as [Hl | Hl]; discriminate. }
    assert (Hnorm : statusNorm e = toUpperCase (statusText (Validator.status e))).
    { unfold statusNorm, Validator.normalise, statusText, or_else in *.
      destruct (Validator.status e) as [[| c s] |]; try discriminate.
      cbn [truthy default] in *. by rewrite Htrim. }
    split.
    + rewrite (validateEntry_no_validity _ _ Hv). unfold statusPath.
      rewrite Hnorm. by destruct Hl as [-> | ->].
    + unfold Validator.isEligible, Validator.normalise.
      fold (statusText (Validator.status e)). rewrite Htrim.
      by destruct Hl as [-> | ->].
Qed.

(** An entry refused in the sheet. *)
Definition refused : Validator.Entry :=
  {| Validator.platform := js "POPN1"; Validator.gameId := js "7777777777";
     Validator.contest := js "6903"; Validator.drawDate := js "15/12/2025";
     Validator.chosenNumbers := [7; 12; 33; 48; 80];
     Validator.status := Some (js "invalid"); Validator.csvStatus := None;
     Validator.validity := None; Validator.invalidReasonCode := None |}.

Lemma label_agrees_with_validator_witness :
  Validator.gate (Validator.validateEntry ∅ refused)
  = Some Validator.STATUS_INVALID
  /\ Validator.isEligible refused = false.
Proof.
  apply (label_agrees_with_validator ∅ refused).
  - repeat constructor; by vm_compute.
  - reflexivity.
  - reflexivity.
Defined.

(** Where they differ: the validator accepts VALIDATED, and a status
    with white space around it, and the page labels both as pending. *)
Example label_pending_but_accepted :
  normalizeTicketStatus (Some (js "VALIDATED")) = js "pending"
  /\ includes Validator.allowedValidStatuses
       (Validator.normalise (js "VALIDATED")) = true
  /\ normalizeTicketStatus (Some (js " VALID")) = js "pending"
  /\ includes Validator.allowedValidStatuses
       (Validator.normalise (js " VALID")) = true.
Proof. vm_compute. done. Qed.

(** *** The retry helper *)

(** What the result of the loop says about the calls. *)
Definition settledBy {A : Type} (fn : Z -> Settled A) (maxRetries : Z)
    (result : Settled (option A)) (calls : Z) : Prop :=
  match result with
  | Fulfilled (Some value) => 0 < calls /\ fn (calls - 1) = Fulfilled value
  | Fulfilled None => maxRetries <= 0 /\ calls = 0
  | Failed message =>
      0 < calls /\ fn (calls - 1) = Failed message
      /\ (shouldRetry message = false \/ calls = maxRetries)
  end.

Lemma retryFrom_spec {A : Type} (fn : Z -> Settled A) (maxRetries : Z)
    (turns : nat) (i : Z) :
  0 <= i -> maxRetries = i + Z.of_nat turns -> (0 < turns)%nat ->
  i < snd (retryFrom fn maxRetries turns i) <= maxRetries
  /\ (forall j, i <= j < snd (retryFrom fn maxRetries turns i) - 1 ->
        exists message, fn j = Failed message /\ shouldRetry message = true)
  /\ settledBy fn maxRetries (fst (retryFrom fn maxRetries turns i))
       (snd (retryFrom fn maxRetries turns i)).
Proof.
  revert i. induction turns as [| turns IH]; intros i Hi Hmax Hturns; [lia |].
  cbn [retryFrom]. destruct (fn i) as [value | message] eqn:Hfn.
  - cbn [fst snd settledBy]. replace (i + 1 - 1) with i by lia.
    repeat split; [lia | lia | intros j Hj; lia | lia | done].
  - destruct (Z.eqb_spec i (maxRetries - 1)) as [Hlast | Hmore].
    { cbn [fst snd settledBy]. replace (i + 1 - 1) with i by lia.
      repeat split; [lia | lia | intros j Hj; lia | lia | done | right; lia]. }
    destruct (shouldRetry message) eqn:Hretry; cbn [negb].
    + destruct (IH (i + 1)) as (Hcalls & Hbefore & Hsettled); [lia | lia | lia |].
      split; [lia |]. split; [| done].
      intros j Hj. destruct (decide (j = i)) as [-> | Hne]; [by eexists |].
      apply Hbefore. lia.
    + cbn [fst snd settledBy]. replace (i + 1 - 1) with i by lia.
      repeat split; [lia | lia | intros j Hj; lia | lia | done | by left].
Qed.

(** X27.  [retryWithBackoff] calls [fn] at most [maxRetries] times, one
    turn after the other; every call but the last one made threw an
    error with a message that asks for a retry; it returns the value of
    the last call when that call returns, and throws the error of the
    last call when that error does not ask for a retry or the turns are
    used up; with no turn to make it returns [undefined] without a
    call. *)
Theorem retryWithBackoff_turns {A : Type} (fn : Z -> Settled A) (maxRetries : Z) :
  let result := fst (retryWithBackoff fn maxRetries) in
  let calls := snd (retryWithBackoff fn maxRetries) in
  0 <= calls <= Z.max 0 maxRetries
  /\ (forall j, 0 <= j < calls - 1 ->
        exists message, fn j = Failed message /\ shouldRetry message = true)
  /\ settledBy fn maxRetries result calls.
Proof.
  intros result calls. subst result calls. unfold retryWithBackoff.
  destruct (Z.to_nat maxRetries) as [| turns] eqn:Hturns.
  - cbn [retryFrom fst snd settledBy].
    repeat split; [lia | lia | intros j Hj; lia | lia].
  - rewrite <- Hturns.
    destruct (retryFrom_spec fn maxRetries (Z.to_nat maxRetries) 0)
      as (Hcalls & Hbefore & Hsettled); [lia | lia | lia |].
    split; [lia |]. split; done.
Qed.

(** The server is busy twice, then saves the ticket; and the server
    refuses the ticket. *)
Definition busyTwice (i : Z) : Settled Z :=
  if i <? 2 then Failed (Some (js "HTTP 503")) else Fulfilled 4711.

Definition refusedAtOnce (i : Z) : Settled Z :=
  Failed (Some (js "Falha ao salvar bilhete")).

Example retryWithBackoff_examples :
  retryWithBackoff busyTwice 3 = (Fulfilled (Some 4711), 3)
  /\ retryWithBackoff busyTwice 2 = (Failed (Some (js "HTTP 503")), 2)
  /\ retryWithBackoff refusedAtOnce 3
     = (Failed (Some (js "Falha ao salvar bilhete")), 1)
  /\ retryWithBackoff busyTwice 0 = (Fulfilled None, 0).
Proof. vm_compute. done. Qed.

End PageSpec.

(** ** Properties of the processed-data cache *)

Module DataFetcherSpec.
Import JS DataFetcher ValidatorSpec.
Local Open Scope Z_scope.

Lemma lookup_last_snoc {A : Type} (l : list A) (x : A) :
  (l ++ [x]) !! (length (l ++ [x]) - 1)%nat = Some x.
Proof.
  rewrite length_app. cbn [length].
  replace (length l + 1 - 1)%nat with (length l + 0)%nat by lia.
  by rewrite lookup_app_r, Nat.add_0_r, Nat.sub_diag by lia.
Qed.

(** The hash of an array of at least two elements reads its length,
    its first element and its last one. *)
Lemma simpleHash_ends (first last : Row) (middle : list Row) :
  simpleHash (Some (first :: middle ++ [last]))
  = numberToString (S (S (length middle))) ++ js "-" ++ rowKey (Some first)
    ++ js "-" ++ rowKey (Some last).
Proof.
  unfold simpleHash.
  assert (Hlen : length (first :: middle ++ [last]) = S (S (length middle)))
    by (cbn; rewrite length_app; cbn; lia).
  rewrite Hlen at 1. do 4 f_equal.
  change (first :: middle ++ [last]) with ((first :: middle) ++ [last]).
  by rewrite lookup_last_snoc.
Qed.

(** X28.  The cached validation is taken for current by the length of
    the entries and the ticket numbers of the first and the last entry
    alone: after [setCachedValidation] of results that are truthy, when
    the entries are replaced by entries of the same number whose first
    and last ticket numbers are the same, [getCachedValidation] still
    returns the results computed from the old entries, whatever changed
    in the entries between the first and the last.  Results that are not
    truthy are never returned. *)
Theorem cached_validation_outlives_changes {V : Type} (isTruthy : V -> bool)
    (data : V) (cache : Cache V) (first last first' last' : Row)
    (middle middle' : list Row) :
  entriesData cache = Some (first :: middle ++ [last]) ->
  length middle' = length middle ->
  rowKey (Some first') = rowKey (Some first) ->
  rowKey (Some last') = rowKey (Some last) ->
  getCachedValidation isTruthy
    (storeEntries (first' :: middle' ++ [last']) (setCachedValidation data cache))
  = (if isTruthy data then Some data else None).
Proof.
  intros He Hlen Hf Hl. unfold getCachedValidation, storeEntries, setCachedValidation.
  cbn [entriesData validationData validationHash].
  destruct (isTruthy data); [| done]. cbn [negb].
  rewrite He, !simpleHash_ends, Hlen, Hf, Hl.
  by rewrite bool_decide_eq_true_2.
Qed.

(** Three tickets, and the same three after the second was refused: the
    rows differ in a property the hash does not read. *)
Definition ticket (number : string) : Row :=
  {| ticketNumber := Some (js number); contest := Some (js "6903");
     gameId := Some (js "1234567890"); whatsapp := None |}.

Lemma cached_validation_outlives_changes_witness :
  getCachedValidation id
    (storeEntries ([ticket "103"] ++ [ticket "999"] ++ [ticket "101"])
       (setCachedValidation true
          {| entriesData := Some ([ticket "103"] ++ [ticket "102"] ++ [ticket "101"]);
             validationData := None; validationHash := None |}))
  = Some true.
Proof.
  apply (cached_validation_outlives_changes id true _ (ticket "103") (ticket "101")
           (ticket "103") (ticket "101") [ticket "102"] [ticket "999"]);
    reflexivity.
Defined.

(** *** The length in the hash *)

Definition hyphen : N := 45.

Definition isDigit (c : N) : Prop := (48 <= c <= 57)%N.

Lemma digits_isDigit (fuel : nat) (n : N) (acc : jsstring) :
  Forall isDigit acc -> Forall isDigit (digits fuel n acc).
Proof.
  revert n acc. induction fuel as [| fuel IH]; intros n acc Hacc; [done |].
  cbn [digits].
  assert (Hd : Forall isDigit ((48 + n mod 10)%N :: acc)).
  { constructor; [| done]. unfold isDigit.
    pose proof (N.mod_upper_bound n 10 ltac:(done)) as H.
    revert H. generalize (n mod 10)%N. intros m H. lia. }
  destruct (n <? 10)%N; [done | by apply IH].
Qed.

Lemma digits_length (fuel : nat) (n : N) (acc : jsstring) :
  (length acc <= length (digits fuel n acc))%nat.
Proof.
  revert n acc. induction fuel as [| fuel IH]; intros n acc; [done |].
  cbn [digits]. destruct (n <? 10)%N; [cbn; lia |].
  etrans; [| apply IH]. cbn. lia.
Qed.

Lemma digits_longer (fuel : nat) (n : N) (acc : jsstring) :
  (0 < fuel)%nat -> (length acc < length (digits fuel n acc))%nat.
Proof.
  intros Hf. destruct fuel as [| fuel]; [lia |]. cbn [digits].
  destruct (n <? 10)%N; [simpl; lia |].
  pose proof (digits_length fuel (n / 10) ((48 + n mod 10)%N :: acc)) as Hl.
  simpl in Hl. lia.
Qed.

(** Two numbers with the same digits are the same number. *)
Lemma digits_inj (fuel fuel' : nat) (n n' : N) (acc acc' : jsstring) :
  (N.to_nat n < fuel)%nat -> (N.to_nat n' < fuel')%nat ->
  length acc = length acc' ->
  digits fuel n acc = digits fuel' n' acc' -> n = n' /\ acc = acc'.
Proof.
  revert fuel' n n' acc acc'.
  induction fuel as [| fuel IH]; intros fuel' n n' acc acc' Hf Hf' Hlen H; [lia |].
  destruct fuel' as [| fuel']; [lia |]. cbn [digits] in H.
  pose proof (N.mod_upper_bound n 10 ltac:(done)) as Hr.
  pose proof (N.mod_upper_bound n' 10 ltac:(done)) as Hr'.
  pose proof (N.div_mod n 10 ltac:(done)) as Hq.
  pose proof (N.div_mod n' 10 ltac:(done)) as Hq'.
  revert H Hr Hr' Hq Hq'.
  generalize (n / 10)%N (n mod 10)%N (n' / 10)%N (n' mod 10)%N.
  intros q r q' r' H Hr Hr' Hq Hq'.
  destruct (N.ltb_spec n 10) as [Hn | Hn], (N.ltb_spec n' 10) as [Hn' | Hn'].
  - injection H as H ->. split; [lia | done].
  - exfalso. apply (f_equal length) in H. cbn [length] in H.
    pose proof (digits_longer fuel' q' ((48 + r')%N :: acc') ltac:(lia)) as Hl.
    simpl in Hl. lia.
  - exfalso. apply (f_equal length) in H. cbn [length] in H.
    pose proof (digits_longer fuel q ((48 + r)%N :: acc) ltac:(lia)) as Hl.
    simpl in Hl. lia.
  - apply IH in H as [-> Hacc]; [| lia | lia | cbn; lia].
    injection Hacc as Hrr ->. split; [lia | done].
Qed.

Lemma numberToString_inj (n n' : nat) :
  numberToString n = numberToString n' -> n = n'.
Proof.
  unfold numberToString. intros H.
  apply digits_inj in H as [H _]; [lia | lia | lia | done].
Qed.

(** Texts of digits followed by a hyphen are equal up to the hyphen. *)
Lemma digits_before_hyphen (a a' b b' : jsstring) :
  Forall isDigit a -> Forall isDigit a' ->
  a ++ hyphen :: b = a' ++ hyphen :: b' -> a = a'.
Proof.
  revert a'. induction a as [| x a IH]; intros [| y a'] Ha Ha' H; cbn in H.
  - done.
  - injection H as Hy _. apply Forall_cons in Ha' as [Hd _].
    unfold isDigit, hyphen in *. lia.
  - injection H as Hx _. apply Forall_cons in Ha as [Hd _].
    unfold isDigit, hyphen in *. lia.
  - injection H as -> H. apply Forall_cons in Ha as [_ Ha], Ha' as [_ Ha'].
    f_equal. by apply IH.
Qed.

Lemma simpleHash_length (data data' : list Row) :
  simpleHash (Some data) = simpleHash (Some data') -> length data = length data'.
Proof.
  unfold simpleHash. change (js "-") with [hyphen]. cbn [app]. intros H.
  apply digits_before_hyphen in H;
    [by apply numberToString_inj | by apply digits_isDigit..].
Qed.

(** X29.  A change in the number of entries always ends the cached
    validation: after [setCachedValidation], when the entries are
    replaced by entries of another number, [getCachedValidation] returns
    nothing. *)
Theorem cached_validation_ends_with_length {V : Type} (isTruthy : V -> bool)
    (data : V) (cache : Cache V) (entries entries' : list Row) :
  entriesData cache = Some entries ->
  length entries' <> length entries ->
  getCachedValidation isTruthy
    (storeEntries entries' (setCachedValidation data cache))
  = None.
Proof.
  intros He Hlen. unfold getCachedValidation, storeEntries, setCachedValidation.
  cbn [entriesData validationData validationHash]. rewrite He.
  destruct (isTruthy data); [| done]. cbn [negb].
  rewrite bool_decide_eq_false_2; [done |].
  intros [= H]. symmetry in H. by apply simpleHash_length in H.
Qed.

Lemma cached_validation_ends_with_length_witness :
  getCachedValidation id
    (storeEntries [ticket "104"; ticket "103"; ticket "102"; ticket "101"]
       (setCachedValidation true
          {| entriesData := Some [ticket "103"; ticket "102"; ticket "101"];
             validationData := None; validationHash := None |}))
  = None.
Proof.
  apply (cached_validation_ends_with_length id true _
           [ticket "103"; ticket "102"; ticket "101"]); [reflexivity | cbn; lia].
Defined.

Example numberToString_examples :
  numberToString 0 = js "0" /\ numberToString 7 = js "7"
  /\ numberToString 10 = js "10" /\ numberToString 1234 = js "1234".
Proof. vm_compute. done. Qed.

(** *** getTopEntrants *)

(** The entries of the player [id], in the order of the array. *)
Definition played (id : jsstring) (entries : list Row) : list Row :=
  List.filter (fun e => bool_decide (gameId e = Some id)) entries.

(** The element that stands for the player [id]. *)
Definition entrantOf (entries : list Row) (id : jsstring) : Entrant :=
  {| t_gameId := id;
     t_whatsapp := head (played id entries) ≫= whatsapp;
     t_count := Z.of_nat (length (played id entries));
     t_entries := played id entries |}.

(** The game ids of the entries, each once, in the order of their first
    entry. *)
Definition firstIds (entries : list Row) : list jsstring :=
  fold_left
    (fun ids e =>
       if truthy (gameId e) then
         if includes ids (default [] (gameId e)) then ids
         else ids ++ [default [] (gameId e)]
       else ids)
    entries [].

Lemma truthy_Some (v : option jsstring) :
  truthy v = true -> v = Some (default [] v) /\ default [] v <> [].
Proof. by destruct v as [[| c s] |]. Qed.

Lemma truthy_false_Some (v : option jsstring) (id : jsstring) :
  truthy v = false -> id <> [] -> v <> Some id.
Proof. intros Ht Hne ->. by destruct id. Qed.

Lemma firstIds_snoc (entries : list Row) (e : Row) :
  firstIds (entries ++ [e])
  = if truthy (gameId e) then
      if includes (firstIds entries) (default [] (gameId e)) then firstIds entries
      else firstIds entries ++ [default [] (gameId e)]
    else firstIds entries.
Proof. unfold firstIds. by rewrite fold_left_app. Qed.

Lemma played_snoc (id : jsstring) (entries : list Row) (e : Row) :
  played id (entries ++ [e])
  = if bool_decide (gameId e = Some id) then played id entries ++ [e]
    else played id entries.
Proof.
  unfold played. rewrite List.filter_app. cbn [List.filter].
  destruct (bool_decide (gameId e = Some id)); [done | by rewrite app_nil_r].
Qed.

Lemma played_snoc_other (id : jsstring) (entries : list Row) (e : Row) :
  gameId e <> Some id -> played id (entries ++ [e]) = played id entries.
Proof. intros H. by rewrite played_snoc, bool_decide_eq_false_2. Qed.

Lemma firstIds_spec (entries : list Row) :
  NoDup (firstIds entries)
  /\ forall id, id ∈ firstIds entries <-> id <> [] /\ played id entries <> [].
Proof.
  induction entries as [| e entries [Hn Hin]] using rev_ind.
  - split; [constructor |]. intros id. cbn. split; [by intros ?%elem_of_nil |].
    by intros [_ ?].
  - rewrite firstIds_snoc.
    assert (Hsnoc : forall id,
               played id (entries ++ [e]) <> []
               <-> played id entries <> [] \/ gameId e = Some id).
    { intros id. rewrite played_snoc.
      destruct (bool_decide_reflect (gameId e = Some id)) as [He | He].
      - split; [by right |]. intros _ H. by apply app_eq_nil in H as [_ ?].
      - split; [by left | by intros [? | ?]]. }
    destruct (truthy (gameId e)) eqn:Ht.
    + apply truthy_Some in Ht as [Hid Hne].
      set (id0 := default [] (gameId e)) in *.
      destruct (includes (firstIds entries) id0) eqn:Hinc.
      * split; [done |]. intros id. rewrite Hin, Hsnoc.
        apply includes_elem_of, Hin in Hinc as [_ Hp].
        split; [tauto |]. intros [Hne' [H | H]]; [tauto |].
        rewrite Hid in H. injection H as <-. done.
      * assert (Hout : id0 ∉ firstIds entries).
        { intros H. apply includes_elem_of in H. congruence. }
        split.
        -- apply NoDup_app. split; [done |]. split; [| apply NoDup_singleton].
           intros x Hx Hx'. apply list_elem_of_singleton in Hx'. by subst.
        -- intros id. rewrite elem_of_app, list_elem_of_singleton, Hin, Hsnoc.
           split.
           ++ intros [[? ?] | ->]; [tauto |]. split; [done |]. by right.
           ++ intros [Hne' [H | H]]; [tauto |]. right.
              rewrite Hid in H. by injection H.
    + split; [done |]. intros id. rewrite Hin, Hsnoc.
      split; [tauto |]. intros [Hne' [H | H]]; [tauto |].
      by apply (truthy_false_Some _ id Ht) in H.
Qed.

(** The counted entry as [bump] leaves it. *)
Definition counted (entry : Row) (t : Entrant) : Entrant :=
  {| t_gameId := t_gameId t; t_whatsapp := t_whatsapp t;
     t_count := t_count t + 1; t_entries := t_entries t ++ [entry] |}.

Lemma bump_absent (g : jsstring -> Entrant) (ids : list jsstring)
    (id : jsstring) (e : Row) :
  id ∉ ids ->
  bump id e (map (fun k => (k, g k)) ids)
  = map (fun k => (k, g k)) ids
    ++ [(id, {| t_gameId := id; t_whatsapp := whatsapp e;
                t_count := 0 + 1; t_entries := [] ++ [e] |})].
Proof.
  induction ids as [| k ids IH]; intros Hout; [done |].
  apply not_elem_of_cons in Hout as [Hne Hout]. cbn [map bump app].
  assert (streq k id = false) as -> by (apply streq_false; congruence).
  by rewrite IH.
Qed.

Lemma bump_present (g : jsstring -> Entrant) (ids : list jsstring)
    (id : jsstring) (e : Row) :
  NoDup ids -> id ∈ ids ->
  bump id e (map (fun k => (k, g k)) ids)
  = map (fun k => (k, if streq k id then counted e (g k) else g k)) ids.
Proof.
  induction ids as [| k ids IH]; intros Hn Hin; [by apply elem_of_nil in Hin |].
  apply NoDup_cons in Hn as [Hk Hn]. cbn [map bump].
  destruct (streq k id) eqn:E.
  - apply streq_true in E. subst k. f_equal.
    apply map_ext_in. intros k Hin'. apply list_elem_of_In in Hin'.
    assert (streq k id = false) as -> by (apply streq_false; by intros ->).
    done.
  - apply streq_false in E. apply elem_of_cons in Hin as [-> | Hin]; [done |].
    by rewrite IH.
Qed.

(** The counts after the loop: one element for each player, in the order
    of the first entries. *)
Lemma counts_after_loop (entries : list Row) :
  (forall e, e ∈ entries -> truthy (gameId e) = true ->
             default [] (gameId e) ∉ inheritedNames) ->
  fold_left countEntry entries (Some [])
  = Some (map (fun k => (k, entrantOf entries k)) (firstIds entries)).
Proof.
  induction entries as [| e entries IH] using rev_ind; intros Hown; [done |].
  rewrite fold_left_app, IH by (intros e' He'; apply Hown, elem_of_app; by left).
  cbn [fold_left countEntry]. rewrite firstIds_snoc.
  destruct (firstIds_spec entries) as [Hn Hin].
  destruct (truthy (gameId e)) eqn:Ht; cbn [negb].
  - pose proof (Hown e ltac:(apply elem_of_app; right; by left) Ht) as Hnot.
    apply includes_false in Hnot. rewrite Hnot.
    apply truthy_Some in Ht as [Hid Hne].
    set (id0 := default [] (gameId e)) in *. f_equal.
    destruct (includes (firstIds entries) id0) eqn:Hinc.
    + apply includes_elem_of in Hinc.
      rewrite bump_present by done.
      apply map_ext_in. intros k Hk. apply list_elem_of_In in Hk. f_equal.
      destruct (streq k id0) eqn:E.
      * apply streq_true in E. subst k. apply Hin in Hinc as [_ Hp].
        unfold counted, entrantOf. cbn.
        rewrite played_snoc, Hid, bool_decide_eq_true_2 by done.
        rewrite length_app. cbn [length]. f_equal; [| lia].
        by destruct (played id0 entries).
      * apply streq_false in E. unfold entrantOf.
        rewrite played_snoc_other; [done |]. rewrite Hid. congruence.
    + assert (Hout : id0 ∉ firstIds entries).
      { intros H. apply includes_elem_of in H. congruence. }
      rewrite bump_absent by done. rewrite map_app. cbn [map]. f_equal.
      * apply map_ext_in. intros k Hk. apply list_elem_of_In in Hk. f_equal.
        unfold entrantOf. rewrite played_snoc_other; [done |].
        rewrite Hid. intros [= ->]. done.
      * assert (Hnone : played id0 entries = []).
        { destruct (played id0 entries) as [| e0 l] eqn:Hp; [done |].
          exfalso. apply Hout, Hin. by rewrite Hp. }
        unfold entrantOf.
        rewrite played_snoc, Hid, bool_decide_eq_true_2, Hnone by done. done.
  - f_equal. apply map_ext_in. intros k Hk. apply list_elem_of_In in Hk.
    f_equal. unfold entrantOf. rewrite played_snoc_other; [done |].
    apply Hin in Hk as [Hk _]. by apply truthy_false_Some.
Qed.

Lemma filter_split_Permutation {A : Type} (p : A -> bool) (l : list A) :
  List.filter p l ++ List.filter (fun x => negb (p x)) l ≡ₚ l.
Proof.
  induction l as [| x l IH]; [done |]. cbn. destruct (p x); cbn.
  - by constructor.
  - rewrite <- Permutation_middle. by constructor.
Qed.

Lemma objectValues_Permutation {A : Type} (object : list (jsstring * A)) :
  objectValues object ≡ₚ map snd object.
Proof.
  unfold objectValues. apply Permutation_map.
  rewrite sort_Permutation. apply filter_split_Permutation.
Qed.

Lemma StronglySorted_prefix {A : Type} (R : A -> A -> Prop) (l1 l2 : list A) :
  StronglySorted R (l1 ++ l2) ->
  StronglySorted R l1 /\ forall x1 x2, x1 ∈ l1 -> x2 ∈ l2 -> R x1 x2.
Proof.
  induction l1 as [| x l1 IH]; cbn [app]; intros H.
  - split; [constructor |]. by intros x1 x2 ?%elem_of_nil.
  - apply StronglySorted_inv in H as [Hs Hx]. destruct (IH Hs) as [Hs1 Hc].
    split.
    + constructor; [done |]. by apply Forall_app in Hx as [? _].
    + intros x1 x2 [-> | H1]%elem_of_cons H2; [| by apply Hc].
      apply Forall_app in Hx as [_ Hx]. by apply (proj1 (Forall_forall _ _) Hx).
Qed.

(** More entries first. *)
Definition moreEntriesFirst (a b : Entrant) : Prop := t_count b <= t_count a.

Lemma sorted_by_count (l : list Entrant) :
  StronglySorted moreEntriesFirst (sort (fun a b => t_count b - t_count a) l).
Proof.
  apply (StronglySorted_weaken
           (notAfter (fun a b => t_count b - t_count a)) moreEntriesFirst
           (fun _ => True)).
  - intros a b _ _. unfold notAfter, moreEntriesFirst. lia.
  - by apply Forall_forall.
  - apply (sort_StronglySorted _ (fun _ => True)).
    + intros a b _ _. unfold notAfter. lia.
    + intros a b c _ _ _. unfold notAfter. lia.
    + by apply Forall_forall.
Qed.

(** X30.  For entries whose game ids are not names every object
    inherits, and a limit that is not negative, [getTopEntrants] returns
    at most [limit] players, no player twice, with more entries first.
    Each of them comes with its entries, those of the array with its game
    id in their order, their number as count, at least one, and the
    WhatsApp number of its first entry.  A player with an entry that is
    not returned has no more entries than any player returned, and then
    the limit is reached. *)
Theorem getTopEntrants_top (entries : list Row) (limit : Z) :
  0 <= limit ->
  (forall e, e ∈ entries -> truthy (gameId e) = true ->
             default [] (gameId e) ∉ inheritedNames) ->
  exists top,
    getTopEntrants entries limit = Some top
    /\ (length top <= Z.to_nat limit)%nat
    /\ NoDup (map t_gameId top)
    /\ StronglySorted moreEntriesFirst top
    /\ (forall t, t ∈ top ->
          t_gameId t <> []
          /\ t_entries t = played (t_gameId t) entries
          /\ t_count t = Z.of_nat (length (t_entries t))
          /\ 1 <= t_count t
          /\ t_whatsapp t = head (t_entries t) ≫= whatsapp)
    /\ (forall id, id <> [] -> played id entries <> [] ->
          (exists t, t ∈ top /\ t_gameId t = id)
          \/ (length top = Z.to_nat limit
              /\ forall t, t ∈ top ->
                   Z.of_nat (length (played id entries)) <= t_count t)).
Proof.
  intros Hlimit Hown. unfold getTopEntrants.
  rewrite (counts_after_loop entries Hown).
  destruct (firstIds_spec entries) as [Hn Hin].
  set (counts := map (fun k => (k, entrantOf entries k)) (firstIds entries)).
  set (all := sort (fun a b => t_count b - t_count a) (objectValues counts)).
  assert (Hall : all ≡ₚ map (entrantOf entries) (firstIds entries)).
  { unfold all. rewrite sort_Permutation, objectValues_Permutation.
    unfold counts. by rewrite map_map. }
  assert (Hsorted : StronglySorted moreEntriesFirst all) by apply sorted_by_count.
  unfold sliceFromStart.
  assert ((0 <=? limit) = true) as -> by (by apply Z.leb_le).
  set (n := Z.to_nat limit).
  eexists. split; [reflexivity |].
  assert (Helem : forall t, t ∈ all ->
             exists k, k ∈ firstIds entries /\ t = entrantOf entries k).
  { intros t Ht. rewrite Hall in Ht. apply list_elem_of_fmap in Ht as (k & -> & Hk).
    by exists k. }
  assert (Hsplit : all = take n all ++ drop n all) by (by rewrite take_drop).
  split; [rewrite length_take; lia |]. split; [| split; [| split]].
  - apply (sublist_NoDup _ (map t_gameId all)).
    + rewrite Hall, map_map. cbn. by rewrite map_id.
    + rewrite Hsplit at 2. rewrite map_app. by apply sublist_inserts_r.
  - rewrite Hsplit in Hsorted. by apply StronglySorted_prefix in Hsorted as [? _].
  - intros t Ht.
    assert (Ht' : t ∈ all) by (rewrite Hsplit; apply elem_of_app; by left).
    destruct (Helem t Ht') as (k & Hk & ->). apply Hin in Hk as [Hne Hp].
    cbn. repeat split; [done |].
    destruct (played k entries); [done | cbn; lia].
  - intros id Hne Hp.
    assert (Hid : entrantOf entries id ∈ all).
    { rewrite Hall. apply list_elem_of_fmap. exists id. split; [done |].
      by apply Hin. }
    rewrite Hsplit in Hid. apply elem_of_app in Hid as [Hid | Hid].
    + left. by exists (entrantOf entries id).
    + right. split.
      * rewrite length_take. apply Nat.min_l.
        destruct (decide (n <= length all)%nat) as [? | Hgt]; [done |].
        rewrite drop_ge in Hid by lia. by apply elem_of_nil in Hid.
      * intros t Ht. rewrite Hsplit in Hsorted.
        apply StronglySorted_prefix in Hsorted as [_ Hcross].
        pose proof (Hcross t (entrantOf entries id) Ht Hid) as Hle.
        exact Hle.
Qed.

(** Two players: the second has two entries. *)
Definition entryOf (id number : string) : Row :=
  {| ticketNumber := None; contest := Some (js "6903");
     gameId := Some (js id); whatsapp := Some (js number) |}.

Lemma getTopEntrants_top_witness :
  exists top,
    getTopEntrants
      [entryOf "5555555555" "11999887766"; entryOf "1234567890" "21999887766";
       entryOf "1234567890" "21911111111"] 1 = Some top
    /\ (length top <= 1)%nat.
Proof.
  destruct (getTopEntrants_top
              [entryOf "5555555555" "11999887766"; entryOf "1234567890" "21999887766";
               entryOf "1234567890" "21911111111"] 1) as (top & H1 & H2 & _).
  - lia.
  - intros e He _ Hin. apply includes_elem_of in Hin.
    rewrite !elem_of_cons, elem_of_nil in He.
    destruct He as [-> | [-> | [-> | []]]]; by vm_compute in Hin.
  - exists top. split; [exact H1 | exact H2].
Defined.

Example getTopEntrants_example :
  option_map (map (fun t => (t_gameId t, t_count t, t_whatsapp t)))
    (getTopEntrants
       [entryOf "5555555555" "11999887766"; entryOf "1234567890" "21999887766";
        entryOf "1234567890" "21911111111"] 10)
  = Some [(js "1234567890", 2, Some (js "21999887766"));
          (js "5555555555", 1, Some (js "11999887766"))].
Proof. vm_compute. reflexivity. Qed.

End DataFetcherSpec.
